(** * veneur: listener orchestration and softnet_stat parsing (networking.go)

    A shallow embedding of [networking.go] and the properties its design
    document states about it.

    - [Go]: a small state-and-panic monad over a [World] that holds what the
      listeners touch outside the process (socket paths, advisory locks),
      the goroutines started so far, the log, and the calls made.
    - [Net]: [StartStatsd], [StartSSF] and the per-transport set-up routines.
    - [UnixLoop]: the two goroutines of [startSSFUnix] as a transition system.
    - [Csv], [Strconv]: models of the parts of Go's [encoding/csv] and
      [strconv] that [parseSoftnet] calls.
    - [Softnet]: [parseSoftnet] and [parseSoftnetRecord]. *)

From stdpp Require Import base strings list gmap pretty.
From Stdlib Require Import ZArith Lia Ascii.

Local Open Scope string_scope.
Local Open Scope list_scope.

(** ** Data model *)

(** [net.UDPAddr], [net.TCPAddr], [net.UnixAddr]; [net.Addr] is the interface
    they implement, together with any other implementation. *)
Record UDPAddr := mkUDPAddr { udp_ip : string; udp_port : Z }.
Record TCPAddr := mkTCPAddr { tcp_ip : string; tcp_port : Z }.
Record UnixAddr := mkUnixAddr { unix_name : string; unix_net : string }.

Inductive Addr :=
| AddrUDP (a : UDPAddr)
| AddrTCP (a : TCPAddr)
| AddrUnix (a : UnixAddr)
| AddrIP (ip : string)
| AddrOther (network repr : string).

(** [net.JoinHostPort(host, port)]: a host with a colon in it (a literal
    IPv6 address) is put in square brackets. *)
Fixpoint has_colon (s : string) : bool :=
  match s with
  | EmptyString => false
  | String c s' => Ascii.eqb c ":" || has_colon s'
  end.

Definition host_port (ip : string) (port : Z) : string :=
  if has_colon ip then "[" +:+ ip +:+ "]:" +:+ pretty port
  else ip +:+ ":" +:+ pretty port.

(** [a.String()] *)
Definition addr_String (a : Addr) : string :=
  match a with
  | AddrUDP u => host_port (udp_ip u) (udp_port u)
  | AddrTCP t => host_port (tcp_ip t) (tcp_port t)
  | AddrUnix u => unix_name u
  | AddrIP ip => ip
  | AddrOther _ repr => repr
  end.

(** [a.Network()] *)
Definition addr_Network (a : Addr) : string :=
  match a with
  | AddrUDP _ => "udp"
  | AddrTCP _ => "tcp"
  | AddrUnix u => unix_net u
  | AddrIP _ => "ip"
  | AddrOther network _ => network
  end.

(** [tls.ClientAuthType] and the one field of [tls.Config] that is read. *)
Inductive ClientAuthType :=
| NoClientCert
| RequestClientCert
| RequireAnyClientCert
| VerifyClientCertIfGiven
| RequireAndVerifyClientCert.

Global Instance ClientAuthType_eq_dec : EqDecision ClientAuthType.
Proof. solve_decision. Defined.

Record TLSConfig := mkTLSConfig { ClientAuth : ClientAuthType }.

(** The fields of [Server] that networking.go reads. A nil [tlsConfig] is
    [None]. [numReaders] is a Go [int]. *)
Record Server := mkServer {
  numReaders : Z;
  RcvbufBytes : Z;
  tlsConfig : option TLSConfig;
  Hostname : string;
}.

(** Modelled from the spec: the Socket Factory [NewSocket], which is not in
    networking.go: it "constructs a single UDP or TCP socket bound to a given
    address, optionally configuring kernel-level port/address reuse and a
    requested receive-buffer size". A socket records how it was made. *)
Record Socket := mkSocket {
  sock_addr : UDPAddr;
  sock_rcvbuf : Z;
  sock_reuseport : bool;
}.

(** A [net.Listener]: the TCP listener, or that listener behind
    [tls.NewListener]. *)
Inductive Listener :=
| TCPListener (a : TCPAddr)
| TLSListener (inner : Listener) (cfg : TLSConfig).

Record UnixListener := mkUnixListener { ul_path : string }.

(** [flock.Flock]: the path of the lock file. *)
Record Flock := mkFlock { flock_path : string }.

(** The channel [done] of [startSSFUnix]. *)
Record DoneChan := mkDoneChan { done_id : nat }.

(** The closures handed to [go], each with the variables it captures. *)
Inductive Goroutine :=
| StatsdUDPReader (s : Server) (addr : UDPAddr)
| TCPCloser (l : Listener)
| TCPAcceptor (l : Listener)
| SSFUDPReader (sock : Socket)
| SSFUnixServer (lock : Flock) (l : UnixListener) (done : DoneChan).

Inductive Level := Info | Warn | Fatal.

Record LogEntry := mkLog {
  log_level : Level;
  log_fields : list (string * string);
  log_msg : string;
}.

(** Calls that leave the process, and the two deferred calls of the accept
    goroutine, in the order they happen. *)
Inductive Call :=
| CallNewSocket (addr : UDPAddr) (rcvbuf : Z) (reuseport : bool) (ok : bool)
| CallListenTCP (addr : TCPAddr) (ok : bool)
| CallTryLock (path : string) (locked : bool) (err : option string)
| CallRemove (path : string) (err : option string)
| CallListenUnix (path : string) (ok : bool)
| CallChmod (path : string) (mode : Z) (ok : bool)
| CallCloseListener (path : string)
| CallUnlock (path : string)
| CallCloseDone (done : DoneChan).

Global Instance DoneChan_eq_dec : EqDecision DoneChan.
Proof. solve_decision. Defined.
Global Instance UDPAddr_eq_dec : EqDecision UDPAddr.
Proof. solve_decision. Defined.
Global Instance TCPAddr_eq_dec : EqDecision TCPAddr.
Proof. solve_decision. Defined.
Global Instance Call_eq_dec : EqDecision Call.
Proof. solve_decision. Defined.

(** Failures the environment may answer with, beyond those that follow from
    the state of the file system and of the locks. *)
Record Faults := mkFaults {
  socket_error : UDPAddr -> bool -> option string;
  listen_tcp_error : option string;
  flock_error : option string;
  remove_error : option string;
  listen_unix_error : option string;
  chmod_error : option string;
}.

Definition no_faults : Faults :=
  {| socket_error := fun _ _ => None;
     listen_tcp_error := None;
     flock_error := None;
     remove_error := None;
     listen_unix_error := None;
     chmod_error := None |}.

(** What set-up reads and changes.
    - [files]: the paths that exist;
    - [flocks]: the lock files on which some open file holds an exclusive
      [flock], in this process or in another;
    - [goroutines], [logs], [calls]: newest last.

    A file is identified with the path it is reached by: a second name of
    one file (a link, or a path through [.] or [..]) is not modelled.
    [files] is about socket paths; whether a lock file exists is not
    tracked, only whether it is locked. *)
Record World := mkWorld {
  files : gset string;
  flocks : gset string;
  faults : Faults;
  next_chan : nat;
  goroutines : list Goroutine;
  logs : list LogEntry;
  calls : list Call;
}.

Definition set_files (f : gset string -> gset string) (w : World) : World :=
  {| files := f (files w); flocks := flocks w; faults := faults w;
     next_chan := next_chan w; goroutines := goroutines w; logs := logs w;
     calls := calls w |}.

Definition set_flocks (f : gset string -> gset string) (w : World) : World :=
  {| files := files w; flocks := f (flocks w); faults := faults w;
     next_chan := next_chan w; goroutines := goroutines w; logs := logs w;
     calls := calls w |}.

Definition add_goroutine (g : Goroutine) (w : World) : World :=
  {| files := files w; flocks := flocks w; faults := faults w;
     next_chan := next_chan w; goroutines := goroutines w ++ [g];
     logs := logs w; calls := calls w |}.

Definition add_log (e : LogEntry) (w : World) : World :=
  {| files := files w; flocks := flocks w; faults := faults w;
     next_chan := next_chan w; goroutines := goroutines w;
     logs := logs w ++ [e]; calls := calls w |}.

Definition add_call (c : Call) (w : World) : World :=
  {| files := files w; flocks := flocks w; faults := faults w;
     next_chan := next_chan w; goroutines := goroutines w; logs := logs w;
     calls := calls w ++ [c] |}.

Definition bump_chan (w : World) : World :=
  {| files := files w; flocks := flocks w; faults := faults w;
     next_chan := S (next_chan w); goroutines := goroutines w; logs := logs w;
     calls := calls w |}.

(** ** The monad of set-up code

    A Go function either returns or panics; a panic is never a returned
    [error]. Both leave a world behind. *)
Inductive Result (A : Type) :=
| Ok (a : A) (w : World)
| Panic (msg : string) (w : World).
Arguments Ok {A} a w.
Arguments Panic {A} msg w.

Definition Go (A : Type) : Type := World -> Result A.

Definition ret {A} (a : A) : Go A := fun w => Ok a w.

Definition bind {A B} (m : Go A) (k : A -> Go B) : Go B :=
  fun w => match m w with
           | Ok a w' => k a w'
           | Panic msg w' => Panic msg w'
           end.

Definition panic {A} (msg : string) : Go A := fun w => Panic msg w.

Declare Scope go_scope.
Delimit Scope go_scope with go.
Notation "'let*' x := m 'in' k" := (bind m (fun x => k))
  (at level 10, x name, m at level 99, k at level 200) : go_scope.
Notation "m ;; k" := (bind m (fun _ => k))
  (at level 100, k at level 200, right associativity) : go_scope.
Local Open Scope go_scope.

(** [go f()] *)
Definition go (g : Goroutine) : Go unit := fun w => Ok tt (add_goroutine g w).

(** [log.WithFields(fields).Info(msg)] *)
Definition logInfo (fields : list (string * string)) (msg : string) : Go unit :=
  fun w => Ok tt (add_log (mkLog Info fields msg) w).

(** [for i := 0; i < n; i++ { body }], for a body that does not read [i]. *)
Definition for_range (n : Z) (body : Go unit) : Go unit :=
  foldr (fun _ rest => body ;; rest) (ret tt) (seqZ 0 n).

(** ** The environment's calls *)

(** Modelled from the spec: [NewSocket(addr, recvBuf, reuseport)], which is
    not in networking.go. It fails when the environment says so and otherwise
    gives a socket bound to [addr] with the buffer size and reuse flag asked
    for. *)
Definition NewSocket (addr : UDPAddr) (recvBuf : Z) (reuseport : bool)
  : Go (Socket + string) :=
  fun w =>
    match socket_error (faults w) addr reuseport with
    | Some e => Ok (inr e) (add_call (CallNewSocket addr recvBuf reuseport false) w)
    | None => Ok (inl (mkSocket addr recvBuf reuseport))
                 (add_call (CallNewSocket addr recvBuf reuseport true) w)
    end.

(** [net.ListenTCP("tcp", addr)] *)
Definition ListenTCP (addr : TCPAddr) : Go (Listener + string) :=
  fun w =>
    match listen_tcp_error (faults w) with
    | Some e => Ok (inr e) (add_call (CallListenTCP addr false) w)
    | None => Ok (inl (TCPListener addr)) (add_call (CallListenTCP addr true) w)
    end.

(** [flock.NewFlock(path)] *)
Definition NewFlock (path : string) : Flock := mkFlock path.

(** [lock.TryLock()] on a fresh [Flock]: an I/O error gives [(false, err)];
    a lock file that is already locked gives [(false, nil)]; otherwise the
    lock is taken. *)
Definition TryLock (lock : Flock) : Go (bool * option string) :=
  fun w =>
    let path := flock_path lock in
    match flock_error (faults w) with
    | Some e => Ok (false, Some e) (add_call (CallTryLock path false (Some e)) w)
    | None =>
        if bool_decide (path ∈ flocks w)
        then Ok (false, None) (add_call (CallTryLock path false None) w)
        else Ok (true, None)
                (add_call (CallTryLock path true None)
                   (set_flocks (fun l => {[path]} ∪ l) w))
    end.

(** [lock.Unlock()] *)
Definition Unlock (lock : Flock) (w : World) : World :=
  let path := flock_path lock in
  add_call (CallUnlock path) (set_flocks (fun l => l ∖ {[path]}) w).

(** [os.Remove(path)]: an error when nothing is at [path], or when the
    environment refuses; otherwise the file is gone. *)
Definition Remove (path : string) : Go (option string) :=
  fun w =>
    if bool_decide (path ∈ files w)
    then match remove_error (faults w) with
         | Some e => Ok (Some e) (add_call (CallRemove path (Some e)) w)
         | None => Ok None (add_call (CallRemove path None)
                              (set_files (fun f => f ∖ {[path]}) w))
         end
    else let e := "remove " +:+ path +:+ ": no such file or directory" in
         Ok (Some e) (add_call (CallRemove path (Some e)) w).

(** A socket name that is no path: the empty name, which the kernel binds
    to an address of its own choice, and a name that starts with [@], which
    stands for an address in the abstract name space. Binding such a name
    makes no file. *)
Definition abstract_name (name : string) : bool :=
  match name with
  | EmptyString => true
  | String c _ => Ascii.eqb c "@"
  end.

(** [net.ListenUnix(network, addr)]: binding a path creates the socket
    file, and fails when something is already at the path; binding an
    abstract name touches no file. *)
Definition ListenUnix (network : string) (addr : UnixAddr)
  : Go (UnixListener + string) :=
  fun w =>
    let path := unix_name addr in
    if negb (abstract_name path) && bool_decide (path ∈ files w)
    then Ok (inr ("listen " +:+ network +:+ " " +:+ path +:+
                  ": bind: address already in use"))
            (add_call (CallListenUnix path false) w)
    else match listen_unix_error (faults w) with
         | Some e => Ok (inr e) (add_call (CallListenUnix path false) w)
         | None => Ok (inl (mkUnixListener path))
                     (add_call (CallListenUnix path true)
                        (if abstract_name path then w
                         else set_files (fun f => {[path]} ∪ f) w))
         end.

(** [listener.Close()] on a listener that [net.ListenUnix] made: the socket
    file of a path is unlinked and the listener is closed. *)
Definition CloseListener (l : UnixListener) (w : World) : World :=
  let path := ul_path l in
  add_call (CallCloseListener path)
    (if abstract_name path then w
     else set_files (fun f => f ∖ {[path]}) w).

(** [os.Chmod(path, mode)] *)
Definition Chmod (path : string) (mode : Z) : Go (option string) :=
  fun w =>
    if bool_decide (path ∈ files w)
    then match chmod_error (faults w) with
         | Some e => Ok (Some e) (add_call (CallChmod path mode false) w)
         | None => Ok None (add_call (CallChmod path mode true) w)
         end
    else Ok (Some ("chmod " +:+ path +:+ ": no such file or directory"))
            (add_call (CallChmod path mode false) w).

(** [make(chan struct{})] *)
Definition make_chan : Go DoneChan :=
  fun w => Ok (mkDoneChan (next_chan w)) (bump_chan w).

(** ** networking.go: set-up

    Panic and log messages are built by concatenation; what [%v] and [%q]
    print is not modelled beyond [String()]. *)

Module Net.

(** The body of the goroutine of [startStatsdUDP] (lines 34-52): it ends
    reading from its socket, or with a panic that the deferred function
    recovers and hands to [ConsumePanic]. *)
Inductive WorkerEnd :=
| ReadMetricSocket (sock : Socket)
| ReadSSFPacketSocket (sock : Socket)
| ConsumePanic (hostname : string) (recovered : string).

Definition statsdUDPWorker (s : Server) (addr : UDPAddr) : Go WorkerEnd :=
  let* r := NewSocket addr (RcvbufBytes s) (negb (numReaders s =? 1)%Z) in
  match r with
  | inr err =>
      ret (ConsumePanic (Hostname s)
             ("couldn't listen on UDP socket " +:+ addr_String (AddrUDP addr)
              +:+ ": " +:+ err))
  | inl sock =>
      logInfo [("address", addr_String (AddrUDP addr))]
        "Listening for statsd metrics on UDP socket" ;;
      ret (ReadMetricSocket sock)
  end.

(** The body of the goroutine of [startSSFUDP] (lines 124-129). *)
Definition ssfUDPWorker (listener : Socket) : Go WorkerEnd :=
  ret (ReadSSFPacketSocket listener).

(** What a UDP reader goroutine runs. *)
Definition body (g : Goroutine) : option (Go WorkerEnd) :=
  match g with
  | StatsdUDPReader s addr => Some (statsdUDPWorker s addr)
  | SSFUDPReader sock => Some (ssfUDPWorker sock)
  | _ => None
  end.

Definition startStatsdUDP (s : Server) (addr : UDPAddr) : Go unit :=
  for_range (numReaders s) (go (StatsdUDPReader s addr)).

Definition startStatsdTCP (s : Server) (addr : TCPAddr) : Go unit :=
  let* r := ListenTCP addr in
  match r with
  | inr err =>
      panic ("couldn't listen on TCP socket " +:+ addr_String (AddrTCP addr)
             +:+ ": " +:+ err)
  | inl listener =>
      (* The closure of line 65 captures the variable [listener] and reads
         it once [s.shutdown] is closed, after line 78 has run: it closes
         the listener the variable holds then. *)
      let mode := "unencrypted" in
      let '(listener, mode) :=
        match tlsConfig s with
        | Some cfg =>
            (TLSListener listener cfg,
             if decide (ClientAuth cfg = RequireAndVerifyClientCert)
             then "authenticated" else "encrypted")
        | None => (listener, mode)
        end in
      go (TCPCloser listener) ;;
      logInfo [("address", addr_String (AddrTCP addr)); ("mode", mode)]
        "Listening for statsd metrics on TCP socket" ;;
      go (TCPAcceptor listener)
  end.

Definition StartStatsd (s : Server) (a : Addr) : Go unit :=
  match a with
  | AddrUDP addr => startStatsdUDP s addr
  | AddrTCP addr => startStatsdTCP s addr
  | _ => panic ("Can't listen on " +:+ addr_String a +:+
                ": only TCP and UDP are supported")
  end.

Definition startSSFUDP (s : Server) (addr : UDPAddr) : Go unit :=
  let* r := NewSocket addr (RcvbufBytes s) (1 <? numReaders s)%Z in
  match r with
  | inr err =>
      panic ("couldn't listen on UDP socket " +:+ addr_String (AddrUDP addr)
             +:+ ": " +:+ err)
  | inl listener => go (SSFUDPReader listener)
  end.

Definition startSSFUnix (s : Server) (addr : UnixAddr) : Go DoneChan :=
  let* done := make_chan in
  if negb (String.eqb (addr_Network (AddrUnix addr)) "unix")
  then panic ("Can't listen for SSF on " +:+ addr_String (AddrUnix addr) +:+
              ": only udp:// and unix:// addresses are supported")
  else
    let lockname := addr_String (AddrUnix addr) +:+ ".lock" in
    let lock := NewFlock lockname in
    let* r := TryLock lock in
    let '(locked, err) := r in
    match err with
    | Some e =>
        panic ("Could not acquire the lock " +:+ lockname +:+ " to listen on "
               +:+ addr_String (AddrUnix addr) +:+ ": " +:+ e)
    | None =>
        if negb locked
        then panic ("Lock file " +:+ lockname +:+ " for " +:+
                    addr_String (AddrUnix addr) +:+
                    " is in use by another process already")
        else
          let* _ := Remove (addr_String (AddrUnix addr)) in
          let* r := ListenUnix (addr_Network (AddrUnix addr)) addr in
          match r with
          | inr e =>
              panic ("Couldn't listen on UNIX socket " +:+
                     addr_String (AddrUnix addr) +:+ ": " +:+ e)
          | inl listener =>
              let* err := Chmod (addr_String (AddrUnix addr)) 438 in
              match err with
              | Some e =>
                  panic ("Couldn't set permissions on " +:+
                         addr_String (AddrUnix addr) +:+ ": " +:+ e)
              | None =>
                  go (SSFUnixServer lock listener done) ;;
                  ret done
              end
          end
    end.

Definition StartSSF (s : Server) (a : Addr) : Go unit :=
  match a with
  | AddrUDP addr => startSSFUDP s addr
  | AddrUnix addr => startSSFUnix s addr ;; ret tt
  | _ => panic ("Can't listen for SSF on " +:+ addr_String a +:+
                ": only udp:// & unix:// are supported")
  end ;;
  logInfo [("address", addr_String a); ("network", addr_Network a)]
    "Listening for SSF traces".

End Net.

(** ** networking.go: the goroutines of [startSSFUnix] (lines 164-195)

    The outer goroutine (the dispatch task) starts the inner one (the
    accept-relay task) and then selects between a relayed connection and the
    shutdown channel. The two run interleaved; what the environment does
    (a connection arrives, accept fails, the server closes [s.shutdown]) and
    which task moves next is an [Action]. *)
Module UnixLoop.

Record Conn := mkConn { conn_id : nat }.

(** Where the accept-relay task is: blocked in [AcceptUnix], blocked in
    [conns <- conn], before each of the two deferred calls, or gone. *)
Inductive RelayPC :=
| Accepting
| Sending (c : Conn)
| DeferUnlock
| DeferClose
| Returned.

(** Where the dispatch task is: in its [select], or returned. *)
Inductive DispatchPC :=
| Selecting
| DispatchReturned.

Record Sys := mkSys {
  os : World;
  lock : Flock;
  listener : UnixListener;
  done : DoneChan;
  relay : RelayPC;
  dispatch : DispatchPC;
  shutdown_closed : bool;
  listener_closed : bool;
  readers : list Conn;
  exited : option Z;
}.

Inductive Action :=
| CloseShutdown
| AcceptConn (c : Conn)
| AcceptFails (err : string)
| HandOver
| ObserveShutdown
| RunUnlock
| RunCloseDone.

Definition with_os (f : World -> World) (st : Sys) : Sys :=
  {| os := f (os st); lock := lock st; listener := listener st;
     done := done st; relay := relay st; dispatch := dispatch st;
     shutdown_closed := shutdown_closed st;
     listener_closed := listener_closed st; readers := readers st;
     exited := exited st |}.

Definition with_relay (pc : RelayPC) (st : Sys) : Sys :=
  {| os := os st; lock := lock st; listener := listener st;
     done := done st; relay := pc; dispatch := dispatch st;
     shutdown_closed := shutdown_closed st;
     listener_closed := listener_closed st; readers := readers st;
     exited := exited st |}.

(** The state right after [startSSFUnix] returned. *)
Definition start (w : World) (g : Goroutine) : option Sys :=
  match g with
  | SSFUnixServer lock l done =>
      Some {| os := w; lock := lock; listener := l; done := done;
              relay := Accepting; dispatch := Selecting;
              shutdown_closed := false; listener_closed := false;
              readers := []; exited := None |}
  | _ => None
  end.

(** One move. [None]: the move is not possible in this state. After
    [os.Exit] nothing moves. *)
Definition step (a : Action) (st : Sys) : option Sys :=
  match exited st with
  | Some _ => None
  | None =>
      match a with
      | CloseShutdown =>
          (* close(s.shutdown), by the server, once *)
          if shutdown_closed st then None
          else Some {| os := os st; lock := lock st; listener := listener st;
                       done := done st; relay := relay st;
                       dispatch := dispatch st; shutdown_closed := true;
                       listener_closed := listener_closed st;
                       readers := readers st; exited := None |}
      | AcceptConn c =>
          (* conn, err := listener.AcceptUnix() with err == nil *)
          match relay st with
          | Accepting =>
              if listener_closed st then None
              else Some (with_relay (Sending c) st)
          | _ => None
          end
      | AcceptFails err =>
          (* err != nil: select on s.shutdown with a default *)
          match relay st with
          | Accepting =>
              if shutdown_closed st
              then Some (with_relay DeferUnlock
                           (with_os (add_log
                              (mkLog Info [("error", err)]
                                 "Ignoring Accept error while shutting down"))
                              st))
              else Some {| os := add_log (mkLog Fatal [("error", err)]
                                            "Unix accept failed") (os st);
                           lock := lock st; listener := listener st;
                           done := done st; relay := relay st;
                           dispatch := dispatch st;
                           shutdown_closed := shutdown_closed st;
                           listener_closed := listener_closed st;
                           readers := readers st; exited := Some 1%Z |}
          | _ => None
          end
      | HandOver =>
          (* conns <- conn meets case conn := <-conns *)
          match relay st, dispatch st with
          | Sending c, Selecting =>
              Some {| os := os st; lock := lock st; listener := listener st;
                      done := done st; relay := Accepting;
                      dispatch := Selecting;
                      shutdown_closed := shutdown_closed st;
                      listener_closed := listener_closed st;
                      readers := readers st ++ [c]; exited := None |}
          | _, _ => None
          end
      | ObserveShutdown =>
          (* case <-s.shutdown: listener.Close(); return *)
          match dispatch st with
          | Selecting =>
              if shutdown_closed st
              then Some {| os := CloseListener (listener st) (os st);
                           lock := lock st; listener := listener st;
                           done := done st; relay := relay st;
                           dispatch := DispatchReturned;
                           shutdown_closed := true; listener_closed := true;
                           readers := readers st; exited := None |}
              else None
          | DispatchReturned => None
          end
      | RunUnlock =>
          (* deferred: lock.Unlock() *)
          match relay st with
          | DeferUnlock =>
              Some (with_relay DeferClose (with_os (Unlock (lock st)) st))
          | _ => None
          end
      | RunCloseDone =>
          (* deferred: close(done) *)
          match relay st with
          | DeferClose =>
              Some (with_relay Returned
                      (with_os (add_call (CallCloseDone (done st))) st))
          | _ => None
          end
      end
  end.

Fixpoint exec (acts : list Action) (st : Sys) : option Sys :=
  match acts with
  | [] => Some st
  | a :: rest =>
      match step a st with
      | Some st' => exec rest st'
      | None => None
      end
  end.

End UnixLoop.

(** ** Reading the call log *)

Definition is_unlock (path : string) (c : Call) : bool :=
  match c with
  | CallUnlock p => String.eqb p path
  | _ => false
  end.

Definition is_close_done (d : DoneChan) (c : Call) : bool :=
  match c with
  | CallCloseDone d' => bool_decide (d' = d)
  | _ => false
  end.

Definition is_acquire (path : string) (c : Call) : bool :=
  match c with
  | CallTryLock p true None => String.eqb p path
  | _ => false
  end.

Fixpoint count_calls (p : Call -> bool) (l : list Call) : nat :=
  match l with
  | [] => 0
  | c :: l' => (if p c then 1 else 0) + count_calls p l'
  end.

(** How often [lock.Unlock()] ran on [path], how often [close(done)] ran,
    and whether [TryLock] took the lock. *)
Definition unlocks (path : string) (l : list Call) : nat :=
  count_calls (is_unlock path) l.

Definition done_closes (d : DoneChan) (l : list Call) : nat :=
  count_calls (is_close_done d) l.

Definition acquired (path : string) (l : list Call) : Prop :=
  0 < count_calls (is_acquire path) l.

(** [a] happens before [b]. *)
Definition before (a b : Call) (l : list Call) : Prop :=
  exists pre mid post, l = pre ++ a :: mid ++ b :: post.

(** The calls made from world [w0] to world [w]. *)
Definition since (w0 w : World) : list Call :=
  drop (length (calls w0)) (calls w).

Definition result_world {A} (r : Result A) : World :=
  match r with
  | Ok _ w => w
  | Panic _ w => w
  end.

(** The lock file of a socket path: [fmt.Sprintf("%s.lock", addr.String())]. *)
Definition lockname (addr : UnixAddr) : string :=
  addr_String (AddrUnix addr) +:+ ".lock".

(** The transport kind of an address. *)
Definition is_udp (a : Addr) : bool :=
  match a with AddrUDP _ => true | _ => false end.
Definition is_tcp (a : Addr) : bool :=
  match a with AddrTCP _ => true | _ => false end.
Definition is_unix (a : Addr) : bool :=
  match a with AddrUnix _ => true | _ => false end.

(** ** Bytes and strings *)

Definition LF : ascii := "010"%char.
Definition CR : ascii := "013"%char.
Definition SP : ascii := " "%char.
Definition QUOTE : ascii := "034"%char.

Definition byte (c : ascii) : Z := Z.of_N (N_of_ascii c).

(** [bytes.IndexByte(s, c) >= 0] *)
Fixpoint hasByte (c : ascii) (s : string) : bool :=
  match s with
  | EmptyString => false
  | String a s' => Ascii.eqb a c || hasByte c s'
  end.

(** [i := bytes.IndexByte(s, c)] with the two slices [s[:i]] and [s[i+1:]]
    when [i >= 0]. *)
Fixpoint cut (c : ascii) (s : string) : option (string * string) :=
  match s with
  | EmptyString => None
  | String a s' =>
      if Ascii.eqb a c then Some (EmptyString, s')
      else match cut c s' with
           | Some (p, q) => Some (String a p, q)
           | None => None
           end
  end.

(** [s[:len(s)-lengthNL(s)]]: [s] without its final newline, if it has one. *)
Fixpoint trimNL (s : string) : string :=
  match s with
  | EmptyString => EmptyString
  | String a EmptyString => if Ascii.eqb a LF then EmptyString else s
  | String a s' => String a (trimNL s')
  end.

(** [strings.Join(fields, sep)] with a one-byte separator. *)
Fixpoint join (sep : ascii) (fields : list string) : string :=
  match fields with
  | [] => EmptyString
  | [f] => f
  | f :: rest => f +:+ String sep (join sep rest)
  end.

(** ** Go's [strconv.ParseInt] for an explicit base

    After [strconv/atoi.go]. Base 0 (the base taken from a prefix, with
    underscores allowed) is not modelled: it answers [ErrBase]. *)
Module Strconv.

Local Open Scope Z_scope.

Inductive Err := ErrSyntax | ErrRange | ErrBase | ErrBitSize.

(** [*strconv.NumError] *)
Record NumError := mkNumError { Func : string; Num : string; Why : Err }.

Definition maxUint64 : Z := 2 ^ 64 - 1.

(** [uint64] arithmetic wraps. *)
Definition u64 (z : Z) : Z := z mod 2 ^ 64.

(** [int64(u)] for a [uint64] [u], and [-n] on [int64]. *)
Definition i64 (z : Z) : Z := (z + 2 ^ 63) mod 2 ^ 64 - 2 ^ 63.

(** [lower(c) = c | ('x' - 'X')] *)
Definition lower (c : Z) : Z := Z.lor c 32.

(** The digit a byte stands for: the [switch] inside the loop of
    [ParseUint], without the underscore case of base 0. *)
Definition digit (c : ascii) : option Z :=
  let b := byte c in
  if (48 <=? b) && (b <=? 57) then Some (b - 48)
  else if (97 <=? lower b) && (lower b <=? 122) then Some (lower b - 97 + 10)
  else None.

(** The loop of [ParseUint]: the value and the kind of error, if any. *)
Fixpoint parseUintLoop (base cutoff maxVal : Z) (s : string) (n : Z)
  : Z * option Err :=
  match s with
  | EmptyString => (n, None)
  | String c s' =>
      match digit c with
      | None => (0, Some ErrSyntax)
      | Some d =>
          if d >=? base then (0, Some ErrSyntax)
          else if n >=? cutoff then (maxVal, Some ErrRange)
          else
            let n := u64 (n * base) in
            let n1 := u64 (n + d) in
            if (n1 <? n) || (n1 >? maxVal) then (maxVal, Some ErrRange)
            else parseUintLoop base cutoff maxVal s' n1
      end
  end.

Definition ParseUint (s : string) (base bitSize : Z) : Z * option NumError :=
  let fail e := Some (mkNumError "ParseUint" s e) in
  match s with
  | EmptyString => (0, fail ErrSyntax)
  | _ =>
      if negb ((2 <=? base) && (base <=? 36)) then (0, fail ErrBase)
      else if negb ((1 <=? bitSize) && (bitSize <=? 64)) then (0, fail ErrBitSize)
      else
        let cutoff := maxUint64 / base + 1 in
        let maxVal := 2 ^ bitSize - 1 in
        match parseUintLoop base cutoff maxVal s 0 with
        | (n, None) => (n, None)
        | (n, Some e) => (n, fail e)
        end
  end.

Definition ParseInt (s : string) (base bitSize : Z) : Z * option NumError :=
  let fail e := Some (mkNumError "ParseInt" s e) in
  match s with
  | EmptyString => (0, fail ErrSyntax)
  | String c0 s1 =>
      let '(neg, digits) :=
        if Ascii.eqb c0 "+"%char then (false, s1)
        else if Ascii.eqb c0 "-"%char then (true, s1)
        else (false, s) in
      let '(un, err) := ParseUint digits base bitSize in
      let other :=
        match err with
        | Some e => match Why e with ErrRange => None | why => Some why end
        | None => None
        end in
      match other with
      | Some why => (0, fail why)
      | None =>
          let cutoff := 2 ^ (bitSize - 1) in
          if negb neg && (un >=? cutoff) then (cutoff - 1, fail ErrRange)
          else if neg && (un >? cutoff) then (- cutoff, fail ErrRange)
          else
            let n := i64 un in
            (if neg then i64 (- n) else n, None)
      end
  end.

End Strconv.

(** ** Go's [encoding/csv] reader

    After [encoding/csv/reader.go] (Go 1.10 and later), for a reader with
    [Comment], [TrimLeadingSpace] and [LazyQuotes] left at their zero
    values, as [parseSoftnet] leaves them. The [io.Reader] is the bytes it
    yields before [io.EOF]. Line and column numbers of a [ParseError] are
    left out. *)
Module Csv.

Inductive Err :=
| ErrBareQuote
| ErrQuote
| ErrFieldCount
| ErrInvalidDelim
| OutOfFuel.

(** [csv.Reader] *)
Record Reader := mkReader {
  Comma : ascii;
  FieldsPerRecord : Z;
  input : string;
}.

(** [csv.NewReader(r)] *)
Definition NewReader (r : string) : Reader :=
  {| Comma := ","%char; FieldsPerRecord := 0; input := r |}.

Definition set_Comma (c : ascii) (cr : Reader) : Reader :=
  {| Comma := c; FieldsPerRecord := FieldsPerRecord cr; input := input cr |}.

Definition set_FieldsPerRecord (n : Z) (cr : Reader) : Reader :=
  {| Comma := Comma cr; FieldsPerRecord := n; input := input cr |}.

(** [validDelim], for a one-byte delimiter. *)
Definition validDelim (c : ascii) : bool :=
  negb (Ascii.eqb c "000"%char || Ascii.eqb c QUOTE || Ascii.eqb c CR
        || Ascii.eqb c LF).

(** What successive [ReadSlice('\n')] calls return: each line with its
    newline, the last one possibly without. *)
Fixpoint rawLines (s : string) : list string :=
  match s with
  | EmptyString => []
  | String c s' =>
      if Ascii.eqb c LF then String c EmptyString :: rawLines s'
      else match rawLines s' with
           | [] => [String c EmptyString]
           | l :: ls => String c l :: ls
           end
  end.

(** What [readLine] does to a raw line: a carriage return just before the
    end of the input is dropped, and a final "\r\n" becomes "\n". A raw
    line has its newline, if any, at the end only. *)
Fixpoint normLine (l : string) : string :=
  match l with
  | EmptyString => EmptyString
  | String c l' =>
      if Ascii.eqb c CR
      then match l' with
           | EmptyString => EmptyString
           | String c' EmptyString =>
               if Ascii.eqb c' LF then l' else String c (normLine l')
           | _ => String c (normLine l')
           end
      else String c (normLine l')
  end.

(** The lines [readLine] returns, in order. *)
Definition readLines (s : string) : list string := normLine <$> rawLines s.

(** [len(line) == lengthNL(line)] *)
Definition isEmptyLine (line : string) : bool :=
  match line with
  | EmptyString => true
  | String c EmptyString => Ascii.eqb c LF
  | _ => false
  end.

(** The first loop of [readRecord]: empty lines are skipped. *)
Fixpoint skipEmpty (lines : list string) : list string :=
  match lines with
  | [] => []
  | line :: rest => if isEmptyLine line then skipEmpty rest else lines
  end.

(** Where the field loop is: at the start of a field, or inside a quoted
    field whose text so far is [cur]. *)
Inductive Mode :=
| AtField
| InQuotes (cur : string).

(** The loop [parseField] of [readRecord]. [line] is what is left of the
    current line, [rest] the lines not yet read, [dst] the fields so far.
    Gives the record or the error, and the lines still unread. Every turn
    uses up at least one byte of [line] and [rest]. *)
Fixpoint parseField (fuel : nat) (comma : ascii) (m : Mode) (line : string)
    (rest : list string) (dst : list string)
  : (list string + Err) * list string :=
  match fuel with
  | O => (inr OutOfFuel, rest)
  | S fuel =>
      match m with
      | AtField =>
          let quoted :=
            match line with
            | String c line' => if Ascii.eqb c QUOTE then Some line' else None
            | EmptyString => None
            end in
          match quoted with
          | Some line' =>
              (* quoted string field *)
              parseField fuel comma (InQuotes EmptyString) line' rest dst
          | None =>
              (* non-quoted string field *)
              let '(field, next) :=
                match cut comma line with
                | Some (f, l') => (f, Some l')
                | None => (trimNL line, None)
                end in
              if hasByte QUOTE field then (inr ErrBareQuote, rest)
              else
                match next with
                | Some l' =>
                    parseField fuel comma AtField l' rest (dst ++ [field])
                | None => (inl (dst ++ [field]), rest)
                end
          end
      | InQuotes cur =>
          match cut QUOTE line with
          | Some (pre, post) =>
              (* hit next quote *)
              let cur := cur +:+ pre in
              match post with
              | EmptyString => (inl (dst ++ [cur]), rest)
              | String c post' =>
                  if Ascii.eqb c QUOTE
                  then parseField fuel comma
                         (InQuotes (cur +:+ String QUOTE EmptyString))
                         post' rest dst
                  else if Ascii.eqb c comma
                  then parseField fuel comma AtField post' rest (dst ++ [cur])
                  else if isEmptyLine post then (inl (dst ++ [cur]), rest)
                  else (inr ErrQuote, rest)
              end
          | None =>
              match line with
              | String _ _ =>
                  (* hit end of line: copy it and read the next one *)
                  match rest with
                  | next :: rest' =>
                      parseField fuel comma (InQuotes (cur +:+ line))
                        next rest' dst
                  | [] => (inr ErrQuote, [])
                  end
              | EmptyString => (inr ErrQuote, rest)
              end
          end
      end
  end.

(** The bytes still to be looked at. *)
Definition pending (line : string) (rest : list string) : nat :=
  String.length line + sum_list (String.length <$> rest).

(** [readRecord] up to the field-count check: [None] is [io.EOF]. *)
Definition readRecord (comma : ascii) (lines : list string)
  : option ((list string + Err) * list string) :=
  match skipEmpty lines with
  | [] => None
  | line :: rest =>
      Some (parseField (S (pending line rest)) comma AtField line rest [])
  end.

(** The loop of [ReadAll], with the field-count check that ends
    [readRecord]. [fpr] is [r.FieldsPerRecord], which a zero value sets from
    the first record. Every turn uses up at least one line. *)
Fixpoint readAllLoop (fuel : nat) (comma : ascii) (fpr : Z)
    (lines : list string) (records : list (list string))
  : list (list string) + Err :=
  match fuel with
  | O => inr OutOfFuel
  | S fuel =>
      match readRecord comma lines with
      | None => inl records
      | Some (inr e, _) => inr e
      | Some (inl record, rest) =>
          if (0 <? fpr)%Z
          then if bool_decide (Z.of_nat (length record) = fpr)
               then readAllLoop fuel comma fpr rest (records ++ [record])
               else inr ErrFieldCount
          else
            let fpr := if (fpr =? 0)%Z then Z.of_nat (length record)
                       else fpr in
            readAllLoop fuel comma fpr rest (records ++ [record])
      end
  end.

(** [r.ReadAll()]: the records, or [nil] and the first error. *)
Definition ReadAll (cr : Reader) : list (list string) + Err :=
  if negb (validDelim (Comma cr)) then inr ErrInvalidDelim
  else
    let lines := readLines (input cr) in
    readAllLoop (S (length lines)) (Comma cr) (FieldsPerRecord cr) lines [].

End Csv.

(** ** networking.go: the softnet_stat parser *)
Module Softnet.

(** A Go [error] value, as the parser can return one. *)
Inductive error :=
| PathError (msg : string)
| CsvError (e : Csv.Err)
| NumError (e : Strconv.NumError).

(** A call returns, or panics (an index out of range). *)
Inductive Outcome (A : Type) :=
| Returns (a : A)
| Panics (msg : string).
Arguments Returns {A} a.
Arguments Panics {A} msg.

Record SoftnetDataProcessor := mkProcessor {
  Processed : Z;
  Dropped : Z;
  TimeSqueeze : Z;
  CPUCollision : Z;
  ReceivedRPS : Z;
  FlowLimitCount : Z;
}.

Record SoftnetData := mkSoftnetData {
  Processors : list SoftnetDataProcessor;
}.

(** [SoftnetData{}] *)
Definition emptyData : SoftnetData := {| Processors := [] |}.

(** The zero value of [SoftnetDataProcessor]. *)
Definition zeroProcessor : SoftnetDataProcessor := mkProcessor 0 0 0 0 0 0.

(** The loop of [parseSoftnetRecord] from index [i] on. *)
Fixpoint parseSoftnetRecord_from (i : nat) (cs : list string) (r : list Z)
  : list Z * option error :=
  match cs with
  | [] => (r, None)
  | c :: cs' =>
      match Strconv.ParseInt c 16 64 with
      | (_, Some err) => ([], Some (NumError err))
      | (n, None) => parseSoftnetRecord_from (S i) cs' (<[i := n]> r)
      end
  end.

Definition parseSoftnetRecord (processorRecord : list string)
  : list Z * option error :=
  let r := replicate (length processorRecord) 0%Z in
  parseSoftnetRecord_from 0 processorRecord r.

(** The loop of [parseSoftnet] from index [i] on; [fields[k]] panics when
    [k] is out of range. *)
Fixpoint parseSoftnet_from (i : nat) (records : list (list string))
    (sd : SoftnetData) : Outcome (SoftnetData * option error) :=
  match records with
  | [] => Returns (sd, None)
  | processor :: records' =>
      match parseSoftnetRecord processor with
      | (_, Some err) => Returns (emptyData, Some err)
      | (fields, None) =>
          match fields !! 0%nat, fields !! 1%nat, fields !! 2%nat,
                fields !! 8%nat, fields !! 9%nat, fields !! 10%nat with
          | Some f0, Some f1, Some f2, Some f8, Some f9, Some f10 =>
              let sdp :=
                {| Processed := f0; Dropped := f1; TimeSqueeze := f2;
                   CPUCollision := f8; ReceivedRPS := f9;
                   FlowLimitCount := f10 |} in
              parseSoftnet_from (S i) records'
                {| Processors := <[i := sdp]> (Processors sd) |}
          | _, _, _, _, _, _ => Panics "index out of range"
          end
      end
  end.

Definition parseSoftnet (r : string) : Outcome (SoftnetData * option error) :=
  let columns := 11%Z in
  let cr := Csv.NewReader r in
  let cr := Csv.set_Comma SP cr in
  let cr := Csv.set_FieldsPerRecord columns cr in
  match Csv.ReadAll cr with
  | inr err => Returns (emptyData, Some (CsvError err))
  | inl records =>
      let sd :=
        {| Processors := replicate (length records) zeroProcessor |} in
      parseSoftnet_from 0 records sd
  end.

(** [SoftnetStat], given what [os.Open] on /proc/net/softnet_stat answers:
    the bytes of the file, or an error. *)
Definition SoftnetStat (f : string + string)
  : Outcome (SoftnetData * option error) :=
  match f with
  | inr err => Returns (emptyData, Some (PathError err))
  | inl r => parseSoftnet r
  end.

(** *** The input as the design document describes it *)

(** A row of the report as text: its fields with single spaces between
    them, and a newline. *)
Definition row_text (row : list string) : string :=
  join SP row +:+ String LF EmptyString.

Fixpoint report_text (rows : list (list string)) : string :=
  match rows with
  | [] => EmptyString
  | row :: rows' => row_text row +:+ report_text rows'
  end.

(** A field decodes as a base-16 64-bit integer. *)
Definition decodes (field : string) (v : Z) : Prop :=
  Strconv.ParseInt field 16 64 = (v, None).

Definition fails_decoding (field : string) : Prop :=
  exists v e, Strconv.ParseInt field 16 64 = (v, Some e).

(** The record the design document asks for: the values at indices
    0, 1, 2, 8, 9, 10, the five in between dropped. *)
Definition record_of (vals : list Z) : option SoftnetDataProcessor :=
  match vals with
  | [v0; v1; v2; _; _; _; _; _; v8; v9; v10] =>
      Some {| Processed := v0; Dropped := v1; TimeSqueeze := v2;
              CPUCollision := v8; ReceivedRPS := v9; FlowLimitCount := v10 |}
  | _ => None
  end.

(** A field a writer can put between separators as it is: no space, no
    newline, no carriage return, no quote. *)
Definition plain (field : string) : Prop :=
  hasByte SP field = false /\ hasByte LF field = false /\
  hasByte CR field = false /\ hasByte QUOTE field = false.

(** A row that is not a blank line. *)
Definition nonblank (row : list string) : Prop :=
  row <> [] /\ row <> [EmptyString].

(** The value of a string of hexadecimal digits. *)
Definition hexDigit (c : ascii) : option Z :=
  match Strconv.digit c with
  | Some d => if (d <? 16)%Z then Some d else None
  | None => None
  end.

Fixpoint hexValue_from (acc : Z) (s : string) : option Z :=
  match s with
  | EmptyString => Some acc
  | String c s' =>
      match hexDigit c with
      | Some d => hexValue_from (16 * acc + d) s'
      | None => None
      end
  end.

Definition hexValue (s : string) : option Z :=
  match s with
  | EmptyString => None
  | _ => hexValue_from 0 s
  end.

End Softnet.

(** ** Sample configurations *)

Definition world0 : World :=
  {| files := ∅; flocks := ∅; faults := no_faults; next_chan := 0;
     goroutines := []; logs := []; calls := [] |}.

Definition udp0 : UDPAddr := mkUDPAddr "127.0.0.1" 8126.
Definition tcp0 : TCPAddr := mkTCPAddr "127.0.0.1" 8126.
Definition unix0 : UnixAddr := mkUnixAddr "/tmp/ssf.sock" "unix".

Definition server_with (readers : Z) (tls : option TLSConfig) : Server :=
  {| numReaders := readers; RcvbufBytes := 2097152; tlsConfig := tls;
     Hostname := "localhost" |}.

(** A world in which a crashed instance left its socket file behind. *)
Definition world_stale : World := set_files (fun _ => {["/tmp/ssf.sock"]}) world0.



(** A world in which binding a Unix socket is refused. *)
Definition world_nobind : World :=
  {| files := ∅; flocks := ∅;
     faults := {| socket_error := fun _ _ => None; listen_tcp_error := None;
                  flock_error := None; remove_error := None;
                  listen_unix_error := Some "bind: permission denied";
                  chmod_error := None |};
     next_chan := 0; goroutines := []; logs := []; calls := [] |}.

(** ** The ways [startSSFUnix] can end

    [SetupEnds addr w r]: from world [w], set-up on [addr] ends as [r]. One
    constructor for each panic and one for the return, with the calls made
    and what is left behind. *)
Inductive SetupEnds (addr : UnixAddr) (w : World) : Result DoneChan -> Prop :=
| EndsBadNetwork msg w' :
    unix_net addr <> "unix" ->
    calls w' = calls w -> flocks w' = flocks w -> goroutines w' = goroutines w ->
    SetupEnds addr w (Panic msg w')
| EndsLockError msg w' e :
    flock_error (faults w) = Some e ->
    calls w' = calls w ++ [CallTryLock (lockname addr) false (Some e)] ->
    flocks w' = flocks w -> goroutines w' = goroutines w ->
    SetupEnds addr w (Panic msg w')
| EndsLockHeld msg w' :
    lockname addr ∈ flocks w ->
    calls w' = calls w ++ [CallTryLock (lockname addr) false None] ->
    flocks w' = flocks w -> goroutines w' = goroutines w ->
    SetupEnds addr w (Panic msg w')
| EndsBindFails msg w' r :
    lockname addr ∉ flocks w ->
    listen_unix_error (faults w) <> None \/
      (abstract_name (unix_name addr) = false /\
       unix_name addr ∈ files w /\ remove_error (faults w) <> None) ->
    calls w' = calls w ++ [CallTryLock (lockname addr) true None;
                           CallRemove (unix_name addr) r;
                           CallListenUnix (unix_name addr) false] ->
    flocks w' = {[lockname addr]} ∪ flocks w ->
    goroutines w' = goroutines w ->
    (r = None -> unix_name addr ∉ files w') ->
    (r <> None -> files w' = files w) ->
    SetupEnds addr w (Panic msg w')
| EndsChmodFails msg w' r :
    lockname addr ∉ flocks w ->
    chmod_error (faults w) <> None \/
      (abstract_name (unix_name addr) = true /\
       (unix_name addr ∈ files w -> remove_error (faults w) = None)) ->
    calls w' = calls w ++ [CallTryLock (lockname addr) true None;
                           CallRemove (unix_name addr) r;
                           CallListenUnix (unix_name addr) true;
                           CallChmod (unix_name addr) 438 false] ->
    flocks w' = {[lockname addr]} ∪ flocks w ->
    goroutines w' = goroutines w ->
    SetupEnds addr w (Panic msg w')
| EndsListening w' r :
    unix_net addr = "unix" ->
    lockname addr ∉ flocks w ->
    flock_error (faults w) = None ->
    calls w' = calls w ++ [CallTryLock (lockname addr) true None;
                           CallRemove (unix_name addr) r;
                           CallListenUnix (unix_name addr) true;
                           CallChmod (unix_name addr) 438 true] ->
    (r = None <->
     unix_name addr ∈ files w /\ remove_error (faults w) = None) ->
    (if abstract_name (unix_name addr)
     then unix_name addr ∈ files w /\ remove_error (faults w) <> None
     else unix_name addr ∈ files w -> remove_error (faults w) = None) ->
    listen_unix_error (faults w) = None /\ chmod_error (faults w) = None ->
    flocks w' = {[lockname addr]} ∪ flocks w ->
    files w' = {[unix_name addr]} ∪ files w ->
    faults w' = faults w ->
    logs w' = logs w ->
    goroutines w' =
      goroutines w ++ [SSFUnixServer (NewFlock (lockname addr))
                         (mkUnixListener (unix_name addr))
                         (mkDoneChan (next_chan w))] ->
    SetupEnds addr w (Ok (mkDoneChan (next_chan w)) w').

(** What holds of the two goroutines at every moment. [base] is the call
    log when they start, [l] the lock file and [d] the channel [done]. *)
Definition loop_inv (base : list Call) (fl : Faults) (l : string)
    (d : DoneChan) (st : UnixLoop.Sys) : Prop :=
  UnixLoop.lock st = mkFlock l /\
  UnixLoop.done st = d /\
  faults (UnixLoop.os st) = fl /\
  (UnixLoop.exited st <> None ->
   UnixLoop.relay st = UnixLoop.Accepting /\
   UnixLoop.shutdown_closed st = false) /\
  exists new,
    calls (UnixLoop.os st) = base ++ new /\
    match UnixLoop.relay st with
    | UnixLoop.DeferClose =>
        unlocks l new = 1 /\ done_closes d new = 0 /\
        (l ∉ flocks (UnixLoop.os st)) /\
        exists pre mid, new = pre ++ CallUnlock l :: mid
    | UnixLoop.Returned =>
        unlocks l new = 1 /\ done_closes d new = 1 /\
        (l ∉ flocks (UnixLoop.os st)) /\
        before (CallUnlock l) (CallCloseDone d) new
    | _ =>
        unlocks l new = 0 /\ done_closes d new = 0 /\
        l ∈ flocks (UnixLoop.os st)
    end.

(** The number of times the lock has been released, and [done] closed,
    when the accept-relay task is at [pc]. *)
Definition released_at (pc : UnixLoop.RelayPC) : nat :=
  match pc with
  | UnixLoop.DeferClose | UnixLoop.Returned => 1
  | _ => 0
  end.

Definition closed_at (pc : UnixLoop.RelayPC) : nat :=
  match pc with
  | UnixLoop.Returned => 1
  | _ => 0
  end.

(** ** Reading a report the way [parseSoftnet] does *)

(** The reader [parseSoftnet] sets up. *)
Definition softnet_reader (r : string) : Csv.Reader :=
  Csv.set_FieldsPerRecord 11 (Csv.set_Comma SP (Csv.NewReader r)).

(** The rows of an input: the records the same reader splits it into when
    it does not check their number of fields ([FieldsPerRecord] negative).
    Blank lines are not rows; a quoted field is one field. *)
Definition rows_of (r : string) : list (list string) + Csv.Err :=
  Csv.ReadAll
    (Csv.set_FieldsPerRecord (-1) (Csv.set_Comma SP (Csv.NewReader r))).

(** A line end: a newline, or nothing (the last line of an input that does
    not end in a newline). *)
Definition line_end (tail : string) : Prop :=
  tail = String LF EmptyString \/ tail = EmptyString.

(** The field-count check passes on [rows]. *)
Definition count_ok (fpr : Z) (rows : list (list string)) : Prop :=
  fpr <> 0%Z /\
  ((0 < fpr)%Z -> Forall (fun r => Z.of_nat (length r) = fpr) rows).

(** Two rows as the kernel prints them, and their values. *)
Definition sample_row1 : list string :=
  ["1"; "2"; "3"; "0"; "0"; "0"; "0"; "0"; "4"; "5"; "6"].
Definition sample_row2 : list string :=
  ["0000a1b2"; "0000000f"; "00000010"; "00000000"; "00000000"; "00000000";
   "00000000"; "00000000"; "00000001"; "00000002"; "7fffffff"].
Definition sample_vals1 : list Z := [1; 2; 3; 0; 0; 0; 0; 0; 4; 5; 6]%Z.
Definition sample_vals2 : list Z :=
  [41394; 15; 16; 0; 0; 0; 0; 0; 1; 2; 2147483647]%Z.

(** One case split of set-up: on a decision, or on an answer of the
    environment. *)
Ltac split_setup :=
  first
    [ match goal with
      | |- context [bool_decide ?P] => destruct (bool_decide_reflect P)
      end
    | match goal with
      | |- context [match ?x with Some _ => _ | None => _ end] =>
          is_var x; destruct x
      end ].

(** ** Further readings of a run *)

(** A world in which another manager holds the lock of [unix0]. *)
Definition world_locked : World :=
  set_flocks (fun _ => {["/tmp/ssf.sock.lock"]}) world_stale.

(** A world in which sockets cannot be made. *)
Definition world_nosocket : World :=
  {| files := ∅; flocks := ∅;
     faults := {| socket_error := fun _ _ => Some "protocol not available";
                  listen_tcp_error := None; flock_error := None;
                  remove_error := None; listen_unix_error := None;
                  chmod_error := None |};
     next_chan := 0; goroutines := []; logs := []; calls := [] |}.

(** The environment injects no failure into Unix set-up. *)
Definition unix_env_ok (w : World) : Prop :=
  flock_error (faults w) = None /\ remove_error (faults w) = None /\
  listen_unix_error (faults w) = None /\ chmod_error (faults w) = None.

Definition is_close_listener (path : string) (c : Call) : bool :=
  match c with
  | CallCloseListener p => String.eqb p path
  | _ => false
  end.

(** How often [listener.Close()] ran on the listener at [path]. *)
Definition listener_closes (path : string) (l : list Call) : nat :=
  count_calls (is_close_listener path) l.

(** The accept-relay task has left its loop. *)
Definition past_loop (pc : UnixLoop.RelayPC) : bool :=
  match pc with
  | UnixLoop.DeferUnlock | UnixLoop.DeferClose | UnixLoop.Returned => true
  | _ => false
  end.

Definition dispatch_returned (pc : UnixLoop.DispatchPC) : bool :=
  match pc with
  | UnixLoop.DispatchReturned => true
  | UnixLoop.Selecting => false
  end.

(** The connection the accept-relay task holds and has not handed over. *)
Definition pending_conn (pc : UnixLoop.RelayPC) : list UnixLoop.Conn :=
  match pc with
  | UnixLoop.Sending c => [c]
  | _ => []
  end.

(** The connections [AcceptUnix] returned during a run, in order. *)
Fixpoint accepted (acts : list UnixLoop.Action) : list UnixLoop.Conn :=
  match acts with
  | [] => []
  | UnixLoop.AcceptConn c :: rest => c :: accepted rest
  | _ :: rest => accepted rest
  end.

(** Nothing can move. *)
Definition stuck (st : UnixLoop.Sys) : Prop :=
  forall a, UnixLoop.step a st = None.

(** What else holds of the two goroutines at every moment. [w0] is the
    world when they start, [l] the lock file, [p] the socket path. The
    files are those of [w0] until the dispatch task closes the listener,
    which unlinks the socket file of a path. *)
Definition loop_inv2 (w0 : World) (l p : string) (st : UnixLoop.Sys) : Prop :=
  files (UnixLoop.os st) =
    (if dispatch_returned (UnixLoop.dispatch st) && negb (abstract_name p)
     then files w0 ∖ {[p]} else files w0) /\
  (flocks (UnixLoop.os st) = flocks w0 \/
   flocks (UnixLoop.os st) = flocks w0 ∖ {[l]}) /\
  goroutines (UnixLoop.os st) = goroutines w0 /\
  UnixLoop.listener st = mkUnixListener p /\
  UnixLoop.listener_closed st = dispatch_returned (UnixLoop.dispatch st) /\
  (dispatch_returned (UnixLoop.dispatch st) = true ->
   UnixLoop.shutdown_closed st = true) /\
  (past_loop (UnixLoop.relay st) = true ->
   UnixLoop.shutdown_closed st = true) /\
  exists new,
    calls (UnixLoop.os st) = calls w0 ++ new /\
    listener_closes p new =
      (if dispatch_returned (UnixLoop.dispatch st) then 1 else 0).

(** The goroutine [startSSFUnix] starts on [addr] with the channel [d]. *)
Definition unix_server (addr : UnixAddr) (d : DoneChan) : Goroutine :=
  SSFUnixServer (NewFlock (lockname addr)) (mkUnixListener (unix_name addr)) d.

(** From world [w], set-up on [addr] returns and the moves [acts] of its
    goroutines and of the environment lead to [st]. *)
Definition unix_run_to (s : Server) (addr : UnixAddr) (w : World)
    (acts : list UnixLoop.Action) (st : UnixLoop.Sys) : Prop :=
  exists d w' st0,
    Net.startSSFUnix s addr w = Ok d w' /\
    UnixLoop.start w' (unix_server addr d) = Some st0 /\
    UnixLoop.exec acts st0 = Some st.

(** A clean shutdown: the server closes [s.shutdown], the dispatch task
    closes the listener, accept fails, and the deferred calls run. *)
Definition clean_shutdown : list UnixLoop.Action :=
  [UnixLoop.CloseShutdown; UnixLoop.ObserveShutdown;
   UnixLoop.AcceptFails "use of closed network connection";
   UnixLoop.RunUnlock; UnixLoop.RunCloseDone].

(** Two connections are served, then the server shuts down. *)
Definition serve_two : list UnixLoop.Action :=
  [UnixLoop.AcceptConn (UnixLoop.mkConn 1); UnixLoop.HandOver;
   UnixLoop.AcceptConn (UnixLoop.mkConn 2); UnixLoop.HandOver;
   UnixLoop.CloseShutdown; UnixLoop.ObserveShutdown].

(** [TryLock] finds the lock held and set-up panics there. Uses the
    hypotheses on the network, on [flock_error] and on the lock. *)
Ltac refused_by_lock Hnet Hf Hheld :=
  unfold Net.startSSFUnix, bind, make_chan, TryLock, panic, add_call, bump_chan;
  cbn; rewrite Hnet; cbn; rewrite Hf;
  rewrite bool_decide_eq_true_2 by exact Hheld; cbn;
  eexists _, _; split; [reflexivity|]; cbn; repeat split.

(** ** Other ways to write a report *)

(** A line terminator: "\n", or "\r\n". *)
Definition terminator (crlf : bool) : string :=
  if crlf then String CR (String LF EmptyString) else String LF EmptyString.

(** Blank lines, each with its terminator. *)
Fixpoint blank_lines (bs : list bool) : string :=
  match bs with
  | [] => EmptyString
  | b :: bs' => terminator b +:+ blank_lines bs'
  end.

(** A report in which each row has its own terminator and is followed by
    some blank lines. *)
Fixpoint loose_text (rows : list (list string * (bool * list bool))) : string :=
  match rows with
  | [] => EmptyString
  | (row, (b, bs)) :: rest =>
      join SP row +:+ terminator b +:+ blank_lines bs +:+ loose_text rest
  end.

(** The lines the reader gets from it. *)
Definition loose_lines (rows : list (list string * (bool * list bool)))
  : list string :=
  flat_map (fun r => Softnet.row_text (fst r)
                     :: replicate (length (snd (snd r))) (String LF EmptyString))
    rows.

(** Rows with a value at or above 2^63, and a record with a bad third
    field. *)
Definition sample_big : list string := ["7fffffffffffffff"; "8000000000000000"].
Definition sample_bad : list string := ["1"; "2"; "x3"; "zz"].

(** A report written with both line ends and with blank lines, and the
    rows it holds. *)
Definition sample_loose : list (list string * (bool * list bool)) :=
  [(sample_row1, (true, [false; true])); (sample_row2, (false, []))].

(** A report whose second row has two fields that do not decode. *)
Definition sample_bad_report : string :=
  Softnet.row_text sample_row1 +:+
  "1 2 x3 0 0 0 0 0 4 5 zz" +:+ String LF EmptyString +:+
  "1 2 3 0 0 0 0 0 4 5 yy" +:+ String LF EmptyString.

(** [sample_row1] with other values in its five unused fields. *)
Definition sample_row1' : list string :=
  ["1"; "2"; "3"; "a"; "b"; "c"; "d"; "e"; "4"; "5"; "6"].

(** * Properties *)

(** ** UDP fan-out *)

Lemma for_range_go (n : Z) (g : Goroutine) (w : World) :
  for_range n (go g) w =
  Ok tt {| files := files w; flocks := flocks w; faults := faults w;
           next_chan := next_chan w;
           goroutines := goroutines w ++ replicate (Z.to_nat n) g;
           logs := logs w; calls := calls w |}.
Proof.
  unfold for_range. rewrite <- (length_seqZ 0 n).
  generalize (seqZ 0 n) as l. intros l. revert w.
  induction l as [|i l IH]; intros w.
  - destruct w; cbn. rewrite app_nil_r. reflexivity.
  - cbn [foldr]. unfold bind at 1. cbn [go]. rewrite IH.
    cbn. rewrite <- app_assoc. reflexivity.
Qed.

Lemma startStatsdUDP_spawns (s : Server) (addr : UDPAddr) (w : World) :
  exists w',
    Net.startStatsdUDP s addr w = Ok tt w' /\
    goroutines w' =
      goroutines w ++ replicate (Z.to_nat (numReaders s)) (StatsdUDPReader s addr) /\
    calls w' = calls w.
Proof.
  unfold Net.startStatsdUDP. rewrite for_range_go. eexists. split; [reflexivity|].
  split; reflexivity.
Qed.

(** What one worker of [startStatsdUDP] does: a single [NewSocket] call on
    the address, with the reuse flag [numReaders != 1]. *)
Lemma statsdUDPWorker_socket (s : Server) (addr : UDPAddr) (w : World) :
  exists ok,
    calls (result_world (Net.statsdUDPWorker s addr w)) =
      calls w ++ [CallNewSocket addr (RcvbufBytes s)
                    (negb (numReaders s =? 1)%Z) ok] /\
    (forall sock w', Net.statsdUDPWorker s addr w = Ok (Net.ReadMetricSocket sock) w' ->
       sock = mkSocket addr (RcvbufBytes s) (negb (numReaders s =? 1)%Z)).
Proof.
  unfold Net.statsdUDPWorker, bind, NewSocket.
  destruct (socket_error (faults w) addr _) as [e|] eqn:E.
  - exists false. split; [reflexivity|]. intros sock w' H. discriminate H.
  - exists true. split; [reflexivity|]. intros sock w' H. cbn in H.
    injection H as H _. symmetry. exact H.
Qed.

(** [startSSFUDP]: one [NewSocket] call in the caller, with the reuse flag
    [numReaders > 1], and one goroutine on that socket, or a panic. *)
Lemma startSSFUDP_cases (s : Server) (addr : UDPAddr) (w : World) :
  let sock := mkSocket addr (RcvbufBytes s) (1 <? numReaders s)%Z in
  (exists w', Net.startSSFUDP s addr w = Ok tt w' /\
     goroutines w' = goroutines w ++ [SSFUDPReader sock] /\
     calls w' = calls w ++ [CallNewSocket addr (RcvbufBytes s)
                              (1 <? numReaders s)%Z true]) \/
  (exists msg w', Net.startSSFUDP s addr w = Panic msg w' /\
     goroutines w' = goroutines w /\
     socket_error (faults w) addr (1 <? numReaders s)%Z <> None).
Proof.
  intros sock. unfold Net.startSSFUDP, bind, NewSocket.
  destruct (socket_error (faults w) addr _) as [e|] eqn:E.
  - right. eexists _, _. split; [reflexivity|]. split; [reflexivity|]. discriminate.
  - left. eexists. split; [reflexivity|]. split; reflexivity.
Qed.

(** C2. With a worker count [N >= 1], every worker that [startStatsdUDP]
    starts asks [NewSocket] for port reuse exactly when [N > 1], and the
    socket it reads from has reuse enabled exactly when [N > 1].
    [startSSFUDP] makes one [NewSocket] call, asking for port reuse exactly
    when [N > 1]; when the socket can be made, it returns having started a
    reader on a socket on the given address whose reuse is enabled exactly
    when [N > 1], and every reader it starts is on such a socket. *)
Theorem udp_reuse_iff_many_readers (s : Server) (addr : UDPAddr) (w : World) :
  (1 <= numReaders s)%Z ->
  (exists w' workers,
     Net.startStatsdUDP s addr w = Ok tt w' /\
     goroutines w' = goroutines w ++ workers /\
     workers <> [] /\
     forall g, g ∈ workers ->
       exists run, Net.body g = Some run /\
         forall w1,
           (exists ok,
              calls (result_world (run w1)) =
                calls w1 ++ [CallNewSocket addr (RcvbufBytes s)
                               (bool_decide (1 < numReaders s)%Z) ok]) /\
           (forall sock w2, run w1 = Ok (Net.ReadMetricSocket sock) w2 ->
              (sock_reuseport sock = true <-> (1 < numReaders s)%Z))) /\
  (exists ok,
     calls (result_world (Net.startSSFUDP s addr w)) =
       calls w ++ [CallNewSocket addr (RcvbufBytes s)
                     (bool_decide (1 < numReaders s)%Z) ok] /\
     (ok = true <->
      socket_error (faults w) addr (bool_decide (1 < numReaders s)%Z) = None) /\
     (ok = true <-> exists w', Net.startSSFUDP s addr w = Ok tt w')) /\
  (socket_error (faults w) addr (bool_decide (1 < numReaders s)%Z) = None ->
   exists w' sock,
     Net.startSSFUDP s addr w = Ok tt w' /\
     goroutines w' = goroutines w ++ [SSFUDPReader sock] /\
     Net.body (SSFUDPReader sock) = Some (Net.ssfUDPWorker sock) /\
     (forall w1, Net.ssfUDPWorker sock w1
                 = Ok (Net.ReadSSFPacketSocket sock) w1) /\
     sock_addr sock = addr /\
     sock_rcvbuf sock = RcvbufBytes s /\
     (sock_reuseport sock = true <-> (1 < numReaders s)%Z)) /\
  (forall w' sock,
     Net.startSSFUDP s addr w = Ok tt w' ->
     SSFUDPReader sock ∈ drop (length (goroutines w)) (goroutines w') ->
     (sock_reuseport sock = true <-> (1 < numReaders s)%Z)).
Proof.
  intros HN.
  assert (Hflag : negb (numReaders s =? 1)%Z = bool_decide (1 < numReaders s)%Z).
  { destruct (Z.eqb_spec (numReaders s) 1) as [->|Hne]; cbn.
    - symmetry. apply bool_decide_eq_false_2. lia.
    - symmetry. apply bool_decide_eq_true_2. lia. }
  assert (Hflag2 : (1 <? numReaders s)%Z = bool_decide (1 < numReaders s)%Z).
  { destruct (Z.ltb_spec 1 (numReaders s)).
    - symmetry. apply bool_decide_eq_true_2. lia.
    - symmetry. apply bool_decide_eq_false_2. lia. }
  split; [|split; [|split]].
  - destruct (startStatsdUDP_spawns s addr w) as (w' & Hrun & Hgs & _).
    exists w', (replicate (Z.to_nat (numReaders s)) (StatsdUDPReader s addr)).
    split; [exact Hrun|]. split; [exact Hgs|]. split.
    + destruct (Z.to_nat (numReaders s)) eqn:E; [lia|]. discriminate.
    + intros g Hg. apply elem_of_replicate in Hg as [-> _].
      exists (Net.statsdUDPWorker s addr). split; [reflexivity|].
      intros w1. destruct (statsdUDPWorker_socket s addr w1) as (ok & Hcalls & Hsock).
      split.
      * exists ok. rewrite <- Hflag. exact Hcalls.
      * intros sock w2 Hok. rewrite (Hsock _ _ Hok). cbn. rewrite Hflag.
        rewrite bool_decide_eq_true. reflexivity.
  - unfold Net.startSSFUDP, bind, NewSocket. rewrite Hflag2.
    destruct (socket_error (faults w) addr _) as [e|].
    + exists false. split; [reflexivity|].
      split; split; try discriminate. intros [w' H]. discriminate H.
    + exists true. split; [reflexivity|].
      split; split; try reflexivity. intros _. eexists. reflexivity.
  - intros Hok. unfold Net.startSSFUDP, bind, NewSocket. rewrite Hflag2, Hok.
    eexists _, _. split; [reflexivity|]. split; [reflexivity|].
    split; [reflexivity|]. split; [reflexivity|]. split; [reflexivity|].
    split; [reflexivity|]. cbn. apply bool_decide_eq_true.
  - intros w' sock Hrun Hin.
    destruct (startSSFUDP_cases s addr w) as [(w1 & H1 & Hgs & _)|(msg & w1 & H1 & _)];
      rewrite H1 in Hrun; [|discriminate].
    injection Hrun as <-. rewrite Hgs, drop_app_length in Hin.
    apply list_elem_of_singleton in Hin. injection Hin as ->. cbn.
    rewrite Z.ltb_lt. reflexivity.
Qed.

Lemma udp_reuse_iff_many_readers_witness :
  (1 <= numReaders (server_with 4 None))%Z /\
  exists w' sock,
    Net.startSSFUDP (server_with 4 None) udp0 world0 = Ok tt w' /\
    goroutines w' = goroutines world0 ++ [SSFUDPReader sock] /\
    sock_reuseport sock = true.
Proof.
  assert (H : (1 <= numReaders (server_with 4 None))%Z) by (cbn; lia).
  split; [exact H|].
  destruct (proj1 (proj2 (proj2 (udp_reuse_iff_many_readers
                                   (server_with 4 None) udp0 world0 H)))
              eq_refl)
    as (w' & sock & Hrun & Hgs & _ & _ & _ & _ & Hreuse).
  exists w', sock. split; [exact Hrun|]. split; [exact Hgs|].
  apply Hreuse. cbn. lia.
Defined.

(** C3. With two readers configured, [startStatsdUDP] starts two workers,
    each of which constructs its own socket, and [startSSFUDP] starts one
    worker on the one socket it constructed itself: on the trace intake the
    number of workers is not the configured [N]. *)
Theorem ssf_udp_single_worker :
  numReaders (server_with 2 None) = 2%Z /\
  match Net.startStatsdUDP (server_with 2 None) udp0 world0 with
  | Ok _ w' =>
      goroutines w' = [StatsdUDPReader (server_with 2 None) udp0;
                       StatsdUDPReader (server_with 2 None) udp0] /\
      calls w' = []
  | Panic _ _ => False
  end /\
  match Net.startSSFUDP (server_with 2 None) udp0 world0 with
  | Ok _ w' =>
      goroutines w' = [SSFUDPReader (mkSocket udp0 2097152 true)] /\
      calls w' = [CallNewSocket udp0 2097152 true true]
  | Panic _ _ => False
  end.
Proof. repeat split. Qed.

(** What the two UDP set-up routines start. [startStatsdUDP] starts exactly
    [N] workers (none when [N <= 0]) and constructs no socket itself; each
    worker makes one [NewSocket] call of its own on the given address.
    [startSSFUDP] makes one [NewSocket] call itself and, when that succeeds,
    starts exactly one worker on that socket, whatever [N] is; when it fails
    it panics and starts none. *)
Lemma udp_workers_spawned (s : Server) (addr : UDPAddr) (w : World) :
  (exists w',
     Net.startStatsdUDP s addr w = Ok tt w' /\
     goroutines w' =
       goroutines w ++
       replicate (Z.to_nat (numReaders s)) (StatsdUDPReader s addr) /\
     length (drop (length (goroutines w)) (goroutines w')) =
       Z.to_nat (numReaders s) /\
     calls w' = calls w /\
     Net.body (StatsdUDPReader s addr) = Some (Net.statsdUDPWorker s addr) /\
     forall w1, exists reuse ok,
       calls (result_world (Net.statsdUDPWorker s addr w1)) =
         calls w1 ++ [CallNewSocket addr (RcvbufBytes s) reuse ok]) /\
  ((exists w' sock,
      Net.startSSFUDP s addr w = Ok tt w' /\
      goroutines w' = goroutines w ++ [SSFUDPReader sock] /\
      sock_addr sock = addr /\
      (exists reuse,
         calls w' = calls w ++ [CallNewSocket addr (RcvbufBytes s) reuse true]) /\
      forall w1, calls (result_world (Net.ssfUDPWorker sock w1)) = calls w1) \/
   (exists msg w',
      Net.startSSFUDP s addr w = Panic msg w' /\
      goroutines w' = goroutines w)).
Proof.
  split.
  - destruct (startStatsdUDP_spawns s addr w) as (w' & Hrun & Hgs & Hcalls).
    exists w'. split; [exact Hrun|]. split; [exact Hgs|]. split.
    { rewrite Hgs, drop_app_length, length_replicate. reflexivity. }
    split; [exact Hcalls|]. split; [reflexivity|].
    intros w1. destruct (statsdUDPWorker_socket s addr w1) as (ok & Hc & _).
    eexists _, ok. exact Hc.
  - destruct (startSSFUDP_cases s addr w) as [(w' & H1 & Hgs & Hc)|(msg & w' & H1 & Hgs & _)].
    + left. eexists w', _. split; [exact H1|]. split; [exact Hgs|].
      split; [reflexivity|]. split; [eexists; exact Hc|]. intros w1. reflexivity.
    + right. exists msg, w'. split; [exact H1|exact Hgs].
Qed.

(** ** Dispatch on the kind of address *)

(** C5. An address that is neither UDP nor TCP makes [StartStatsd] panic,
    and one that is neither UDP nor Unix-domain makes [StartSSF] panic; both
    leave the world as it was: nothing is started and nothing is logged. A
    Unix-domain address whose network is not "unix" makes [StartSSF] panic
    too. Neither entry point has an error result. *)
Theorem unsupported_address_panics (s : Server) (a : Addr) (w : World) :
  (is_udp a = false -> is_tcp a = false ->
   exists msg, Net.StartStatsd s a w = Panic msg w) /\
  (is_udp a = false -> is_unix a = false ->
   exists msg, Net.StartSSF s a w = Panic msg w) /\
  (forall u, a = AddrUnix u -> unix_net u <> "unix" ->
   exists msg w', Net.StartSSF s a w = Panic msg w' /\
     goroutines w' = goroutines w /\ calls w' = calls w).
Proof.
  split; [|split].
  - intros Hu Ht. destruct a; try discriminate; eexists; reflexivity.
  - intros Hu Hx. destruct a; try discriminate; eexists; reflexivity.
  - intros u -> Hnet. unfold Net.StartSSF, Net.startSSFUnix, bind, make_chan.
    cbn [addr_Network]. destruct (String.eqb_spec (unix_net u) "unix") as [E|E];
      [contradiction|]. cbn. eexists _, _. split; [reflexivity|]. split; reflexivity.
Qed.

Lemma unsupported_address_panics_witness :
  (exists msg, Net.StartStatsd (server_with 1 None) (AddrUnix unix0) world0
               = Panic msg world0) /\
  (exists msg, Net.StartSSF (server_with 1 None) (AddrTCP tcp0) world0
               = Panic msg world0).
Proof.
  split.
  - exact (proj1 (unsupported_address_panics (server_with 1 None)
                    (AddrUnix unix0) world0) eq_refl eq_refl).
  - exact (proj1 (proj2 (unsupported_address_panics (server_with 1 None)
                           (AddrTCP tcp0) world0)) eq_refl eq_refl).
Defined.

(** ** TCP listener *)

(** C6. When the TCP listener can be bound, [startStatsdTCP] logs one entry,
    whose mode is "unencrypted" exactly when there is no TLS configuration,
    "authenticated" exactly when there is one that requires and verifies a
    client certificate, and "encrypted" exactly when there is one that does
    not; with a TLS configuration the accepting goroutine is given the raw
    listener wrapped in a TLS listener, and without one the raw listener. *)
Theorem tcp_security_mode (s : Server) (addr : TCPAddr) (w : World) :
  listen_tcp_error (faults w) = None ->
  exists w' mode l,
    Net.startStatsdTCP s addr w = Ok tt w' /\
    logs w' = logs w ++
      [mkLog Info [("address", addr_String (AddrTCP addr)); ("mode", mode)]
         "Listening for statsd metrics on TCP socket"] /\
    goroutines w' = goroutines w ++ [TCPCloser l; TCPAcceptor l] /\
    (mode = "unencrypted" <-> tlsConfig s = None) /\
    (mode = "authenticated" <->
       exists cfg, tlsConfig s = Some cfg /\
                   ClientAuth cfg = RequireAndVerifyClientCert) /\
    (mode = "encrypted" <->
       exists cfg, tlsConfig s = Some cfg /\
                   ClientAuth cfg <> RequireAndVerifyClientCert) /\
    (forall cfg, tlsConfig s = Some cfg -> l = TLSListener (TCPListener addr) cfg) /\
    (tlsConfig s = None -> l = TCPListener addr).
Proof.
  intros Hlisten. unfold Net.startStatsdTCP, bind, ListenTCP. rewrite Hlisten.
  destruct (tlsConfig s) as [cfg|] eqn:Etls.
  - destruct (decide (ClientAuth cfg = RequireAndVerifyClientCert)) as [Ha|Ha].
    + eexists _, "authenticated", _. split; [reflexivity|].
      split; [reflexivity|]. split; [cbn; rewrite <- app_assoc; reflexivity|].
      repeat split; try discriminate; eauto.
      * intros (cfg' & [= <-] & Hc). contradiction.
      * intros cfg' [= <-]. reflexivity.
    + eexists _, "encrypted", _. split; [reflexivity|].
      split; [reflexivity|]. split; [cbn; rewrite <- app_assoc; reflexivity|].
      repeat split; try discriminate; eauto.
      * intros (cfg' & [= <-] & Hc). contradiction.
      * intros cfg' [= <-]. reflexivity.
  - eexists _, "unencrypted", _. split; [reflexivity|].
    split; [reflexivity|]. split; [cbn; rewrite <- app_assoc; reflexivity|].
    repeat split; try discriminate; eauto.
    + intros (cfg' & [=] & _).
    + intros (cfg' & [=] & _).
Qed.

Lemma tcp_security_mode_witness :
  listen_tcp_error (faults world0) = None /\
  exists w' l,
    Net.startStatsdTCP
      (server_with 1 (Some (mkTLSConfig RequireAndVerifyClientCert))) tcp0 world0
      = Ok tt w' /\
    logs w' =
      [mkLog Info [("address", "127.0.0.1:8126"); ("mode", "authenticated")]
         "Listening for statsd metrics on TCP socket"] /\
    l = TLSListener (TCPListener tcp0) (mkTLSConfig RequireAndVerifyClientCert).
Proof.
  split; [reflexivity|].
  destruct (tcp_security_mode
              (server_with 1 (Some (mkTLSConfig RequireAndVerifyClientCert)))
              tcp0 world0 eq_refl)
    as (w' & mode & l & Hrun & Hlogs & _ & _ & Hauth & _ & Hl & _).
  exists w', l. split; [exact Hrun|]. split.
  - rewrite Hlogs.
    rewrite (proj2 Hauth (ex_intro _ (mkTLSConfig RequireAndVerifyClientCert)
                            (conj eq_refl eq_refl))).
    reflexivity.
  - exact (Hl _ eq_refl).
Defined.

(** ** Unix listener: set-up *)

Lemma startSSFUnix_ends (s : Server) (addr : UnixAddr) (w : World) :
  SetupEnds addr w (Net.startSSFUnix s addr w).
Proof.
  destruct w as [fs ls [f1 f2 f3 f4 f5 f6] nc gs lg cs].
  unfold Net.startSSFUnix, bind, make_chan, TryLock, Remove, ListenUnix, Chmod,
    go, ret, panic, add_call, set_flocks, set_files, bump_chan, add_goroutine.
  cbn.
  destruct (String.eqb_spec (unix_net addr) "unix") as [Hnet|Hnet]; cbn.
  2: { apply EndsBadNetwork; auto. }
  destruct f3 as [e|].
  { eapply EndsLockError; eauto. }
  destruct (bool_decide_reflect (unix_name addr +:+ ".lock" ∈ ls)) as [Hheld|Hheld].
  { eapply EndsLockHeld; eauto. }
  cbn.
  destruct (abstract_name (unix_name addr)) eqn:Habs; cbn.
  all: repeat (split_setup; cbn in * );
    try (exfalso;
         match goal with
         | H : _ ∉ _ |- _ =>
             apply H; rewrite ?elem_of_union, ?elem_of_singleton; tauto
         | H : _ ∈ _ ∖ _ |- _ =>
             apply elem_of_difference in H as [_ H]; apply H, elem_of_singleton;
               reflexivity
         end).
  all: try (eapply EndsBindFails;
            [ assumption
            | first [ left; discriminate
                    | right; split; [assumption|split; [assumption|discriminate]] ]
            | cbn; rewrite <- ?app_assoc; reflexivity | reflexivity | reflexivity
            | cbn; first [discriminate | intros _; try assumption;
                apply not_elem_of_difference; right; apply elem_of_singleton; reflexivity]
            | cbn; first [reflexivity | intros H; exfalso; apply H; reflexivity] ]).
  all: try (eapply EndsChmodFails;
            [ assumption
            | first [ left; discriminate
                    | right; split; [assumption|first [intros _; reflexivity | intros; contradiction]] ]
            | cbn; rewrite <- ?app_assoc; reflexivity | reflexivity | reflexivity ]).
  all: eapply EndsListening; cbn; rewrite <- ?app_assoc, ?Habs;
    try reflexivity; try assumption; try (split; reflexivity).
  all: try (split; [discriminate|intros [_ H]; discriminate H]).
  all: try (split; [assumption|discriminate]).
  all: try (intros; reflexivity).
  all: try (split; [discriminate|intros [H _]; contradiction]).
  all: try (intros; contradiction).
  all: try tauto.
  all: apply set_eq; intros x;
    rewrite ?elem_of_union, ?elem_of_difference, ?elem_of_singleton;
    destruct (decide (x = unix_name addr)) as [->|]; tauto.
Qed.

(** ** Unix listener: the two goroutines *)

Lemma count_calls_app (p : Call -> bool) (l1 l2 : list Call) :
  count_calls p (l1 ++ l2) = count_calls p l1 + count_calls p l2.
Proof. induction l1 as [|c l1 IH]; cbn; [reflexivity|]. rewrite IH. lia. Qed.

Lemma unlocks_snoc (l : string) (new : list Call) (c : Call) :
  unlocks l (new ++ [c]) = unlocks l new + (if is_unlock l c then 1 else 0).
Proof. unfold unlocks. rewrite count_calls_app. cbn. lia. Qed.

Lemma done_closes_snoc (d : DoneChan) (new : list Call) (c : Call) :
  done_closes d (new ++ [c]) =
  done_closes d new + (if is_close_done d c then 1 else 0).
Proof. unfold done_closes. rewrite count_calls_app. cbn. lia. Qed.

Lemma before_snoc (a b c : Call) (l : list Call) :
  before a b l -> before a b (l ++ [c]).
Proof.
  intros (pre & mid & post & ->). exists pre, mid, (post ++ [c]).
  rewrite <- !app_assoc. cbn. rewrite <- !app_assoc. reflexivity.
Qed.

(** What [listener.Close()] leaves as it is. *)
Lemma CloseListener_frame (l : UnixListener) (w : World) :
  calls (CloseListener l w) = calls w ++ [CallCloseListener (ul_path l)] /\
  flocks (CloseListener l w) = flocks w /\
  faults (CloseListener l w) = faults w /\
  goroutines (CloseListener l w) = goroutines w /\
  logs (CloseListener l w) = logs w /\
  next_chan (CloseListener l w) = next_chan w /\
  files (CloseListener l w) =
    (if abstract_name (ul_path l) then files w else files w ∖ {[ul_path l]}).
Proof.
  unfold CloseListener. destruct (abstract_name (ul_path l)); repeat split.
Qed.

Lemma loop_inv_step base fl l d a st st' :
  loop_inv base fl l d st -> UnixLoop.step a st = Some st' ->
  loop_inv base fl l d st'.
Proof.
  intros (Hl & Hd & Hf & Hex & new & Hcalls & Hpc) Hstep.
  unfold UnixLoop.step in Hstep.
  destruct (UnixLoop.exited st) eqn:Eex; [discriminate|].
  destruct a.
  - (* CloseShutdown *)
    destruct (UnixLoop.shutdown_closed st); [discriminate|].
    injection Hstep as <-. unfold loop_inv; cbn.
    repeat split; try assumption; try congruence. exists new. auto.
  - (* AcceptConn *)
    destruct (UnixLoop.relay st) eqn:Er; try discriminate.
    destruct (UnixLoop.listener_closed st); [discriminate|].
    injection Hstep as <-. unfold loop_inv; cbn.
    repeat split; try assumption; try congruence. exists new. auto.
  - (* AcceptFails *)
    destruct (UnixLoop.relay st) eqn:Er; try discriminate.
    destruct (UnixLoop.shutdown_closed st); injection Hstep as <-;
      unfold loop_inv; cbn; repeat split; try assumption; try congruence;
      exists new; auto.
  - (* HandOver *)
    destruct (UnixLoop.relay st) eqn:Er; try discriminate.
    destruct (UnixLoop.dispatch st); try discriminate.
    injection Hstep as <-. unfold loop_inv; cbn.
    repeat split; try assumption; try congruence. exists new. auto.
  - (* ObserveShutdown *)
    destruct (UnixLoop.dispatch st); try discriminate.
    destruct (UnixLoop.shutdown_closed st); [|discriminate].
    injection Hstep as <-.
    destruct (CloseListener_frame (UnixLoop.listener st) (UnixLoop.os st))
      as (Hc & Hfl & Hfa & _).
    unfold loop_inv; cbn -[CloseListener]. rewrite Hc, Hfl, Hfa.
    repeat split; try assumption; try congruence.
    exists (new ++ [CallCloseListener (ul_path (UnixLoop.listener st))]).
    split; [rewrite Hcalls, app_assoc; reflexivity|].
    rewrite unlocks_snoc, done_closes_snoc. cbn.
    destruct (UnixLoop.relay st); rewrite ?Nat.add_0_r;
      repeat split; try tauto.
    + destruct Hpc as (_ & _ & _ & pre & mid & ->).
      exists pre, (mid ++ [CallCloseListener (ul_path (UnixLoop.listener st))]).
      rewrite <- app_assoc. reflexivity.
    + apply before_snoc. tauto.
  - (* RunUnlock *)
    destruct (UnixLoop.relay st) eqn:Er; try discriminate.
    injection Hstep as <-. unfold loop_inv; cbn.
    repeat split; try assumption; try congruence.
    exists (new ++ [CallUnlock (flock_path (UnixLoop.lock st))]).
    rewrite Hl. cbn.
    split; [rewrite Hcalls, app_assoc; reflexivity|].
    rewrite unlocks_snoc, done_closes_snoc. cbn. rewrite String.eqb_refl.
    destruct Hpc as (-> & -> & _). repeat split.
    + intros [_ Hn]%elem_of_difference. apply Hn, elem_of_singleton. reflexivity.
    + exists new, []. reflexivity.
  - (* RunCloseDone *)
    destruct (UnixLoop.relay st) eqn:Er; try discriminate.
    injection Hstep as <-. unfold loop_inv; cbn.
    repeat split; try assumption; try congruence.
    exists (new ++ [CallCloseDone (UnixLoop.done st)]).
    split; [rewrite Hcalls, app_assoc; reflexivity|].
    rewrite unlocks_snoc, done_closes_snoc. cbn. rewrite Hd.
    rewrite bool_decide_eq_true_2 by reflexivity.
    destruct Hpc as (-> & -> & Hfree & pre & mid & ->). repeat split; [exact Hfree|].
    exists pre, mid, []. rewrite <- app_assoc. reflexivity.
Qed.

Lemma loop_inv_exec base fl l d acts : forall st st',
  loop_inv base fl l d st -> UnixLoop.exec acts st = Some st' ->
  loop_inv base fl l d st'.
Proof.
  induction acts as [|a acts IH]; intros st st' Hinv Hexec; cbn in Hexec.
  - injection Hexec as <-. exact Hinv.
  - destruct (UnixLoop.step a st) as [st1|] eqn:Es; [|discriminate].
    eapply IH; [|exact Hexec]. eapply loop_inv_step; eassumption.
Qed.

Lemma since_app (w w' : World) (l : list Call) :
  calls w' = calls w ++ l -> since w w' = l.
Proof. intros H. unfold since. rewrite H. apply drop_app_length. Qed.

(** The invariant holds when the goroutines start. *)
Lemma loop_inv_start (lock : Flock) (ul : UnixListener) (d : DoneChan) (w : World) :
  flock_path lock ∈ flocks w ->
  exists st0,
    UnixLoop.start w (SSFUnixServer lock ul d) = Some st0 /\
    loop_inv (calls w) (faults w) (flock_path lock) d st0.
Proof.
  intros Hheld. eexists. split; [reflexivity|].
  unfold loop_inv; cbn. destruct lock as [p]. cbn in *.
  repeat split; try congruence.
  exists []. rewrite app_nil_r. repeat split. exact Hheld.
Qed.

(** What set-up and every later state have in common, for a set-up that
    returned. *)
Lemma unix_reachable (s : Server) (addr : UnixAddr) (w : World) d w' :
  Net.startSSFUnix s addr w = Ok d w' ->
  exists g st0 setup,
    goroutines w' = goroutines w ++ [g] /\
    UnixLoop.start w' g = Some st0 /\
    calls w' = calls w ++ setup /\
    acquired (lockname addr) setup /\
    unlocks (lockname addr) setup = 0 /\
    done_closes d setup = 0 /\
    flock_error (faults w') = None /\
    forall acts st,
      UnixLoop.exec acts st0 = Some st ->
      loop_inv (calls w') (faults w') (lockname addr) d st.
Proof.
  intros Hrun. pose proof (startSSFUnix_ends s addr w) as Hends.
  rewrite Hrun in Hends. inversion Hends as [| | | | |w1 r Hnet Hfree Hferr Hcalls Hr Habs Henv Hfl Hfi Hfa Hlg Hgs]; subst.
  destruct (loop_inv_start (NewFlock (lockname addr))
              (mkUnixListener (unix_name addr)) (mkDoneChan (next_chan w)) w')
    as (st0 & Hstart & Hinv).
  { cbn. rewrite Hfl. apply elem_of_union_l, elem_of_singleton. reflexivity. }
  eexists _, st0, _. split; [exact Hgs|]. split; [exact Hstart|].
  split; [exact Hcalls|]. split.
  { unfold acquired. cbn. rewrite String.eqb_refl. lia. }
  split; [reflexivity|]. split; [reflexivity|].
  split; [rewrite Hfa; exact Hferr|].
  intros acts st Hexec. eapply loop_inv_exec; [exact Hinv|exact Hexec].
Qed.

Lemma loop_calls_since (w w' : World) (setup new : list Call) (st : UnixLoop.Sys) :
  calls w' = calls w ++ setup ->
  calls (UnixLoop.os st) = calls w' ++ new ->
  since w (UnixLoop.os st) = setup ++ new.
Proof.
  intros H1 H2. apply since_app. rewrite H2, H1, app_assoc. reflexivity.
Qed.

Lemma before_app_l (a b : Call) (l1 l2 : list Call) :
  before a b l2 -> before a b (l1 ++ l2).
Proof.
  intros (pre & mid & post & ->). exists (l1 ++ pre), mid, post.
  rewrite <- app_assoc. reflexivity.
Qed.




(** Set-up on the world with a stale socket file returns. *)
Lemma setup_on_stale_world :
  exists w',
    Net.startSSFUnix (server_with 1 None) unix0 world_stale
    = Ok (mkDoneChan 0) w'.
Proof. eexists. vm_compute. reflexivity. Qed.

(** C1, as stated, fails where binding fails: the lock was taken,
    [startSSFUnix] panics, and [Unlock] has not been called; the lock is
    still held. *)
Lemma lock_kept_on_bind_failure_counterexample :
  match Net.startSSFUnix (server_with 1 None) unix0 world_nobind with
  | Panic msg w' =>
      count_calls (is_acquire (lockname unix0)) (calls w') = 1 /\
      unlocks (lockname unix0) (calls w') = 0 /\
      bool_decide (lockname unix0 ∈ flocks w') = true
  | Ok _ _ => False
  end.
Proof. vm_compute. repeat split. Qed.

(** C1, amended. Once the lock is taken, [Unlock] is called in one place
    only, the deferred function of the accept-relay task. Where set-up
    panics after taking the lock (binding fails, or setting the permissions
    fails), [Unlock] has not been called and the lock is still held. Where
    set-up returns, [Unlock] has been called exactly once from the moment the
    accept-relay task has run its deferred [Unlock], and not at all before:
    never twice; the lock is held exactly as long as it has not been called.
    The task gets there when accept fails with [s.shutdown] closed. *)
Theorem lock_released_by_relay_only (s : Server) (addr : UnixAddr) (w : World) :
  (forall msg w',
     Net.startSSFUnix s addr w = Panic msg w' ->
     acquired (lockname addr) (since w w') ->
     unlocks (lockname addr) (since w w') = 0 /\ lockname addr ∈ flocks w') /\
  (forall d w',
     Net.startSSFUnix s addr w = Ok d w' ->
     acquired (lockname addr) (since w w') /\
     exists g st0,
       goroutines w' = goroutines w ++ [g] /\
       UnixLoop.start w' g = Some st0 /\
       forall acts st,
         UnixLoop.exec acts st0 = Some st ->
         unlocks (lockname addr) (since w (UnixLoop.os st))
           = released_at (UnixLoop.relay st) /\
         (lockname addr ∈ flocks (UnixLoop.os st) <->
            released_at (UnixLoop.relay st) = 0) /\
         (UnixLoop.relay st = UnixLoop.Accepting ->
          UnixLoop.shutdown_closed st = true ->
          forall err, exists st',
            UnixLoop.exec [UnixLoop.AcceptFails err; UnixLoop.RunUnlock] st
              = Some st' /\
            UnixLoop.relay st' = UnixLoop.DeferClose)).
Proof.
  split.
  - intros msg w' Hrun Hacq.
    pose proof (startSSFUnix_ends s addr w) as Hends. rewrite Hrun in Hends.
    inversion Hends as
      [m1 w1 _ Hcalls _ _
      |m1 w1 e _ Hcalls _ _
      |m1 w1 _ Hcalls _ _
      |m1 w1 r _ _ Hcalls Hfl _ _ _
      |m1 w1 r _ _ Hcalls Hfl _ | ]; subst.
    + rewrite (since_app w w' []) in Hacq by (rewrite app_nil_r; exact Hcalls).
      unfold acquired in Hacq. cbn in Hacq. lia.
    + rewrite (since_app _ _ _ Hcalls) in Hacq. unfold acquired in Hacq.
      cbn in Hacq. lia.
    + rewrite (since_app _ _ _ Hcalls) in Hacq. unfold acquired in Hacq.
      cbn in Hacq. lia.
    + rewrite (since_app _ _ _ Hcalls). split; [reflexivity|].
      rewrite Hfl. apply elem_of_union_l, elem_of_singleton. reflexivity.
    + rewrite (since_app _ _ _ Hcalls). split; [reflexivity|].
      rewrite Hfl. apply elem_of_union_l, elem_of_singleton. reflexivity.
  - intros d w' Hrun.
    destruct (unix_reachable s addr w d w' Hrun)
      as (g & st0 & setup & Hgs & Hstart & Hcalls & Hacq & Hun & _ & _ & Hinv).
    split; [rewrite (since_app _ _ _ Hcalls); exact Hacq|].
    exists g, st0. split; [exact Hgs|]. split; [exact Hstart|].
    intros acts st Hexec.
    destruct (Hinv acts st Hexec) as (Hl & Hd & Hf & Hex & new & Hnew & Hpc).
    rewrite (loop_calls_since w w' setup new st Hcalls Hnew).
    unfold unlocks in *. rewrite count_calls_app, Hun.
    split; [|split].
    + destruct (UnixLoop.relay st); cbn; tauto.
    + destruct (UnixLoop.relay st); cbn; split; intros H; try tauto;
        try discriminate; exfalso; tauto.
    + intros Hpc' Hshut err.
      destruct (UnixLoop.exited st) as [code|] eqn:Eex.
      { destruct Hex as [_ Hfalse]; [congruence|]. congruence. }
      clear -Eex Hpc' Hshut. destruct st; cbn in *; subst. cbn.
      eexists. split; reflexivity.
Qed.

Lemma lock_released_by_relay_only_witness :
  exists w' st,
    Net.startSSFUnix (server_with 1 None) unix0 world_stale
      = Ok (mkDoneChan 0) w' /\
    unlocks (lockname unix0) (since world_stale (UnixLoop.os st)) = 1.
Proof.
  destruct setup_on_stale_world as (w' & Hrun).
  destruct (proj2 (lock_released_by_relay_only (server_with 1 None) unix0
                     world_stale) _ _ Hrun)
    as (_ & g & st0 & _ & Hstart & Hall).
  destruct (UnixLoop.exec
              [UnixLoop.CloseShutdown; UnixLoop.ObserveShutdown;
               UnixLoop.AcceptFails "use of closed network connection";
               UnixLoop.RunUnlock; UnixLoop.RunCloseDone] st0)
    as [st|] eqn:Erun.
  - exists w', st. split; [exact Hrun|].
    destruct (Hall _ _ Erun) as (Hcount & _).
    rewrite Hcount.
    destruct g; try discriminate Hstart. injection Hstart as <-.
    cbn in Erun. injection Erun as <-. reflexivity.
  - exfalso. destruct g; try discriminate Hstart. injection Hstart as <-.
    cbn in Erun. discriminate Erun.
Defined.

(** C4, as stated, fails where accept fails while [s.shutdown] is open: the
    task logs at level Fatal, the process exits, nothing moves any more, and
    [done] has not been closed. *)
Lemma done_open_after_fatal_accept_counterexample :
  match Net.startSSFUnix (server_with 1 None) unix0 world0 with
  | Ok d w' =>
      match UnixLoop.start w' (SSFUnixServer (NewFlock (lockname unix0))
                                 (mkUnixListener (unix_name unix0)) d) with
      | Some st0 =>
          match UnixLoop.exec
                  [UnixLoop.AcceptFails "accept: too many open files"] st0 with
          | Some st =>
              goroutines w' = [SSFUnixServer (NewFlock (lockname unix0))
                                 (mkUnixListener (unix_name unix0)) d] /\
              UnixLoop.exited st = Some 1%Z /\
              done_closes d (calls (UnixLoop.os st)) = 0 /\
              forall a, UnixLoop.step a st = None
          | None => False
          end
      | None => False
      end
  | Panic _ _ => False
  end.
Proof. vm_compute. repeat split. Qed.

(** C4, amended. When [startSSFUnix] returns, [done] is closed at most once,
    and only by the deferred function of the accept-relay task, after its
    [Unlock]: it has been closed exactly once when that task has returned and
    not at all before. When it has been closed, the lock is free and a fresh
    [TryLock] on the lock file takes it. The task returns once accept has
    failed with [s.shutdown] closed; when the process has exited instead,
    [done] is not closed. *)
Theorem done_closed_after_unlock (s : Server) (addr : UnixAddr) (w : World)
    (d : DoneChan) (w' : World) :
  Net.startSSFUnix s addr w = Ok d w' ->
  exists g st0,
    goroutines w' = goroutines w ++ [g] /\
    UnixLoop.start w' g = Some st0 /\
    forall acts st,
      UnixLoop.exec acts st0 = Some st ->
      done_closes d (since w (UnixLoop.os st)) = closed_at (UnixLoop.relay st) /\
      (UnixLoop.relay st = UnixLoop.Returned ->
       before (CallUnlock (lockname addr)) (CallCloseDone d)
         (since w (UnixLoop.os st)) /\
       (lockname addr ∉ flocks (UnixLoop.os st)) /\
       exists w2,
         TryLock (NewFlock (lockname addr)) (UnixLoop.os st)
           = Ok (true, None) w2) /\
      (UnixLoop.relay st = UnixLoop.Accepting ->
       UnixLoop.shutdown_closed st = true ->
       forall err, exists st',
         UnixLoop.exec [UnixLoop.AcceptFails err; UnixLoop.RunUnlock;
                        UnixLoop.RunCloseDone] st = Some st' /\
         UnixLoop.relay st' = UnixLoop.Returned) /\
      (UnixLoop.exited st <> None -> closed_at (UnixLoop.relay st) = 0).
Proof.
  intros Hrun.
  destruct (unix_reachable s addr w d w' Hrun)
    as (g & st0 & setup & Hgs & Hstart & Hcalls & _ & _ & Hcl & Hferr & Hinv).
  exists g, st0. split; [exact Hgs|]. split; [exact Hstart|].
  intros acts st Hexec.
  destruct (Hinv acts st Hexec) as (Hl & Hd & Hf & Hex & new & Hnew & Hpc).
  rewrite (loop_calls_since w w' setup new st Hcalls Hnew).
  split; [|split; [|split]].
  - unfold done_closes in *. rewrite count_calls_app, Hcl.
    destruct (UnixLoop.relay st); cbn; tauto.
  - intros Hret. rewrite Hret in Hpc. destruct Hpc as (_ & _ & Hfree & Hbefore).
    split; [apply before_app_l; exact Hbefore|]. split; [exact Hfree|].
    unfold TryLock. rewrite Hf, Hferr. cbn [flock_path NewFlock].
    rewrite bool_decide_eq_false_2 by exact Hfree. eexists. reflexivity.
  - intros Hpc' Hshut err.
    destruct (UnixLoop.exited st) as [code|] eqn:Eex.
    { destruct Hex as [_ Hfalse]; [congruence|]. congruence. }
    clear -Eex Hpc' Hshut. destruct st; cbn in *; subst. cbn.
    eexists. split; reflexivity.
  - intros Hexit. destruct (Hex Hexit) as [-> _]. reflexivity.
Qed.

Lemma done_closed_after_unlock_witness :
  exists w' st,
    Net.startSSFUnix (server_with 1 None) unix0 world_stale
      = Ok (mkDoneChan 0) w' /\
    UnixLoop.relay st = UnixLoop.Returned /\
    done_closes (mkDoneChan 0) (since world_stale (UnixLoop.os st)) = 1.
Proof.
  destruct setup_on_stale_world as (w' & Hrun).
  destruct (done_closed_after_unlock (server_with 1 None) unix0 world_stale
              _ _ Hrun)
    as (g & st0 & _ & Hstart & Hall).
  destruct (UnixLoop.exec
              [UnixLoop.CloseShutdown; UnixLoop.ObserveShutdown;
               UnixLoop.AcceptFails "use of closed network connection";
               UnixLoop.RunUnlock; UnixLoop.RunCloseDone] st0)
    as [st|] eqn:Erun.
  - exists w', st. split; [exact Hrun|].
    destruct (Hall _ _ Erun) as (Hcount & _).
    assert (Hret : UnixLoop.relay st = UnixLoop.Returned).
    { destruct g; try discriminate Hstart. injection Hstart as <-.
      cbn in Erun. injection Erun as <-. reflexivity. }
    split; [exact Hret|]. exact (eq_trans Hcount (f_equal closed_at Hret)).
  - exfalso. destruct g; try discriminate Hstart. injection Hstart as <-.
    cbn in Erun. discriminate Erun.
Defined.

(** A connection accepted just before the dispatch task takes the shutdown
    branch is never handed over: the accept-relay task stays in its send,
    nothing moves any more, the lock is still held and [done] is open. *)
Lemma relay_blocked_in_send :
  match UnixLoop.start (result_world
                          (Net.startSSFUnix (server_with 1 None) unix0 world0))
          (SSFUnixServer (NewFlock (lockname unix0))
             (mkUnixListener (unix_name unix0)) (mkDoneChan 0)) with
  | Some st0 =>
      match UnixLoop.exec
              [UnixLoop.AcceptConn (UnixLoop.mkConn 0); UnixLoop.CloseShutdown;
               UnixLoop.ObserveShutdown] st0 with
      | Some st =>
          UnixLoop.relay st = UnixLoop.Sending (UnixLoop.mkConn 0) /\
          UnixLoop.exited st = None /\
          unlocks (lockname unix0) (calls (UnixLoop.os st)) = 0 /\
          done_closes (mkDoneChan 0) (calls (UnixLoop.os st)) = 0 /\
          forall a, UnixLoop.step a st = None
      | None => False
      end
  | None => False
  end.
Proof.
  vm_compute. repeat split. intros a. destruct a; reflexivity.
Qed.

(** * The softnet_stat parser *)

(** ** Strings *)

Lemma append_cons (x : ascii) (a b : string) :
  String x a +:+ b = String x (a +:+ b).
Proof. reflexivity. Qed.

Lemma append_nil_l (b : string) : EmptyString +:+ b = b.
Proof. reflexivity. Qed.

Lemma append_assoc (a b c : string) : (a +:+ b) +:+ c = a +:+ (b +:+ c).
Proof.
  induction a as [|x a IH]; [reflexivity|].
  rewrite !append_cons, IH. reflexivity.
Qed.

Lemma append_nil_r (a : string) : a +:+ EmptyString = a.
Proof.
  induction a as [|x a IH]; [reflexivity|]. rewrite append_cons, IH. reflexivity.
Qed.

Lemma length_append (a b : string) :
  String.length (a +:+ b) = String.length a + String.length b.
Proof.
  induction a as [|x a IH]; [reflexivity|]. rewrite append_cons. cbn.
  rewrite IH. reflexivity.
Qed.

Lemma hasByte_append (c : ascii) (a b : string) :
  hasByte c (a +:+ b) = hasByte c a || hasByte c b.
Proof.
  induction a as [|x a IH]; [reflexivity|]. rewrite append_cons. cbn.
  rewrite IH. apply orb_assoc.
Qed.

(** Cutting at the first [c] of [a ++ c :: b] when [a] has no [c]. *)
Lemma cut_append (c : ascii) (a b : string) :
  hasByte c a = false -> cut c (a +:+ String c b) = Some (a, b).
Proof.
  induction a as [|x a IH]; intros H.
  - rewrite append_nil_l. cbn. rewrite Ascii.eqb_refl. reflexivity.
  - cbn in H. apply orb_false_elim in H as [Hx Ha].
    rewrite append_cons. cbn. rewrite Hx, (IH Ha). reflexivity.
Qed.

Lemma cut_none (c : ascii) (a : string) :
  hasByte c a = false -> cut c a = None.
Proof.
  induction a as [|x a IH]; cbn; intros H; [reflexivity|].
  apply orb_false_elim in H as [Hx Ha]. rewrite Hx, (IH Ha). reflexivity.
Qed.

Lemma cut_length (c : ascii) (s p q : string) :
  cut c s = Some (p, q) ->
  String.length s = String.length p + 1 + String.length q.
Proof.
  revert p q. induction s as [|x s IH]; cbn; intros p q H; [discriminate|].
  destruct (Ascii.eqb x c).
  - injection H as <- <-. cbn. lia.
  - destruct (cut c s) as [[p' q']|]; [|discriminate].
    injection H as <- <-. cbn. rewrite (IH p' q' eq_refl). lia.
Qed.

Lemma trimNL_line (a : string) :
  hasByte LF a = false -> trimNL (a +:+ String LF EmptyString) = a.
Proof.
  induction a as [|x a IH]; intros H; [reflexivity|].
  cbn in H. apply orb_false_elim in H as [Hx Ha].
  rewrite append_cons. cbn.
  destruct (a +:+ String LF EmptyString) eqn:E.
  - destruct a; discriminate E.
  - rewrite (IH Ha). reflexivity.
Qed.

Lemma trimNL_plain (a : string) : hasByte LF a = false -> trimNL a = a.
Proof.
  induction a as [|x a IH]; cbn; intros H; [reflexivity|].
  apply orb_false_elim in H as [Hx Ha].
  destruct a as [|y a']; [rewrite Hx; reflexivity|].
  rewrite (IH Ha). reflexivity.
Qed.

(** ** The csv reader on lines without quotes *)

Lemma rawLines_line (l rest : string) :
  hasByte LF l = false ->
  Csv.rawLines (l +:+ String LF rest) =
  (l +:+ String LF EmptyString) :: Csv.rawLines rest.
Proof.
  induction l as [|x l IH]; intros H; [reflexivity|].
  cbn in H. apply orb_false_elim in H as [Hx Hl].
  rewrite append_cons. cbn. rewrite Hx, (IH Hl). reflexivity.
Qed.

Lemma rawLines_last (l : string) :
  hasByte LF l = false -> l <> EmptyString -> Csv.rawLines l = [l].
Proof.
  induction l as [|x l IH]; simpl; intros H Hne; [contradiction|].
  apply orb_false_elim in H as [Hx Hl]. rewrite Hx.
  destruct l as [|y l']; [reflexivity|].
  rewrite (IH Hl) by discriminate. reflexivity.
Qed.

Lemma normLine_plain (l : string) :
  hasByte CR l = false -> Csv.normLine l = l.
Proof.
  induction l as [|x l IH]; simpl; intros H; [reflexivity|].
  apply orb_false_elim in H as [Hx Hl]. rewrite Hx, (IH Hl). reflexivity.
Qed.

Lemma join_cons (f f' : string) (fs : list string) :
  join SP (f :: f' :: fs) = f +:+ String SP (join SP (f' :: fs)).
Proof. reflexivity. Qed.

Lemma hasByte_join (c : ascii) (row : list string) :
  Ascii.eqb SP c = false ->
  Forall (fun f => hasByte c f = false) row ->
  hasByte c (join SP row) = false.
Proof.
  intros Hc Hrow. induction Hrow as [|f fs Hf Hfs IH]; [reflexivity|].
  destruct fs as [|f' fs]; [exact Hf|].
  rewrite join_cons, hasByte_append, Hf. cbn [orb hasByte]. rewrite Hc, IH.
  reflexivity.
Qed.

Lemma parseField_unquoted_last (fuel : nat) (f tail : string)
    (rest dst : list string) :
  Softnet.plain f -> line_end tail ->
  Csv.parseField (S fuel) SP Csv.AtField (f +:+ tail) rest dst
  = (inl (dst ++ [f]), rest).
Proof.
  intros (Hsp & Hlf & Hcr & Hq) Htail. cbn [Csv.parseField].
  assert (Hnq : match f +:+ tail with
                | String c line' => if Ascii.eqb c QUOTE then Some line' else None
                | EmptyString => None
                end = None).
  { destruct f as [|c f'].
    - destruct Htail as [-> | ->]; reflexivity.
    - rewrite append_cons. cbn in Hq. apply orb_false_elim in Hq as [-> _].
      reflexivity. }
  rewrite Hnq.
  assert (Hcut : cut SP (f +:+ tail) = None).
  { apply cut_none. rewrite hasByte_append, Hsp.
    destruct Htail as [-> | ->]; reflexivity. }
  rewrite Hcut.
  assert (Htrim : trimNL (f +:+ tail) = f).
  { destruct Htail as [-> | ->].
    - apply trimNL_line, Hlf.
    - rewrite append_nil_r. apply trimNL_plain, Hlf. }
  rewrite Htrim, Hq. reflexivity.
Qed.

Lemma parseField_unquoted_more (fuel : nat) (f line : string)
    (rest dst : list string) :
  Softnet.plain f ->
  Csv.parseField (S fuel) SP Csv.AtField (f +:+ String SP line) rest dst
  = Csv.parseField fuel SP Csv.AtField line rest (dst ++ [f]).
Proof.
  intros (Hsp & Hlf & Hcr & Hq). cbn [Csv.parseField].
  assert (Hnq : match f +:+ String SP line with
                | String c line' => if Ascii.eqb c QUOTE then Some line' else None
                | EmptyString => None
                end = None).
  { destruct f as [|c f'].
    - reflexivity.
    - rewrite append_cons. cbn in Hq. apply orb_false_elim in Hq as [-> _].
      reflexivity. }
  rewrite Hnq, (cut_append SP f line Hsp), Hq. reflexivity.
Qed.

(** The field loop on a row of plain fields gives the fields back. *)
Lemma parseField_row (fs : list string) : forall (f tail : string)
    (fuel : nat) (rest dst : list string),
  Forall Softnet.plain (f :: fs) -> line_end tail ->
  String.length (join SP (f :: fs) +:+ tail) < fuel ->
  Csv.parseField fuel SP Csv.AtField (join SP (f :: fs) +:+ tail) rest dst
  = (inl (dst ++ f :: fs), rest).
Proof.
  induction fs as [|f' fs IH]; intros f tail fuel rest dst Hplain Htail Hfuel.
  - destruct fuel as [|fuel]; [lia|].
    apply parseField_unquoted_last; [|exact Htail].
    apply Forall_inv in Hplain. exact Hplain.
  - destruct fuel as [|fuel]; [lia|].
    rewrite join_cons, append_assoc, append_cons.
    rewrite parseField_unquoted_more by (apply Forall_inv in Hplain; exact Hplain).
    rewrite IH.
    + rewrite <- app_assoc. reflexivity.
    + apply Forall_inv_tail in Hplain. exact Hplain.
    + exact Htail.
    + rewrite join_cons, append_assoc, append_cons, length_append in Hfuel.
      cbn [String.length] in Hfuel. lia.
Qed.

Lemma plain_join (row : list string) :
  Forall Softnet.plain row ->
  hasByte LF (join SP row) = false /\ hasByte CR (join SP row) = false.
Proof.
  intros Hrow. split; apply hasByte_join; try reflexivity;
    eapply Forall_impl; try exact Hrow; intros f (_ & Hlf & Hcr & _); assumption.
Qed.

Lemma report_text_cons (row : list string) (rows : list (list string)) :
  Softnet.report_text (row :: rows) =
  join SP row +:+ String LF (Softnet.report_text rows).
Proof.
  cbn [Softnet.report_text]. unfold Softnet.row_text.
  rewrite append_assoc. reflexivity.
Qed.

Lemma normLine_row (row : list string) :
  Forall Softnet.plain row ->
  Csv.normLine (Softnet.row_text row) = Softnet.row_text row.
Proof.
  intros Hrow. apply normLine_plain. unfold Softnet.row_text.
  rewrite hasByte_append. destruct (plain_join row Hrow) as [_ ->]. reflexivity.
Qed.

Lemma join_nonblank (row : list string) :
  Softnet.nonblank row -> join SP row <> EmptyString.
Proof.
  intros [Hne Hne1]. destruct row as [|f [|f' fs]].
  - contradiction.
  - cbn. intros ->. contradiction.
  - rewrite join_cons. destruct f; discriminate.
Qed.

(** The lines of a report, and of a report whose last row has no newline. *)
Lemma readLines_report (rows : list (list string)) (last : string) :
  Forall (Forall Softnet.plain) rows ->
  hasByte LF last = false -> hasByte CR last = false ->
  Csv.readLines (Softnet.report_text rows +:+ last) =
  (Softnet.row_text <$> rows) ++
  (if decide (last = EmptyString) then [] else [last]).
Proof.
  intros Hrows Hlf Hcr. unfold Csv.readLines.
  induction Hrows as [|row rows Hrow Hrows IH].
  - cbn [Softnet.report_text fmap list_fmap app]. rewrite append_nil_l.
    destruct (decide (last = EmptyString)) as [->|Hne]; [reflexivity|].
    rewrite rawLines_last by assumption. cbn. rewrite normLine_plain by exact Hcr.
    reflexivity.
  - rewrite report_text_cons, append_assoc, append_cons.
    rewrite rawLines_line by (apply plain_join, Hrow).
    rewrite fmap_cons, IH. cbn [fmap list_fmap app].
    fold (Softnet.row_text row). rewrite normLine_row by exact Hrow.
    reflexivity.
Qed.

Lemma isEmptyLine_nonempty (s tail : string) :
  s <> EmptyString -> hasByte LF s = false -> Csv.isEmptyLine (s +:+ tail) = false.
Proof.
  intros Hne Hlf. destruct s as [|c s]; [contradiction|].
  rewrite append_cons. cbn in Hlf. apply orb_false_elim in Hlf as [Hc _].
  cbn. destruct (s +:+ tail); [exact Hc|reflexivity].
Qed.

(** One record is read from a line that holds a row of plain fields. *)
Lemma readRecord_row (row : list string) (tail : string) (rest : list string) :
  Forall Softnet.plain row -> Softnet.nonblank row -> line_end tail ->
  Csv.readRecord SP ((join SP row +:+ tail) :: rest) = Some (inl row, rest).
Proof.
  intros Hplain Hnb Htail. unfold Csv.readRecord. cbn [Csv.skipEmpty].
  rewrite isEmptyLine_nonempty;
    [|apply join_nonblank, Hnb|apply plain_join, Hplain].
  destruct row as [|f fs]; [destruct Hnb as [Hnb _]; contradiction|].
  rewrite parseField_row; [reflexivity|exact Hplain|exact Htail|].
  unfold Csv.pending. lia.
Qed.

Lemma readAllLoop_rows (rows : list (list string)) : forall (fuel : nat)
    (fpr : Z) (more : list string) (acc : list (list string)),
  Forall (Forall Softnet.plain) rows -> Forall Softnet.nonblank rows ->
  count_ok fpr rows ->
  Csv.readAllLoop (length rows + fuel) SP fpr
    ((Softnet.row_text <$> rows) ++ more) acc
  = Csv.readAllLoop fuel SP fpr more (acc ++ rows).
Proof.
  induction rows as [|row rows IH]; intros fuel fpr more acc Hplain Hnb [Hz Hcount].
  - cbn. rewrite app_nil_r. reflexivity.
  - cbn [length Nat.add fmap list_fmap app Csv.readAllLoop].
    unfold Softnet.row_text at 1.
    rewrite readRecord_row;
      [|apply Forall_inv in Hplain; exact Hplain
       |apply Forall_inv in Hnb; exact Hnb|left; reflexivity].
    assert (Htail : count_ok fpr rows).
    { split; [exact Hz|]. intros Hpos. apply Forall_inv_tail with (a := row).
      exact (Hcount Hpos). }
    destruct (Z.ltb_spec 0 fpr) as [Hpos|Hneg].
    + rewrite bool_decide_eq_true_2
        by (specialize (Hcount Hpos); apply Forall_inv in Hcount; exact Hcount).
      fold (@fmap list _ _ _ Softnet.row_text rows).
      rewrite IH;
        [|apply Forall_inv_tail in Hplain; exact Hplain
         |apply Forall_inv_tail in Hnb; exact Hnb|exact Htail].
      rewrite <- app_assoc. reflexivity.
    + destruct (Z.eqb_spec fpr 0) as [->|_]; [contradiction|].
      fold (@fmap list _ _ _ Softnet.row_text rows).
      rewrite IH;
        [|apply Forall_inv_tail in Hplain; exact Hplain
         |apply Forall_inv_tail in Hnb; exact Hnb|exact Htail].
      rewrite <- app_assoc. reflexivity.
Qed.

(** ** The field-count check, for any input *)

(** With a positive [FieldsPerRecord], [ReadAll] reads what it reads without
    the check, and fails with [ErrFieldCount] when a record has another
    number of fields. *)
Lemma readAllLoop_checked (c : ascii) (n : Z) (fuel : nat) : forall
    (lines : list string) (acc acc' : list (list string)),
  (0 < n)%Z ->
  match Csv.readAllLoop fuel c (-1) lines acc with
  | inl recs =>
      exists new,
        recs = acc ++ new /\
        Csv.readAllLoop fuel c n lines acc' =
          if bool_decide (Forall (fun r => Z.of_nat (length r) = n) new)
          then inl (acc' ++ new) else inr Csv.ErrFieldCount
  | inr e => exists e', Csv.readAllLoop fuel c n lines acc' = inr e'
  end.
Proof.
  induction fuel as [|fuel IH]; intros lines acc acc' Hn.
  - cbn. eexists. reflexivity.
  - cbn [Csv.readAllLoop].
    destruct (Csv.readRecord c lines) as [[[record|e] rest]|].
    + change (0 <? -1)%Z with false. change (-1 =? 0)%Z with false. cbn match.
      destruct (Z.ltb_spec 0 n) as [_|]; [|lia].
      specialize (IH rest (acc ++ [record]) (acc' ++ [record]) Hn).
      destruct (Csv.readAllLoop fuel c (-1) rest (acc ++ [record])) as [recs|e].
      * destruct IH as (new & -> & IH). exists (record :: new).
        split; [rewrite <- app_assoc; reflexivity|].
        destruct (decide (Z.of_nat (length record) = n)) as [Hlen|Hlen].
        -- rewrite (bool_decide_eq_true_2 _ Hlen), IH.
           destruct (decide (Forall (fun r => Z.of_nat (length r) = n) new)) as [Hall|Hall].
           ++ rewrite !bool_decide_eq_true_2 by (try constructor; assumption).
              rewrite <- app_assoc. reflexivity.
           ++ rewrite !bool_decide_eq_false_2; [reflexivity| |exact Hall].
              intros H. apply Forall_inv_tail in H. contradiction.
        -- rewrite (bool_decide_eq_false_2 _ Hlen).
           rewrite bool_decide_eq_false_2; [reflexivity|].
           intros H. apply Forall_inv in H. contradiction.
      * destruct IH as (e' & IH).
        destruct (decide (Z.of_nat (length record) = n)) as [Hlen|Hlen].
        -- rewrite (bool_decide_eq_true_2 _ Hlen), IH. eexists. reflexivity.
        -- rewrite (bool_decide_eq_false_2 _ Hlen). eexists. reflexivity.
    + eexists. reflexivity.
    + exists []. split; [rewrite app_nil_r; reflexivity|].
      rewrite bool_decide_eq_true_2 by constructor. rewrite app_nil_r. reflexivity.
Qed.

Lemma ReadAll_unfold (n : Z) (r : string) :
  Csv.ReadAll (Csv.set_FieldsPerRecord n (Csv.set_Comma SP (Csv.NewReader r)))
  = Csv.readAllLoop (S (length (Csv.readLines r))) SP n (Csv.readLines r) [].
Proof. reflexivity. Qed.

Lemma ReadAll_checked (r : string) :
  match rows_of r with
  | inl rows =>
      Csv.ReadAll (softnet_reader r) =
        if bool_decide (Forall (fun row => length row = 11) rows)
        then inl rows else inr Csv.ErrFieldCount
  | inr e => exists e', Csv.ReadAll (softnet_reader r) = inr e'
  end.
Proof.
  unfold rows_of, softnet_reader. rewrite !ReadAll_unfold.
  pose proof (readAllLoop_checked SP 11 (S (length (Csv.readLines r)))
                (Csv.readLines r) [] [] eq_refl) as H.
  destruct (Csv.readAllLoop _ SP (-1) _ []) as [rows|e].
  - destruct H as (new & -> & H). cbn [app] in *. rewrite H.
    destruct (decide (Forall (fun row => length row = 11) new)) as [Hall|Hall].
    + rewrite !bool_decide_eq_true_2; [reflexivity|exact Hall|].
      eapply Forall_impl; [exact Hall|]. cbn. intros row ->. reflexivity.
    + rewrite !bool_decide_eq_false_2; [reflexivity|exact Hall|].
      intros H'. apply Hall. eapply Forall_impl; [exact H'|]. cbn. lia.
  - exact H.
Qed.

(** The rows of a report that was written row by row. *)
Lemma rows_of_report (rows : list (list string)) :
  Forall (Forall Softnet.plain) rows -> Forall Softnet.nonblank rows ->
  rows_of (Softnet.report_text rows) = inl rows.
Proof.
  intros Hplain Hnb. unfold rows_of. rewrite ReadAll_unfold.
  rewrite <- (append_nil_r (Softnet.report_text rows)).
  rewrite readLines_report by (try reflexivity; exact Hplain).
  cbn [decide]. rewrite decide_True by reflexivity. rewrite app_nil_r.
  rewrite length_fmap.
  rewrite <- (app_nil_r (Softnet.row_text <$> rows)).
  replace (S (length rows)) with (length rows + 1) by lia.
  rewrite readAllLoop_rows; [reflexivity|exact Hplain|exact Hnb|].
  split; [discriminate|]. lia.
Qed.

Lemma rows_of_report_open (rows : list (list string)) (last : list string) :
  Forall (Forall Softnet.plain) rows -> Forall Softnet.nonblank rows ->
  Forall Softnet.plain last -> Softnet.nonblank last ->
  rows_of (Softnet.report_text rows +:+ join SP last) = inl (rows ++ [last]).
Proof.
  intros Hplain Hnb Hlast Hnbl. unfold rows_of. rewrite ReadAll_unfold.
  rewrite readLines_report;
    [|exact Hplain|apply plain_join, Hlast|apply plain_join, Hlast].
  rewrite decide_False by (apply join_nonblank, Hnbl).
  rewrite length_app, length_fmap. cbn [length].
  replace (S (length rows + 1)) with (length rows + 2) by lia.
  rewrite readAllLoop_rows; [|exact Hplain|exact Hnb|split; [discriminate|lia]].
  cbn [Csv.readAllLoop app].
  rewrite <- (append_nil_r (join SP last)).
  rewrite readRecord_row; [|exact Hlast|exact Hnbl|right; reflexivity].
  reflexivity.
Qed.

(** ** Decoding a field *)

Lemma parseUintLoop_range (base cutoff maxVal : Z) (s : string) : forall n v,
  Strconv.parseUintLoop base cutoff maxVal s n = (v, Some Strconv.ErrRange) ->
  v = maxVal.
Proof.
  induction s as [|c s IH]; intros n v H; cbn in H; [discriminate|].
  destruct (Strconv.digit c) as [d|]; [|discriminate].
  destruct (d >=? base)%Z; [discriminate|].
  destruct (n >=? cutoff)%Z; [congruence|].
  destruct (_ || _); [congruence|]. eapply IH, H.
Qed.

Lemma parseUintLoop_digits (base cutoff maxVal : Z) (s : string) : forall n v x,
  Strconv.parseUintLoop base cutoff maxVal s n = (v, None) ->
  Strconv.digit x = None -> hasByte x s = false.
Proof.
  induction s as [|c s IH]; intros n v x H Hx; cbn in H; [reflexivity|].
  destruct (Strconv.digit c) as [d|] eqn:Ed; [|discriminate].
  destruct (d >=? base)%Z; [discriminate|].
  destruct (n >=? cutoff)%Z; [discriminate|].
  destruct (_ || _); [discriminate|].
  cbn. rewrite (IH _ _ _ H Hx), orb_false_r.
  destruct (Ascii.eqb_spec c x) as [->|]; [congruence|reflexivity].
Qed.

(** What [ParseUint] answers, for base 16 and 64 bits. *)
Lemma ParseUint_16_64 (s : string) :
  s <> EmptyString ->
  Strconv.ParseUint s 16 64 =
  match Strconv.parseUintLoop 16 (Strconv.maxUint64 / 16 + 1) (2 ^ 64 - 1) s 0 with
  | (n, None) => (n, None)
  | (n, Some e) => (n, Some (Strconv.mkNumError "ParseUint" s e))
  end.
Proof. destruct s; [contradiction|reflexivity]. Qed.

(** [ParseInt] succeeds only when [ParseUint] does on the digits. *)
Lemma ParseInt_ok_digits (neg : bool) (digits : string) (s : string) (v : Z) :
  (let '(un, err) := Strconv.ParseUint digits 16 64 in
   let other :=
     match err with
     | Some e =>
         match Strconv.Why e with
         | Strconv.ErrRange => None
         | why => Some why
         end
     | None => None
     end in
   match other with
   | Some why => (0%Z, Some (Strconv.mkNumError "ParseInt" s why))
   | None =>
       let cutoff := (2 ^ (64 - 1))%Z in
       if negb neg && (un >=? cutoff)%Z
       then ((cutoff - 1)%Z, Some (Strconv.mkNumError "ParseInt" s Strconv.ErrRange))
       else if neg && (un >? cutoff)%Z
       then ((- cutoff)%Z, Some (Strconv.mkNumError "ParseInt" s Strconv.ErrRange))
       else
         let n := Strconv.i64 un in
         (if neg then Strconv.i64 (- n) else n, None)
   end) = (v, None) ->
  forall x, Strconv.digit x = None -> hasByte x digits = false.
Proof.
  intros H x Hx. destruct digits as [|c digits'] eqn:Edig.
  { reflexivity. }
  rewrite ParseUint_16_64 in H by discriminate.
  destruct (Strconv.parseUintLoop _ _ _ _ _) as [un [e|]] eqn:Eloop.
  - cbn [Strconv.Why] in H. destruct e; try discriminate H.
    apply parseUintLoop_range in Eloop. subst un.
    destruct neg; cbn in H; discriminate H.
  - eapply parseUintLoop_digits; eassumption.
Qed.

Lemma decodes_digits (f : string) (v : Z) (x : ascii) :
  Softnet.decodes f v ->
  Strconv.digit x = None -> Ascii.eqb "+" x = false -> Ascii.eqb "-" x = false ->
  hasByte x f = false.
Proof.
  unfold Softnet.decodes, Strconv.ParseInt. intros H Hx Hplus Hminus.
  destruct f as [|c0 s1]; [discriminate|].
  destruct (Ascii.eqb_spec c0 "+") as [->|Hc1].
  - cbn [hasByte]. rewrite Hplus.
    exact (ParseInt_ok_digits false s1 _ v H x Hx).
  - destruct (Ascii.eqb_spec c0 "-") as [->|Hc2].
    + cbn [hasByte]. rewrite Hminus.
      exact (ParseInt_ok_digits true s1 _ v H x Hx).
    + exact (ParseInt_ok_digits false (String c0 s1) _ v H x Hx).
Qed.

(** A field that decodes has no separator and no quote in it, and is not
    empty. *)
Lemma decodes_plain (f : string) (v : Z) :
  Softnet.decodes f v -> Softnet.plain f /\ f <> EmptyString.
Proof.
  intros H. split.
  - repeat split; eapply decodes_digits; try exact H; reflexivity.
  - intros ->. discriminate H.
Qed.

Lemma decoded_row_plain (row : list string) (vals : list Z) :
  Forall2 Softnet.decodes row vals -> length row = 11 ->
  Forall Softnet.plain row /\ Softnet.nonblank row.
Proof.
  intros H Hlen. split.
  - clear Hlen. induction H as [|f v row vals Hf _ IH]; constructor.
    + apply (decodes_plain f v Hf).
    + apply IH.
  - split; intros ->; discriminate Hlen.
Qed.

(** ** [parseSoftnetRecord] and the loop of [parseSoftnet] *)

Lemma parseSoftnetRecord_from_ok (cs : list string) (vals : list Z) :
  Forall2 Softnet.decodes cs vals ->
  forall done : list Z,
    Softnet.parseSoftnetRecord_from (length done) cs
      (done ++ replicate (length cs) 0%Z)
    = (done ++ vals, None).
Proof.
  induction 1 as [|c v cs vals Hc _ IH]; intros done.
  - cbn. reflexivity.
  - cbn [Softnet.parseSoftnetRecord_from length replicate].
    unfold Softnet.decodes in Hc. rewrite Hc.
    rewrite insert_app_r_alt by lia. rewrite Nat.sub_diag. cbn [insert list_insert].
    specialize (IH (done ++ [v])). rewrite length_app in IH. cbn [length] in IH.
    rewrite Nat.add_1_r in IH. rewrite <- !app_assoc in IH. exact IH.
Qed.

Lemma parseSoftnetRecord_ok (row : list string) (vals : list Z) :
  Forall2 Softnet.decodes row vals ->
  Softnet.parseSoftnetRecord row = (vals, None).
Proof.
  intros H. exact (parseSoftnetRecord_from_ok row vals H []).
Qed.

Lemma parseSoftnetRecord_from_fails (cs : list string) : forall i r,
  Exists Softnet.fails_decoding cs ->
  exists e, Softnet.parseSoftnetRecord_from i cs r = ([], Some (Softnet.NumError e)).
Proof.
  induction cs as [|c cs IH]; intros i r H.
  - inversion H.
  - cbn [Softnet.parseSoftnetRecord_from].
    destruct (Strconv.ParseInt c 16 64) as [n [e|]] eqn:Ec.
    + eexists. reflexivity.
    + apply IH. inversion H as [? ? (v & e & Hf)|]; subst; [congruence|assumption].
Qed.

Lemma decodes_or_fails (f : string) :
  (exists v, Softnet.decodes f v) \/ Softnet.fails_decoding f.
Proof.
  unfold Softnet.decodes, Softnet.fails_decoding.
  destruct (Strconv.ParseInt f 16 64) as [v [e|]]; eauto.
Qed.

Lemma row_decodes_or_fails (row : list string) :
  (exists vals, Forall2 Softnet.decodes row vals) \/
  Exists Softnet.fails_decoding row.
Proof.
  induction row as [|f row IH].
  - left. exists []. constructor.
  - destruct (decodes_or_fails f) as [[v Hv]|Hf]; [|right; left; exact Hf].
    destruct IH as [[vals Hvals]|Hex]; [|right; right; exact Hex].
    left. exists (v :: vals). constructor; assumption.
Qed.

Lemma record_of_11 (vals : list Z) :
  length vals = 11 ->
  exists rec,
    Softnet.record_of vals = Some rec /\
    vals !! 0 = Some (Softnet.Processed rec) /\
    vals !! 1 = Some (Softnet.Dropped rec) /\
    vals !! 2 = Some (Softnet.TimeSqueeze rec) /\
    vals !! 8 = Some (Softnet.CPUCollision rec) /\
    vals !! 9 = Some (Softnet.ReceivedRPS rec) /\
    vals !! 10 = Some (Softnet.FlowLimitCount rec).
Proof.
  intros H. do 11 (destruct vals as [|? vals]; [discriminate H|]).
  destruct vals; [|discriminate H]. eexists. repeat split.
Qed.

(** One turn of the loop of [parseSoftnet] on a record that decodes. *)
Lemma parseSoftnet_from_step (i : nat) (row : list string) (vals : list Z)
    (rec : Softnet.SoftnetDataProcessor) (records : list (list string))
    (sd : Softnet.SoftnetData) :
  Forall2 Softnet.decodes row vals -> Softnet.record_of vals = Some rec ->
  Softnet.parseSoftnet_from i (row :: records) sd =
  Softnet.parseSoftnet_from (S i) records
    {| Softnet.Processors := <[i := rec]> (Softnet.Processors sd) |}.
Proof.
  intros Hdec Hrec. cbn [Softnet.parseSoftnet_from].
  rewrite (parseSoftnetRecord_ok row vals Hdec).
  do 11 (destruct vals as [|? vals]; [discriminate Hrec|]).
  destruct vals; [|discriminate Hrec]. injection Hrec as <-. reflexivity.
Qed.

(** The loop on records that all decode fills the slots in order. *)
Lemma parseSoftnet_from_ok (records : list (list string)) (valss : list (list Z))
    (recs : list Softnet.SoftnetDataProcessor) :
  Forall2 (Forall2 Softnet.decodes) records valss ->
  Forall2 (fun vals rec => Softnet.record_of vals = Some rec) valss recs ->
  forall done : list Softnet.SoftnetDataProcessor,
    Softnet.parseSoftnet_from (length done) records
      {| Softnet.Processors :=
           done ++ replicate (length records) Softnet.zeroProcessor |}
    = Softnet.Returns ({| Softnet.Processors := done ++ recs |}, None).
Proof.
  intros Hdec. revert recs.
  induction Hdec as [|row vals records valss Hrow _ IH]; intros recs Hrecs done.
  - inversion Hrecs; subst. cbn. reflexivity.
  - inversion Hrecs as [|? rec ? recs' Hrec Hrecs']; subst.
    rewrite (parseSoftnet_from_step _ row vals rec) by assumption.
    cbn [Softnet.Processors length replicate].
    rewrite insert_app_r_alt by lia. rewrite Nat.sub_diag. cbn [insert list_insert].
    specialize (IH recs' Hrecs' (done ++ [rec])).
    rewrite length_app in IH. cbn [length] in IH. rewrite Nat.add_1_r in IH.
    rewrite <- !app_assoc in IH. exact IH.
Qed.

(** The loop never panics on records of 11 fields, and an error comes with
    the empty report. *)
Lemma parseSoftnet_from_total (records : list (list string)) : forall i sd,
  Forall (fun row => length row = 11) records ->
  (exists sd', Softnet.parseSoftnet_from i records sd = Softnet.Returns (sd', None) /\
               exists valss, Forall2 (Forall2 Softnet.decodes) records valss) \/
  (exists e, Softnet.parseSoftnet_from i records sd
             = Softnet.Returns (Softnet.emptyData, Some (Softnet.NumError e)) /\
             Exists (Exists Softnet.fails_decoding) records).
Proof.
  induction records as [|row records IH]; intros i sd Hlen.
  - left. exists sd. split; [reflexivity|]. exists []. constructor.
  - pose proof (Forall_inv Hlen) as Hrow. apply Forall_inv_tail in Hlen.
    destruct (row_decodes_or_fails row) as [[vals Hvals]|Hfail].
    + destruct (record_of_11 vals) as (rec & Hrec & _).
      { rewrite <- (Forall2_length _ _ _ Hvals). exact Hrow. }
      rewrite (parseSoftnet_from_step _ row vals rec) by assumption.
      destruct (IH (S i) {| Softnet.Processors := <[i := rec]> (Softnet.Processors sd) |} Hlen)
        as [(sd' & H & valss & Hall)|(e & H & Hex)].
      * left. exists sd'. split; [exact H|]. exists (vals :: valss).
        constructor; assumption.
      * right. exists e. split; [exact H|]. right. exact Hex.
    + right. cbn [Softnet.parseSoftnet_from]. unfold Softnet.parseSoftnetRecord.
      destruct (parseSoftnetRecord_from_fails row 0 (replicate (length row) 0%Z) Hfail)
        as (e & ->).
      exists e. split; [reflexivity|]. left. exact Hfail.
Qed.

Lemma decoded_rows_records (rows : list (list string)) (valss : list (list Z)) :
  Forall2 (Forall2 Softnet.decodes) rows valss ->
  Forall (fun row => length row = 11) rows ->
  exists recs, Forall2 (fun vals rec => Softnet.record_of vals = Some rec) valss recs.
Proof.
  induction 1 as [|row vals rows valss Hrow _ IH]; intros Hlen.
  - exists []. constructor.
  - destruct IH as (recs & Hrecs); [apply Forall_inv_tail in Hlen; exact Hlen|].
    destruct (record_of_11 vals) as (rec & Hrec & _).
    { rewrite <- (Forall2_length _ _ _ Hrow). apply Forall_inv in Hlen. exact Hlen. }
    exists (rec :: recs). constructor; assumption.
Qed.

(** ** The reader's loops always have fuel left *)

Lemma pending_cons (x : ascii) (line : string) (rest : list string) :
  Csv.pending (String x line) rest = S (Csv.pending line rest).
Proof. reflexivity. Qed.

Lemma pending_next (line next : string) (rest : list string) :
  Csv.pending line (next :: rest) = String.length line + Csv.pending next rest.
Proof. unfold Csv.pending. cbn. lia. Qed.

Lemma pending_cut (c : ascii) (line p q : string) (rest : list string) :
  cut c line = Some (p, q) -> Csv.pending q rest < Csv.pending line rest.
Proof.
  intros H. apply cut_length in H. unfold Csv.pending. lia.
Qed.

Lemma parseField_fuel (fuel : nat) : forall (c : ascii) (m : Csv.Mode)
    (line : string) (rest dst : list string),
  Csv.pending line rest < fuel ->
  fst (Csv.parseField fuel c m line rest dst) <> inr Csv.OutOfFuel /\
  length (snd (Csv.parseField fuel c m line rest dst)) <= length rest.
Proof.
  induction fuel as [|fuel IH]; intros c m line rest dst Hfuel; [lia|].
  cbn [Csv.parseField]. destruct m as [|cur].
  - destruct line as [|x line'].
    + cbn. split; [discriminate|lia].
    + destruct (Ascii.eqb x QUOTE) eqn:Ex.
      * apply IH. rewrite pending_cons in Hfuel. lia.
      * destruct (cut c (String x line')) as [[f l']|] eqn:Ecut.
        -- destruct (hasByte QUOTE f); [cbn; split; [discriminate|lia]|].
           apply IH. apply pending_cut with (rest := rest) in Ecut. lia.
        -- destruct (hasByte QUOTE _); cbn; split; try discriminate; lia.
  - destruct (cut QUOTE line) as [[pre post]|] eqn:Ecut.
    + destruct post as [|x post'].
      * cbn. split; [discriminate|lia].
      * apply pending_cut with (rest := rest) in Ecut.
        rewrite pending_cons in Ecut.
        destruct (Ascii.eqb x QUOTE); [apply IH; lia|].
        destruct (Ascii.eqb x c); [apply IH; lia|].
        destruct (Csv.isEmptyLine _); cbn; split; try discriminate; lia.
    + destruct line as [|x line'].
      * cbn. split; [discriminate|lia].
      * destruct rest as [|next rest'].
        -- cbn. split; [discriminate|lia].
        -- rewrite pending_next in Hfuel. cbn [String.length] in Hfuel.
           destruct (IH c (Csv.InQuotes (cur +:+ String x line')) next rest' dst)
             as [H1 H2]; [lia|].
           split; [exact H1|]. cbn [length]. lia.
Qed.

Lemma skipEmpty_length (lines : list string) :
  length (Csv.skipEmpty lines) <= length lines.
Proof.
  induction lines as [|l lines IH]; cbn; [lia|].
  destruct (Csv.isEmptyLine l); cbn; lia.
Qed.

Lemma readRecord_fuel (c : ascii) (lines : list string) res rest :
  Csv.readRecord c lines = Some (res, rest) ->
  res <> inr Csv.OutOfFuel /\ length rest < length lines.
Proof.
  unfold Csv.readRecord. pose proof (skipEmpty_length lines) as Hskip.
  destruct (Csv.skipEmpty lines) as [|line rest0]; [discriminate|].
  intros H.
  destruct (parseField_fuel (S (Csv.pending line rest0)) c Csv.AtField line
              rest0 []) as [H1 H2]; [lia|].
  assert (E : Csv.parseField (S (Csv.pending line rest0)) c Csv.AtField line
                rest0 [] = (res, rest)) by congruence.
  rewrite E in H1, H2. cbn [fst snd length] in *. split; [exact H1|lia].
Qed.

Lemma readAllLoop_fuel (fuel : nat) : forall (c : ascii) (fpr : Z)
    (lines : list string) (acc : list (list string)),
  length lines < fuel ->
  Csv.readAllLoop fuel c fpr lines acc <> inr Csv.OutOfFuel.
Proof.
  induction fuel as [|fuel IH]; intros c fpr lines acc Hfuel; [lia|].
  cbn [Csv.readAllLoop].
  destruct (Csv.readRecord c lines) as [[[record|e] rest]|] eqn:Erec.
  - apply readRecord_fuel in Erec as [_ Hlen].
    destruct (0 <? fpr)%Z.
    + destruct (bool_decide _); [apply IH; lia|discriminate].
    + apply IH. lia.
  - apply readRecord_fuel in Erec as [Hne _]. intros [= ->]. apply Hne. reflexivity.
  - discriminate.
Qed.

(** [ReadAll] never stops for lack of fuel: the error it gives is one of
    Go's. *)
Lemma ReadAll_fuel (cr : Csv.Reader) : Csv.ReadAll cr <> inr Csv.OutOfFuel.
Proof.
  unfold Csv.ReadAll. destruct (negb _); [discriminate|].
  apply readAllLoop_fuel. lia.
Qed.

(** ** [parseSoftnet] *)

Lemma parseSoftnet_unfold (r : string) :
  Softnet.parseSoftnet r =
  match Csv.ReadAll (softnet_reader r) with
  | inr err => Softnet.Returns (Softnet.emptyData, Some (Softnet.CsvError err))
  | inl records =>
      Softnet.parseSoftnet_from 0 records
        {| Softnet.Processors :=
             replicate (length records) Softnet.zeroProcessor |}
  end.
Proof. reflexivity. Qed.

(** On an input whose rows all have 11 fields that decode, the report has
    the rows' records in order. *)
Lemma parseSoftnet_rows (r : string) (rows : list (list string))
    (valss : list (list Z)) (recs : list Softnet.SoftnetDataProcessor) :
  rows_of r = inl rows ->
  Forall (fun row => length row = 11) rows ->
  Forall2 (Forall2 Softnet.decodes) rows valss ->
  Forall2 (fun vals rec => Softnet.record_of vals = Some rec) valss recs ->
  Softnet.parseSoftnet r
  = Softnet.Returns ({| Softnet.Processors := recs |}, None).
Proof.
  intros Hrows Hlen Hdec Hrecs. rewrite parseSoftnet_unfold.
  pose proof (ReadAll_checked r) as Hread. rewrite Hrows in Hread.
  rewrite bool_decide_eq_true_2 in Hread by exact Hlen. rewrite Hread.
  exact (parseSoftnet_from_ok rows valss recs Hdec Hrecs []).
Qed.

(** C8. On a report of rows of exactly 11 fields, with single spaces between
    them, each of which decodes as a base-16 64-bit integer, [parseSoftnet]
    returns no error and one record for each row, in the order of the rows,
    made of the values at indices 0, 1, 2, 8, 9, 10. This holds with every
    row ended by a newline and with the last row not ended. The row
    "1 2 3 0 0 0 0 0 4 5 6" gives the record of 1, 2, 3, 4, 5, 6. *)
Theorem parseSoftnet_well_formed (rows : list (list string))
    (valss : list (list Z)) :
  Forall (fun row => length row = 11) rows ->
  Forall2 (Forall2 Softnet.decodes) rows valss ->
  exists recs,
    Forall2 (fun vals rec => Softnet.record_of vals = Some rec) valss recs /\
    length recs = length rows /\
    Softnet.parseSoftnet (Softnet.report_text rows)
      = Softnet.Returns ({| Softnet.Processors := recs |}, None) /\
    (forall init last,
       rows = init ++ [last] ->
       Softnet.parseSoftnet (Softnet.report_text init +:+ join SP last)
         = Softnet.Returns ({| Softnet.Processors := recs |}, None)) /\
    Softnet.parseSoftnet "1 2 3 0 0 0 0 0 4 5 6"
      = Softnet.Returns
          ({| Softnet.Processors := [Softnet.mkProcessor 1 2 3 4 5 6] |}, None).
Proof.
  intros Hlen Hdec.
  destruct (decoded_rows_records rows valss Hdec Hlen) as (recs & Hrecs).
  assert (Hplain : Forall (Forall Softnet.plain) rows /\ Forall Softnet.nonblank rows).
  { clear Hrecs. induction Hdec as [|row vals rows valss Hrow _ IH].
    - split; constructor.
    - destruct IH as [IH1 IH2]; [apply Forall_inv_tail in Hlen; exact Hlen|].
      destruct (decoded_row_plain row vals Hrow) as [H1 H2];
        [apply Forall_inv in Hlen; exact Hlen|].
      split; constructor; assumption. }
  destruct Hplain as [Hplain Hnb].
  exists recs. split; [exact Hrecs|]. split.
  { rewrite <- (Forall2_length _ _ _ Hrecs), <- (Forall2_length _ _ _ Hdec).
    reflexivity. }
  split; [|split].
  - apply (parseSoftnet_rows _ rows valss recs); try assumption.
    apply rows_of_report; assumption.
  - intros init last ->.
    apply (parseSoftnet_rows _ (init ++ [last]) valss recs); try assumption.
    apply Forall_app in Hplain as [Hp1 Hp2]. apply Forall_app in Hnb as [Hn1 Hn2].
    apply rows_of_report_open; try assumption.
    + apply Forall_inv in Hp2. exact Hp2.
    + apply Forall_inv in Hn2. exact Hn2.
  - vm_compute. reflexivity.
Qed.

(** C9. [parseSoftnet] never panics, and whenever it returns an error the
    report it returns with it is empty. When the reader splits the input
    into rows, a row that does not have 11 fields gives the reader's
    field-count error, and otherwise a field that fails base-16 decoding
    gives the decoding error; when the reader cannot split the input (a
    misplaced quote), its error is returned. The rows the reader splits a
    written report into are the rows written. None of these errors comes
    from the model's bound on the reader's loops. *)
Theorem parseSoftnet_error_no_partial :
  (forall r, exists sd err,
     Softnet.parseSoftnet r = Softnet.Returns (sd, err) /\
     (err <> None -> sd = Softnet.emptyData) /\
     err <> Some (Softnet.CsvError Csv.OutOfFuel)) /\
  (forall r rows,
     rows_of r = inl rows ->
     (Exists (fun row => length row <> 11) rows ->
      Softnet.parseSoftnet r
      = Softnet.Returns (Softnet.emptyData,
                         Some (Softnet.CsvError Csv.ErrFieldCount))) /\
     (Forall (fun row => length row = 11) rows ->
      Exists (Exists Softnet.fails_decoding) rows ->
      exists e,
        Softnet.parseSoftnet r
        = Softnet.Returns (Softnet.emptyData, Some (Softnet.NumError e)))) /\
  (forall r e,
     rows_of r = inr e ->
     exists e',
       Softnet.parseSoftnet r
       = Softnet.Returns (Softnet.emptyData, Some (Softnet.CsvError e'))) /\
  (forall rows,
     Forall (Forall Softnet.plain) rows -> Forall Softnet.nonblank rows ->
     rows_of (Softnet.report_text rows) = inl rows).
Proof.
  split; [|split; [|split]].
  - intros r. rewrite parseSoftnet_unfold.
    pose proof (ReadAll_fuel (softnet_reader r)) as Hfuel.
    pose proof (ReadAll_checked r) as Hread.
    destruct (Csv.ReadAll (softnet_reader r)) as [records|e] eqn:Eread.
    + assert (Hlen : Forall (fun row => length row = 11) records).
      { destruct (rows_of r) as [rows|e].
        - destruct (decide (Forall (fun row => length row = 11) rows)) as [H|H].
          + rewrite bool_decide_eq_true_2 in Hread by exact H. congruence.
          + rewrite bool_decide_eq_false_2 in Hread by exact H. discriminate.
        - destruct Hread as [e' ?]. discriminate. }
      destruct (parseSoftnet_from_total records 0
                  {| Softnet.Processors :=
                       replicate (length records) Softnet.zeroProcessor |} Hlen)
        as [(sd' & -> & _)|(e & -> & _)].
      * exists sd', None. split; [reflexivity|]. split; [contradiction|discriminate].
      * eexists _, _. split; [reflexivity|]. split; [reflexivity|discriminate].
    + eexists _, _. split; [reflexivity|]. split; [reflexivity|]. congruence.
  - intros r rows Hrows. pose proof (ReadAll_checked r) as Hread.
    rewrite Hrows in Hread. split.
    + intros Hbad. rewrite parseSoftnet_unfold, Hread.
      rewrite bool_decide_eq_false_2; [reflexivity|].
      intros Hall. apply Exists_exists in Hbad as (row & Hin & Hne).
      rewrite Forall_forall in Hall. apply Hne, Hall, Hin.
    + intros Hall Hfail. rewrite parseSoftnet_unfold, Hread.
      rewrite bool_decide_eq_true_2 by exact Hall.
      destruct (parseSoftnet_from_total rows 0
                  {| Softnet.Processors :=
                       replicate (length rows) Softnet.zeroProcessor |} Hall)
        as [(sd' & _ & valss & Hdec)|(e & -> & _)].
      * exfalso. clear -Hdec Hfail.
        induction Hdec as [|row vals rows valss Hrow _ IH].
        -- inversion Hfail.
        -- inversion Hfail as [? ? Hex|]; subst; [|auto].
           clear -Hrow Hex. induction Hrow as [|f v row vals Hf _ IH].
           ++ inversion Hex.
           ++ inversion Hex as [? ? (v' & e & Hf')|]; subst; [|auto].
              unfold Softnet.decodes in Hf. congruence.
      * exists e. reflexivity.
  - intros r e Hrows. pose proof (ReadAll_checked r) as Hread.
    rewrite Hrows in Hread. destruct Hread as (e' & Hread).
    exists e'. rewrite parseSoftnet_unfold, Hread. reflexivity.
  - exact rows_of_report.
Qed.

(** C10. On the empty input [parseSoftnet] returns no error and a report
    with no records; so it does on an input of blank lines only. *)
Theorem parseSoftnet_empty_input :
  Softnet.parseSoftnet EmptyString
    = Softnet.Returns ({| Softnet.Processors := [] |}, None) /\
  Softnet.parseSoftnet (String LF (String CR (String LF EmptyString)))
    = Softnet.Returns ({| Softnet.Processors := [] |}, None).
Proof. split; reflexivity. Qed.

(** ** Fields of hexadecimal digits *)

Lemma digit_nonneg (c : ascii) (d : Z) : Strconv.digit c = Some d -> (0 <= d)%Z.
Proof.
  unfold Strconv.digit. intros H. cbv zeta in H.
  destruct ((48 <=? byte c) && (byte c <=? 57))%Z eqn:E1.
  - injection H as <-. apply andb_prop in E1 as [E1 _]. lia.
  - destruct ((97 <=? Strconv.lower (byte c)) && (Strconv.lower (byte c) <=? 122))%Z
      eqn:E2; [|discriminate].
    injection H as <-. apply andb_prop in E2 as [E2 _]. lia.
Qed.

Lemma hexDigit_digit (c : ascii) (d : Z) :
  Softnet.hexDigit c = Some d ->
  Strconv.digit c = Some d /\ (0 <= d < 16)%Z.
Proof.
  unfold Softnet.hexDigit. intros H.
  destruct (Strconv.digit c) as [d'|] eqn:E; [|discriminate].
  destruct (Z.ltb_spec d' 16); [|discriminate]. injection H as <-.
  split; [reflexivity|]. split; [eapply digit_nonneg; eassumption|assumption].
Qed.

Lemma hexValue_from_ge (s : string) : forall acc v,
  (0 <= acc)%Z -> Softnet.hexValue_from acc s = Some v -> (acc <= v)%Z.
Proof.
  induction s as [|c s IH]; intros acc v Hacc H; cbn in H.
  - injection H as <-. lia.
  - destruct (Softnet.hexDigit c) as [d|] eqn:Ed; [|discriminate].
    apply hexDigit_digit in Ed as [_ Hd]. apply IH in H; lia.
Qed.

Lemma parseUintLoop_hex (s : string) : forall n v,
  (0 <= n)%Z -> Softnet.hexValue_from n s = Some v -> (v < 2 ^ 63)%Z ->
  Strconv.parseUintLoop 16 (Strconv.maxUint64 / 16 + 1) (2 ^ 64 - 1) s n
  = (v, None).
Proof.
  induction s as [|c s IH]; intros n v Hn H Hv; cbn in H.
  - injection H as <-. reflexivity.
  - destruct (Softnet.hexDigit c) as [d|] eqn:Ed; [|discriminate].
    apply hexDigit_digit in Ed as [Hdig Hd].
    assert (Hge : (16 * n + d <= v)%Z)
      by (apply (hexValue_from_ge s); [lia|exact H]).
    cbn [Strconv.parseUintLoop]. rewrite Hdig.
    destruct (Z.geb_spec d 16); [lia|].
    assert (H60 : (Strconv.maxUint64 / 16 + 1 = 1152921504606846976)%Z)
      by reflexivity.
    assert (H64 : (2 ^ 64 = 18446744073709551616)%Z) by reflexivity.
    assert (H63 : (2 ^ 63 = 9223372036854775808)%Z) by reflexivity.
    destruct (Z.geb_spec n (Strconv.maxUint64 / 16 + 1)); [lia|].
    unfold Strconv.u64.
    rewrite (Z.mod_small (n * 16)) by lia.
    rewrite (Z.mod_small (n * 16 + d)) by lia.
    destruct (Z.ltb_spec (n * 16 + d) (n * 16)); [lia|].
    destruct (Z.gtb_spec (n * 16 + d) (2 ^ 64 - 1)); [lia|].
    cbn [orb].
    apply IH; [lia| |exact Hv].
    replace (n * 16 + d)%Z with (16 * n + d)%Z by lia. exact H.
Qed.

(** A field of hexadecimal digits, not empty, whose value is below 2^63,
    decodes to its value. *)
Lemma hex_field_decodes (f : string) (v : Z) :
  Softnet.hexValue f = Some v -> (v < 2 ^ 63)%Z -> Softnet.decodes f v.
Proof.
  unfold Softnet.hexValue, Softnet.decodes. intros H Hv.
  destruct f as [|c0 s1]; [discriminate|].
  assert (Hge : (0 <= v)%Z)
    by (apply (hexValue_from_ge (String c0 s1)); [lia|exact H]).
  assert (Hloop := parseUintLoop_hex (String c0 s1) 0 v (Z.le_refl 0) H Hv).
  assert (Hc0 : exists d, Softnet.hexDigit c0 = Some d).
  { cbn in H. destruct (Softnet.hexDigit c0); [eauto|discriminate]. }
  destruct Hc0 as (d & Hd).
  unfold Strconv.ParseInt.
  destruct (Ascii.eqb_spec c0 "+") as [->|_]; [discriminate Hd|].
  destruct (Ascii.eqb_spec c0 "-") as [->|_]; [discriminate Hd|].
  rewrite ParseUint_16_64 by discriminate. rewrite Hloop.
  cbn [negb andb]. change (2 ^ (64 - 1))%Z with (2 ^ 63)%Z.
  assert (H64 : (2 ^ 64 = 18446744073709551616)%Z) by reflexivity.
  assert (H63 : (2 ^ 63 = 9223372036854775808)%Z) by reflexivity.
  destruct (Z.geb_spec v (2 ^ 63)); [lia|]. cbn [andb].
  unfold Strconv.i64. rewrite Z.mod_small by lia.
  f_equal. lia.
Qed.

Lemma parseSoftnet_well_formed_witness :
  Forall (fun row => length row = 11) [sample_row1; sample_row2] /\
  Forall2 (Forall2 Softnet.decodes) [sample_row1; sample_row2]
    [sample_vals1; sample_vals2] /\
  exists recs,
    length recs = 2 /\
    Softnet.parseSoftnet (Softnet.report_text [sample_row1; sample_row2])
      = Softnet.Returns ({| Softnet.Processors := recs |}, None).
Proof.
  assert (H1 : Forall (fun row => length row = 11) [sample_row1; sample_row2])
    by (repeat constructor).
  assert (H2 : Forall2 (Forall2 Softnet.decodes) [sample_row1; sample_row2]
                 [sample_vals1; sample_vals2])
    by (repeat constructor).
  split; [exact H1|]. split; [exact H2|].
  destruct (parseSoftnet_well_formed _ _ H1 H2) as (recs & _ & Hlen & Hrun & _).
  exists recs. split; [exact Hlen|exact Hrun].
Defined.

Lemma parseSoftnet_error_no_partial_witness :
  Softnet.parseSoftnet "1 2 3 0 0 0 0 4 5 6"
    = Softnet.Returns (Softnet.emptyData,
                       Some (Softnet.CsvError Csv.ErrFieldCount)) /\
  exists e,
    Softnet.parseSoftnet "1 2 3 0 0 0 0 0 4 5 zz"
      = Softnet.Returns (Softnet.emptyData, Some (Softnet.NumError e)).
Proof.
  destruct parseSoftnet_error_no_partial as (_ & Hrows & _).
  split.
  - refine (proj1 (Hrows "1 2 3 0 0 0 0 4 5 6"
                     [["1"; "2"; "3"; "0"; "0"; "0"; "0"; "4"; "5"; "6"]]
                     eq_refl) _).
    apply Exists_cons_hd. discriminate.
  - refine (proj2 (Hrows "1 2 3 0 0 0 0 0 4 5 zz"
                     [["1"; "2"; "3"; "0"; "0"; "0"; "0"; "0"; "4"; "5"; "zz"]]
                     eq_refl) _ _).
    + repeat constructor.
    + apply Exists_cons_hd. do 10 apply Exists_cons_tl. apply Exists_cons_hd.
      eexists _, _. reflexivity.
Defined.

(** Rows of 10 and of 12 fields, and a field that is not hexadecimal. *)
Example parseSoftnet_ten_fields :
  Softnet.parseSoftnet "1 2 3 0 0 0 0 4 5 6"
  = Softnet.Returns (Softnet.emptyData,
                     Some (Softnet.CsvError Csv.ErrFieldCount)).
Proof. reflexivity. Qed.

Example parseSoftnet_twelve_fields :
  Softnet.parseSoftnet "1 2 3 0 0 0 0 0 0 4 5 6"
  = Softnet.Returns (Softnet.emptyData,
                     Some (Softnet.CsvError Csv.ErrFieldCount)).
Proof. reflexivity. Qed.

Example parseSoftnet_not_hex :
  Softnet.parseSoftnet "1 2 3 0 0 0 0 0 4 5 zz"
  = Softnet.Returns
      (Softnet.emptyData,
       Some (Softnet.NumError
               (Strconv.mkNumError "ParseInt" "zz" Strconv.ErrSyntax))).
Proof. reflexivity. Qed.

(** * Further properties of set-up *)

(** ** A lock that is held *)

(** X1. When the lock file of the socket path is already locked,
    [startSSFUnix] panics after its [TryLock] call and before anything else:
    the file at the socket path is neither removed nor bound again, the set
    of held locks is as it was, and no goroutine is started. *)
Theorem startSSFUnix_lock_held (s : Server) (addr : UnixAddr) (w : World) :
  unix_net addr = "unix" ->
  flock_error (faults w) = None ->
  lockname addr ∈ flocks w ->
  exists msg w',
    Net.startSSFUnix s addr w = Panic msg w' /\
    files w' = files w /\ flocks w' = flocks w /\
    goroutines w' = goroutines w /\ logs w' = logs w /\
    since w w' = [CallTryLock (lockname addr) false None].
Proof.
  intros Hnet Hf Hheld.
  destruct w as [fs ls [f1 f2 f3 f4 f5 f6] nc gs lg cs]. cbn in Hf, Hheld. subst f3.
  unfold Net.startSSFUnix, bind, make_chan, TryLock, panic, add_call, bump_chan.
  cbn. rewrite Hnet. cbn.
  rewrite bool_decide_eq_true_2 by exact Hheld. cbn.
  eexists _, _. split; [reflexivity|]. cbn.
  repeat split. unfold since. cbn. apply drop_app_length.
Qed.

Lemma startSSFUnix_lock_held_witness :
  exists msg w',
    Net.startSSFUnix (server_with 1 None) unix0 world_locked = Panic msg w' /\
    files w' = files world_locked.
Proof.
  assert (Hheld : lockname unix0 ∈ flocks world_locked).
  { change ("/tmp/ssf.sock.lock" ∈ ({["/tmp/ssf.sock.lock"]} : gset string)).
    apply elem_of_singleton. reflexivity. }
  destruct (startSSFUnix_lock_held (server_with 1 None) unix0 world_locked
              eq_refl eq_refl Hheld) as (msg & w' & Hrun & Hfiles & _).
  exists msg, w'. split; [exact Hrun|exact Hfiles].
Defined.

(** ** More on the two goroutines *)

Lemma listener_closes_snoc (p : string) (new : list Call) (c : Call) :
  listener_closes p (new ++ [c]) =
  listener_closes p new + (if is_close_listener p c then 1 else 0).
Proof. unfold listener_closes. rewrite count_calls_app. cbn. lia. Qed.

Lemma loop_inv2_step w0 l p a st st' :
  loop_inv2 w0 l p st -> UnixLoop.lock st = mkFlock l ->
  UnixLoop.step a st = Some st' ->
  loop_inv2 w0 l p st' /\ UnixLoop.lock st' = mkFlock l.
Proof.
  intros (Hfi & Hfl & Hgs & Hli & Hlc & Hdr & Hpl & new & Hcalls & Hcount) Hlock Hstep.
  unfold UnixLoop.step in Hstep.
  destruct st as [os lk li dn rl dp sh lc rd ex]. cbn in *. subst li lk.
  destruct ex; [discriminate|].
  destruct a.
  - destruct sh; [discriminate|]. injection Hstep as <-.
    split; [|reflexivity]. unfold loop_inv2; cbn.
    repeat split; try assumption; try reflexivity. exists new. auto.
  - destruct rl; try discriminate. destruct lc; [discriminate|].
    injection Hstep as <-. split; [|reflexivity]. unfold loop_inv2; cbn.
    repeat split; try assumption; try reflexivity; try (intros; discriminate).
    exists new. auto.
  - destruct rl; try discriminate.
    destruct sh; injection Hstep as <-; (split; [|reflexivity]);
      unfold loop_inv2; cbn; repeat split; try assumption; try reflexivity;
      try (intros; discriminate); exists new; auto.
  - destruct rl; try discriminate. destruct dp; try discriminate.
    injection Hstep as <-. split; [|reflexivity]. unfold loop_inv2; cbn.
    repeat split; try assumption; try reflexivity; try (intros; discriminate).
    exists new. auto.
  - destruct dp; try discriminate. destruct sh; [|discriminate].
    injection Hstep as <-. split; [|reflexivity].
    destruct (CloseListener_frame (mkUnixListener p) os)
      as (Hc & Hfl' & _ & Hgs' & _ & _ & Hfi').
    unfold loop_inv2; cbn -[CloseListener]. rewrite Hc, Hfl', Hgs', Hfi'. cbn.
    repeat split; try assumption; try reflexivity.
    + rewrite Hfi. destruct (abstract_name p); reflexivity.
    + exists (new ++ [CallCloseListener p]).
      split; [rewrite Hcalls, app_assoc; reflexivity|].
      rewrite listener_closes_snoc, Hcount. cbn. rewrite String.eqb_refl.
      reflexivity.
  - destruct rl; try discriminate. injection Hstep as <-.
    split; [|reflexivity]. unfold loop_inv2; cbn.
    repeat split; try assumption; try reflexivity.
    + destruct Hfl as [-> | ->]; [right; reflexivity|].
      right. apply set_eq. intros x.
      rewrite !elem_of_difference. tauto.
    + exists (new ++ [CallUnlock l]).
      split; [rewrite Hcalls, app_assoc; reflexivity|].
      rewrite listener_closes_snoc, Hcount. cbn. lia.
  - destruct rl; try discriminate. injection Hstep as <-.
    split; [|reflexivity]. unfold loop_inv2; cbn.
    repeat split; try assumption; try reflexivity.
    exists (new ++ [CallCloseDone dn]).
    split; [rewrite Hcalls, app_assoc; reflexivity|].
    rewrite listener_closes_snoc, Hcount. cbn. lia.
Qed.

Lemma loop_inv2_exec w0 l p acts : forall st st',
  loop_inv2 w0 l p st -> UnixLoop.lock st = mkFlock l ->
  UnixLoop.exec acts st = Some st' ->
  loop_inv2 w0 l p st'.
Proof.
  induction acts as [|a acts IH]; intros st st' Hinv Hlock Hexec; cbn in Hexec.
  - injection Hexec as <-. exact Hinv.
  - destruct (UnixLoop.step a st) as [st1|] eqn:Es; [|discriminate].
    destruct (loop_inv2_step _ _ _ _ _ _ Hinv Hlock Es) as [Hinv1 Hlock1].
    eapply IH; eassumption.
Qed.

(** Everything known of a run of the goroutines of a set-up that returned. *)
Lemma unix_run (s : Server) (addr : UnixAddr) (w : World) d w' :
  Net.startSSFUnix s addr w = Ok d w' ->
  exists st0,
    UnixLoop.start w'
      (SSFUnixServer (NewFlock (lockname addr))
         (mkUnixListener (unix_name addr)) d) = Some st0 /\
    goroutines w' =
      goroutines w ++ [SSFUnixServer (NewFlock (lockname addr))
                         (mkUnixListener (unix_name addr)) d] /\
    files w' = {[unix_name addr]} ∪ files w /\
    flocks w' = {[lockname addr]} ∪ flocks w /\
    faults w' = faults w /\
    flock_error (faults w) = None /\
    unix_net addr = "unix" /\
    d = mkDoneChan (next_chan w) /\
    (exists r, calls w' = calls w ++ [CallTryLock (lockname addr) true None;
                                      CallRemove (unix_name addr) r;
                                      CallListenUnix (unix_name addr) true;
                                      CallChmod (unix_name addr) 438 true]) /\
    UnixLoop.relay st0 = UnixLoop.Accepting /\
    UnixLoop.readers st0 = [] /\
    forall acts st,
      UnixLoop.exec acts st0 = Some st ->
      loop_inv (calls w') (faults w') (lockname addr) d st /\
      loop_inv2 w' (lockname addr) (unix_name addr) st.
Proof.
  intros Hrun. pose proof (startSSFUnix_ends s addr w) as Hends.
  rewrite Hrun in Hends.
  inversion Hends as [| | | | |w1 r Hnet Hfree Hferr Hcalls Hr Habs Henv Hfl Hfi Hfa Hlg Hgs];
    subst.
  eexists. split; [reflexivity|]. split; [exact Hgs|].
  split; [exact Hfi|]. split; [exact Hfl|]. split; [exact Hfa|].
  split; [exact Hferr|]. split; [exact Hnet|]. split; [reflexivity|].
  split; [exists r; exact Hcalls|]. split; [reflexivity|].
  split; [reflexivity|].
  intros acts st Hexec. split.
  - eapply loop_inv_exec; [|exact Hexec].
    destruct (loop_inv_start (NewFlock (lockname addr))
                (mkUnixListener (unix_name addr)) (mkDoneChan (next_chan w)) w')
      as (st0 & Hstart & Hinv).
    { cbn. rewrite Hfl. apply elem_of_union_l, elem_of_singleton. reflexivity. }
    cbn in Hstart. injection Hstart as <-. exact Hinv.
  - eapply loop_inv2_exec; [| |exact Hexec]; [|reflexivity].
    unfold loop_inv2; cbn. repeat split; try (intros; discriminate).
    + left. reflexivity.
    + exists []. rewrite app_nil_r. split; reflexivity.
Qed.

(** A set-up that returned although [os.Remove] could remove what it was
    asked to was on a path: on a name that is no path, nothing is there for
    [os.Chmod]. *)
Lemma unix_setup_path (s : Server) (addr : UnixAddr) (w : World) d w' :
  Net.startSSFUnix s addr w = Ok d w' ->
  remove_error (faults w) = None ->
  abstract_name (unix_name addr) = false.
Proof.
  intros Hrun Hr. pose proof (startSSFUnix_ends s addr w) as Hends.
  rewrite Hrun in Hends.
  inversion Hends as [| | | | |w1 r Hnet Hfree Hferr Hcalls Hrr Habs Henv Hfl Hfi Hfa Hlg Hgs];
    subst.
  destruct (abstract_name (unix_name addr)); [|reflexivity].
  destruct Habs as [_ Habs]. contradiction.
Qed.

Lemma unix_run_to_inv (s : Server) (addr : UnixAddr) (w : World) acts st :
  unix_run_to s addr w acts st ->
  exists d w',
    Net.startSSFUnix s addr w = Ok d w' /\
    files w' = {[unix_name addr]} ∪ files w /\
    flocks w' = {[lockname addr]} ∪ flocks w /\
    faults w' = faults w /\
    flock_error (faults w) = None /\
    unix_net addr = "unix" /\
    d = mkDoneChan (next_chan w) /\
    (exists r, calls w' = calls w ++ [CallTryLock (lockname addr) true None;
                                      CallRemove (unix_name addr) r;
                                      CallListenUnix (unix_name addr) true;
                                      CallChmod (unix_name addr) 438 true]) /\
    loop_inv (calls w') (faults w') (lockname addr) d st /\
    loop_inv2 w' (lockname addr) (unix_name addr) st.
Proof.
  intros (d & w' & st0 & Hrun & Hstart & Hexec).
  destruct (unix_run s addr w d w' Hrun)
    as (st0' & Hstart' & _ & Hfi & Hfl & Hfa & Hferr & Hnet & Hd & Hsetup & _ & _ & Hall).
  unfold unix_server in Hstart. rewrite Hstart in Hstart'.
  injection Hstart' as <-. destruct (Hall acts st Hexec) as [H1 H2].
  exists d, w'. split; [exact Hrun|]. split; [exact Hfi|]. split; [exact Hfl|].
  split; [exact Hfa|]. split; [exact Hferr|]. split; [exact Hnet|].
  split; [exact Hd|]. split; [exact Hsetup|]. split; [exact H1|exact H2].
Qed.

Lemma sample_clean_run :
  exists st, unix_run_to (server_with 1 None) unix0 world_stale clean_shutdown st /\
             UnixLoop.relay st = UnixLoop.Returned /\
             UnixLoop.dispatch st = UnixLoop.DispatchReturned.
Proof.
  eexists. split; [|split].
  - eexists _, _, _. split; [vm_compute; reflexivity|].
    split; vm_compute; reflexivity.
  - reflexivity.
  - reflexivity.
Qed.

Lemma sample_serving_run :
  exists st, unix_run_to (server_with 1 None) unix0 world_stale
               [UnixLoop.AcceptConn (UnixLoop.mkConn 1)] st /\
             UnixLoop.relay st = UnixLoop.Sending (UnixLoop.mkConn 1).
Proof.
  eexists. split.
  - eexists _, _, _. split; [vm_compute; reflexivity|].
    split; vm_compute; reflexivity.
  - reflexivity.
Qed.

Lemma sample_open_run :
  exists st, unix_run_to (server_with 1 None) unix0 world_stale
               [UnixLoop.AcceptConn (UnixLoop.mkConn 1)] st /\
             UnixLoop.relay st = UnixLoop.Sending (UnixLoop.mkConn 1) /\
             UnixLoop.listener_closed st = false.
Proof.
  eexists. split; [|split].
  - eexists _, _, _. split; [vm_compute; reflexivity|].
    split; vm_compute; reflexivity.
  - reflexivity.
  - reflexivity.
Qed.

Lemma sample_closing_run :
  exists st, unix_run_to (server_with 1 None) unix0 world_stale
               [UnixLoop.CloseShutdown; UnixLoop.ObserveShutdown] st /\
             UnixLoop.relay st = UnixLoop.Accepting /\
             UnixLoop.listener_closed st = true.
Proof.
  eexists. split; [|split].
  - eexists _, _, _. split; [vm_compute; reflexivity|].
    split; vm_compute; reflexivity.
  - reflexivity.
  - reflexivity.
Qed.

(** X2. As long as a manager has not released its lock (its accept-relay
    task has not run the deferred [Unlock]), a second [startSSFUnix] on the
    same address panics, whatever the goroutines of the first have done in
    between; it leaves the files, the held locks and the goroutines as they
    are. The first manager's socket file is there as long as its listener
    is open; once the listener is closed, the socket file of a path is
    gone. *)
Theorem second_manager_refused (s s2 : Server) (addr : UnixAddr) (w : World)
    (acts : list UnixLoop.Action) (st : UnixLoop.Sys) :
  unix_run_to s addr w acts st ->
  released_at (UnixLoop.relay st) = 0 ->
  exists msg w2,
    Net.startSSFUnix s2 addr (UnixLoop.os st) = Panic msg w2 /\
    files w2 = files (UnixLoop.os st) /\
    (UnixLoop.listener_closed st = false -> unix_name addr ∈ files w2) /\
    (UnixLoop.listener_closed st = true ->
     abstract_name (unix_name addr) = false -> unix_name addr ∉ files w2) /\
    flocks w2 = flocks (UnixLoop.os st) /\
    goroutines w2 = goroutines (UnixLoop.os st).
Proof.
  intros Hrun Hrel.
  destruct (unix_run_to_inv _ _ _ _ _ Hrun)
    as (d & w' & _ & Hfi & _ & Hfa & Hferr & Hnet & _ & _ & Hinv & Hinv2).
  destruct Hinv as (_ & _ & Hf & _ & new & _ & Hpc).
  destruct Hinv2 as (Hfiles & _ & _ & _ & Hlc & _).
  assert (Hheld : lockname addr ∈ flocks (UnixLoop.os st)).
  { destruct (UnixLoop.relay st); cbn in Hrel; try discriminate; tauto. }
  assert (Hopen : UnixLoop.listener_closed st = false ->
                  unix_name addr ∈ files (UnixLoop.os st)).
  { intros Ho. rewrite Hfiles, <- Hlc, Ho, Hfi. cbn.
    apply elem_of_union_l, elem_of_singleton. reflexivity. }
  assert (Hgone : UnixLoop.listener_closed st = true ->
                  abstract_name (unix_name addr) = false ->
                  unix_name addr ∉ files (UnixLoop.os st)).
  { intros Hcl Habs. rewrite Hfiles, <- Hlc, Hcl, Habs. cbn.
    intros [_ H]%elem_of_difference. apply H, elem_of_singleton. reflexivity. }
  rewrite Hfa in Hf. rewrite <- Hf in Hferr.
  destruct (UnixLoop.os st) as [fs ls [f1 f2 f3 f4 f5 f6] nc gs lg cs].
  cbn in Hferr, Hheld, Hopen, Hgone.
  refused_by_lock Hnet Hferr Hheld; assumption.
Qed.

Lemma second_manager_refused_witness :
  (exists st msg w2,
     UnixLoop.relay st = UnixLoop.Sending (UnixLoop.mkConn 1) /\
     Net.startSSFUnix (server_with 4 None) unix0 (UnixLoop.os st) = Panic msg w2 /\
     files w2 = files (UnixLoop.os st) /\
     unix_name unix0 ∈ files w2) /\
  (exists st msg w2,
     UnixLoop.listener_closed st = true /\
     Net.startSSFUnix (server_with 4 None) unix0 (UnixLoop.os st) = Panic msg w2 /\
     unix_name unix0 ∉ files w2).
Proof.
  split.
  - destruct sample_open_run as (st & Hrun & Hpc & Hopen).
    assert (Hrel : released_at (UnixLoop.relay st) = 0)
      by (rewrite Hpc; reflexivity).
    destruct (second_manager_refused (server_with 1 None) (server_with 4 None)
                unix0 world_stale _ st Hrun Hrel)
      as (msg & w2 & Hpanic & Hfiles & Hthere & _).
    exists st, msg, w2. split; [exact Hpc|]. split; [exact Hpanic|].
    split; [exact Hfiles|exact (Hthere Hopen)].
  - destruct sample_closing_run as (st & Hrun & Hpc & Hcl).
    assert (Hrel : released_at (UnixLoop.relay st) = 0)
      by (rewrite Hpc; reflexivity).
    destruct (second_manager_refused (server_with 1 None) (server_with 4 None)
                unix0 world_stale _ st Hrun Hrel)
      as (msg & w2 & Hpanic & _ & _ & Hgone & _).
    exists st, msg, w2. split; [exact Hcl|]. split; [exact Hpanic|].
    exact (Hgone Hcl eq_refl).
Defined.

(** X3. Once a manager's completion channel is closed, a new
    [startSSFUnix] on the same address returns, provided the environment
    injects no failure: the lock is taken again and a new goroutine is
    started. *)
Theorem restart_after_completion (s s2 : Server) (addr : UnixAddr) (w : World)
    (acts : list UnixLoop.Action) (st : UnixLoop.Sys) :
  unix_run_to s addr w acts st ->
  UnixLoop.relay st = UnixLoop.Returned ->
  unix_env_ok w ->
  exists d2 w2,
    Net.startSSFUnix s2 addr (UnixLoop.os st) = Ok d2 w2 /\
    lockname addr ∈ flocks w2 /\
    goroutines w2 = goroutines (UnixLoop.os st) ++ [unix_server addr d2].
Proof.
  intros Hrun Hret (Hf & Hr & Hl & Hc).
  destruct (unix_run_to_inv _ _ _ _ _ Hrun)
    as (d & w' & Hsetup & _ & _ & Hfa & _ & Hnet & _ & _ & Hinv & _).
  pose proof (unix_setup_path _ _ _ _ _ Hsetup Hr) as Hpath.
  destruct Hinv as (_ & _ & Hfaults & _ & new & _ & Hpc).
  rewrite Hret in Hpc. destruct Hpc as (_ & _ & Hfree & _).
  rewrite Hfa in Hfaults.
  pose proof (startSSFUnix_ends s2 addr (UnixLoop.os st)) as Hends.
  inversion Hends as
    [msg w2 Hbad _ _ _ Heq
    |msg w2 e He _ _ _ Heq
    |msg w2 Hheld _ _ _ Heq
    |msg w2 r _ Hcause _ _ _ _ _ Heq
    |msg w2 r _ Hcause _ _ _ Heq
    |w2 r _ _ _ Hcalls Hrr _ _ Hfl _ _ _ Hgs Heq].
  - contradiction.
  - rewrite Hfaults in He. congruence.
  - contradiction.
  - rewrite Hfaults in Hcause.
    destruct Hcause as [Hcause|(_ & _ & Hcause)]; contradiction.
  - rewrite Hfaults in Hcause.
    destruct Hcause as [Hcause|[Hcause _]]; [contradiction|congruence].
  - eexists _, w2. split; [reflexivity|]. split.
    + rewrite Hfl. apply elem_of_union_l, elem_of_singleton. reflexivity.
    + exact Hgs.
Qed.

Lemma restart_after_completion_witness :
  exists st d2 w2,
    UnixLoop.relay st = UnixLoop.Returned /\
    Net.startSSFUnix (server_with 1 None) unix0 (UnixLoop.os st) = Ok d2 w2.
Proof.
  destruct sample_clean_run as (st & Hrun & Hpc & _).
  assert (Henv : unix_env_ok world_stale) by (repeat split).
  destruct (restart_after_completion (server_with 1 None) (server_with 1 None)
              unix0 world_stale _ st Hrun Hpc Henv)
    as (d2 & w2 & Hstart & _).
  exists st, d2, w2. split; [exact Hpc|exact Hstart].
Defined.

(** ** Connections *)

Lemma relay_step_conns (a : UnixLoop.Action) (st st' : UnixLoop.Sys) :
  UnixLoop.step a st = Some st' ->
  UnixLoop.readers st' ++ pending_conn (UnixLoop.relay st') =
  UnixLoop.readers st ++ pending_conn (UnixLoop.relay st) ++ accepted [a].
Proof.
  unfold UnixLoop.step. intros H.
  destruct st as [os lk li dn rl dp sh lc rd ex]. cbn in *.
  destruct ex; [discriminate|].
  destruct a; cbn.
  - destruct sh; [discriminate|]. injection H as <-. cbn.
    rewrite app_nil_r. reflexivity.
  - destruct rl; try discriminate. destruct lc; [discriminate|].
    injection H as <-. reflexivity.
  - destruct rl; try discriminate. destruct sh; injection H as <-; reflexivity.
  - destruct rl; try discriminate. destruct dp; try discriminate.
    injection H as <-. cbn. rewrite app_nil_r. reflexivity.
  - destruct dp; try discriminate. destruct sh; [|discriminate].
    injection H as <-. cbn. rewrite app_nil_r. reflexivity.
  - destruct rl; try discriminate. injection H as <-. reflexivity.
  - destruct rl; try discriminate. injection H as <-. reflexivity.
Qed.

Lemma accepted_cons (a : UnixLoop.Action) (acts : list UnixLoop.Action) :
  accepted (a :: acts) = accepted [a] ++ accepted acts.
Proof. destruct a; reflexivity. Qed.

Lemma relay_exec_conns (acts : list UnixLoop.Action) : forall st st',
  UnixLoop.exec acts st = Some st' ->
  UnixLoop.readers st' ++ pending_conn (UnixLoop.relay st') =
  UnixLoop.readers st ++ pending_conn (UnixLoop.relay st) ++ accepted acts.
Proof.
  induction acts as [|a acts IH]; intros st st' H; cbn [UnixLoop.exec] in H.
  - injection H as <-. cbn. rewrite app_nil_r. reflexivity.
  - destruct (UnixLoop.step a st) as [st1|] eqn:Es; [|discriminate].
    rewrite (IH _ _ H), app_assoc, (relay_step_conns _ _ _ Es), (accepted_cons a acts).
    rewrite <- !app_assoc. reflexivity.
Qed.

(** X5. Every connection [AcceptUnix] returns is handed to exactly one
    reader goroutine, in the order of acceptance, none twice and none
    skipped; at most the last one is still in the accept-relay task's
    hands. *)
Theorem accepted_connections_served (w : World) (g : Goroutine)
    (st0 st : UnixLoop.Sys) (acts : list UnixLoop.Action) :
  UnixLoop.start w g = Some st0 ->
  UnixLoop.exec acts st0 = Some st ->
  accepted acts = UnixLoop.readers st ++ pending_conn (UnixLoop.relay st).
Proof.
  intros Hstart Hexec. rewrite (relay_exec_conns _ _ _ Hexec).
  destruct g; try discriminate Hstart. injection Hstart as <-. reflexivity.
Qed.

Lemma accepted_connections_served_witness :
  exists st,
    UnixLoop.readers st = [UnixLoop.mkConn 1; UnixLoop.mkConn 2] /\
    accepted serve_two = UnixLoop.readers st ++ pending_conn (UnixLoop.relay st).
Proof.
  destruct (UnixLoop.exec serve_two
              {| UnixLoop.os := world0; UnixLoop.lock := NewFlock (lockname unix0);
                 UnixLoop.listener := mkUnixListener (unix_name unix0);
                 UnixLoop.done := mkDoneChan 0;
                 UnixLoop.relay := UnixLoop.Accepting;
                 UnixLoop.dispatch := UnixLoop.Selecting;
                 UnixLoop.shutdown_closed := false;
                 UnixLoop.listener_closed := false;
                 UnixLoop.readers := []; UnixLoop.exited := None |})
    as [st|] eqn:E; [|discriminate E].
  exists st. split.
  - cbn in E. injection E as <-. reflexivity.
  - exact (accepted_connections_served world0 (unix_server unix0 (mkDoneChan 0))
             _ st serve_two eq_refl E).
Defined.

(** ** Shutdown *)

Lemma closed_listener_step (a : UnixLoop.Action) (st st' : UnixLoop.Sys) :
  UnixLoop.listener_closed st = true ->
  UnixLoop.dispatch st = UnixLoop.DispatchReturned ->
  UnixLoop.step a st = Some st' ->
  UnixLoop.listener_closed st' = true /\
  UnixLoop.dispatch st' = UnixLoop.DispatchReturned /\
  UnixLoop.readers st' = UnixLoop.readers st /\
  accepted [a] = [].
Proof.
  unfold UnixLoop.step. intros Hlc Hdp H.
  destruct st as [os lk li dn rl dp sh lc rd ex]. cbn in *. subst lc dp.
  destruct ex; [discriminate|].
  destruct a; cbn.
  - destruct sh; [discriminate|]. injection H as <-. repeat split.
  - destruct rl; discriminate.
  - destruct rl; try discriminate. destruct sh; injection H as <-; repeat split.
  - destruct rl; discriminate.
  - discriminate.
  - destruct rl; try discriminate. injection H as <-. repeat split.
  - destruct rl; try discriminate. injection H as <-. repeat split.
Qed.

(** X6. Once the dispatch task has closed the listener, no connection is
    accepted and no reader goroutine is started any more, whatever happens
    next. *)
Theorem no_service_after_close (s : Server) (addr : UnixAddr) (w : World)
    (acts acts' : list UnixLoop.Action) (st st' : UnixLoop.Sys) :
  unix_run_to s addr w acts st ->
  UnixLoop.listener_closed st = true ->
  UnixLoop.exec acts' st = Some st' ->
  accepted acts' = [] /\
  UnixLoop.readers st' = UnixLoop.readers st /\
  UnixLoop.listener_closed st' = true.
Proof.
  intros Hrun Hlc Hexec.
  destruct (unix_run_to_inv _ _ _ _ _ Hrun)
    as (d & w' & _ & _ & _ & _ & _ & _ & _ & _ & _ & Hinv2).
  destruct Hinv2 as (_ & _ & _ & _ & Hlcd & _).
  assert (Hdp : UnixLoop.dispatch st = UnixLoop.DispatchReturned).
  { rewrite Hlc in Hlcd. destruct (UnixLoop.dispatch st); [discriminate|reflexivity]. }
  clear Hrun Hlcd. revert st Hlc Hdp Hexec.
  induction acts' as [|a acts' IH]; intros st Hlc Hdp Hexec; cbn [UnixLoop.exec] in Hexec.
  - injection Hexec as <-. repeat split. exact Hlc.
  - destruct (UnixLoop.step a st) as [st1|] eqn:Es; [|discriminate].
    destruct (closed_listener_step _ _ _ Hlc Hdp Es) as (Hlc1 & Hdp1 & Hrd & Hacc).
    destruct (IH st1 Hlc1 Hdp1 Hexec) as (Hacc' & Hrd' & Hlc').
    rewrite (accepted_cons a acts'), Hacc, Hacc', Hrd', Hrd. repeat split.
    exact Hlc'.
Qed.

Lemma sample_closed_run :
  exists st, unix_run_to (server_with 1 None) unix0 world_stale serve_two st /\
             UnixLoop.listener_closed st = true /\
             UnixLoop.readers st = [UnixLoop.mkConn 1; UnixLoop.mkConn 2].
Proof.
  eexists. split; [|split].
  - eexists _, _, _. split; [vm_compute; reflexivity|].
    split; vm_compute; reflexivity.
  - reflexivity.
  - reflexivity.
Qed.

Lemma no_service_after_close_witness :
  exists st st',
    UnixLoop.listener_closed st = true /\
    UnixLoop.exec [UnixLoop.AcceptFails "use of closed network connection";
                   UnixLoop.RunUnlock; UnixLoop.RunCloseDone] st = Some st' /\
    UnixLoop.readers st' = UnixLoop.readers st.
Proof.
  destruct sample_closed_run as (st & Hrun & Hlc & Hrd).
  destruct (UnixLoop.exec [UnixLoop.AcceptFails "use of closed network connection";
                           UnixLoop.RunUnlock; UnixLoop.RunCloseDone] st)
    as [st'|] eqn:E.
  - exists st, st'. split; [exact Hlc|]. split; [exact E|].
    exact (proj1 (proj2 (no_service_after_close _ _ _ _ _ st st' Hrun Hlc E))).
  - exfalso. destruct Hrun as (d & w' & st0 & H1 & H2 & H3).
    vm_compute in H1. injection H1 as <- <-.
    vm_compute in H2. injection H2 as <-.
    vm_compute in H3. injection H3 as <-. vm_compute in E. discriminate E.
Defined.

(** X7. The manager tears nothing down on its own: as long as [s.shutdown]
    is open, the listener has not been closed, [Unlock] and [close(done)]
    have not been called, and the lock is held. *)
Theorem no_teardown_before_shutdown (s : Server) (addr : UnixAddr) (w : World)
    (acts : list UnixLoop.Action) (st : UnixLoop.Sys) :
  unix_run_to s addr w acts st ->
  UnixLoop.shutdown_closed st = false ->
  UnixLoop.listener_closed st = false /\
  listener_closes (unix_name addr) (since w (UnixLoop.os st)) = 0 /\
  unlocks (lockname addr) (since w (UnixLoop.os st)) = 0 /\
  done_closes (mkDoneChan (next_chan w)) (since w (UnixLoop.os st)) = 0 /\
  lockname addr ∈ flocks (UnixLoop.os st).
Proof.
  intros Hrun Hsh.
  destruct (unix_run_to_inv _ _ _ _ _ Hrun)
    as (d & w' & _ & _ & _ & _ & _ & _ & Hd & (r & Hsetup) & Hinv & Hinv2).
  destruct Hinv as (_ & _ & _ & _ & new & Hnew & Hpc).
  destruct Hinv2 as (_ & _ & _ & _ & Hlcd & Hdr & Hpl & new2 & Hnew2 & Hcount).
  assert (Hdp : dispatch_returned (UnixLoop.dispatch st) = false).
  { destruct (dispatch_returned _); [|reflexivity]. rewrite Hdr in Hsh by reflexivity.
    discriminate. }
  assert (Hrl : past_loop (UnixLoop.relay st) = false).
  { destruct (past_loop _); [|reflexivity]. rewrite Hpl in Hsh by reflexivity.
    discriminate. }
  assert (new2 = new) as ->.
  { rewrite Hnew in Hnew2. apply app_inv_head in Hnew2. congruence. }
  rewrite Hdp in Hcount, Hlcd.
  assert (Hsince : since w (UnixLoop.os st) =
                   [CallTryLock (lockname addr) true None;
                    CallRemove (unix_name addr) r;
                    CallListenUnix (unix_name addr) true;
                    CallChmod (unix_name addr) 438 true] ++ new).
  { apply (loop_calls_since w w'); assumption. }
  rewrite Hsince. unfold listener_closes, unlocks, done_closes in *.
  rewrite !count_calls_app.
  split; [exact Hlcd|]. split; [rewrite Hcount; reflexivity|]. subst d.
  destruct (UnixLoop.relay st); try discriminate Hrl;
    destruct Hpc as (Hu & Hdc & Hheld); rewrite Hu, Hdc; repeat split;
    exact Hheld.
Qed.

Lemma no_teardown_before_shutdown_witness :
  exists st,
    UnixLoop.shutdown_closed st = false /\
    UnixLoop.listener_closed st = false /\
    lockname unix0 ∈ flocks (UnixLoop.os st).
Proof.
  destruct sample_serving_run as (st & Hrun & Hpc).
  assert (Hsh : UnixLoop.shutdown_closed st = false).
  { destruct Hrun as (d & w' & st0 & H1 & H2 & H3).
    vm_compute in H1. injection H1 as <- <-.
    vm_compute in H2. injection H2 as <-.
    vm_compute in H3. injection H3 as <-. reflexivity. }
  destruct (no_teardown_before_shutdown _ _ _ _ st Hrun Hsh)
    as (Hlc & _ & _ & _ & Hheld).
  exists st. split; [exact Hsh|]. split; [exact Hlc|exact Hheld].
Defined.

(** X8. The process exits through [log.Fatal] only while [s.shutdown] is
    open: in every state with [s.shutdown] closed the process is running,
    and stays so whatever happens next. After an exit nothing moves. *)
Theorem fatal_exit_only_before_shutdown (s : Server) (addr : UnixAddr)
    (w : World) (acts : list UnixLoop.Action) (st : UnixLoop.Sys) :
  unix_run_to s addr w acts st ->
  (UnixLoop.exited st <> None ->
   UnixLoop.shutdown_closed st = false /\ stuck st) /\
  (UnixLoop.shutdown_closed st = true ->
   forall acts' st', UnixLoop.exec acts' st = Some st' ->
                     UnixLoop.exited st' = None).
Proof.
  intros Hrun.
  assert (Hall : forall acts st, unix_run_to s addr w acts st ->
                   UnixLoop.exited st <> None ->
                   UnixLoop.shutdown_closed st = false).
  { clear. intros acts st Hrun Hex.
    destruct (unix_run_to_inv _ _ _ _ _ Hrun)
      as (d & w' & _ & _ & _ & _ & _ & _ & _ & _ & Hinv & _).
    destruct Hinv as (_ & _ & _ & Hexit & _). apply Hexit, Hex. }
  split.
  - intros Hex. split; [exact (Hall _ _ Hrun Hex)|].
    intros a. unfold UnixLoop.step.
    destruct (UnixLoop.exited st); [reflexivity|contradiction].
  - intros Hsh acts' st' Hexec.
    assert (Hrun' : unix_run_to s addr w (acts ++ acts') st').
    { destruct Hrun as (d & w' & st0 & H1 & H2 & H3).
      exists d, w', st0. split; [exact H1|]. split; [exact H2|].
      clear -H3 Hexec. revert st0 H3.
      induction acts as [|a acts IH]; intros st0 H3; cbn in *.
      - injection H3 as ->. exact Hexec.
      - destruct (UnixLoop.step a st0); [|discriminate]. apply IH, H3. }
    assert (Hsh' : UnixLoop.shutdown_closed st' = true).
    { clear -Hsh Hexec. revert st Hsh Hexec.
      induction acts' as [|a acts' IH]; intros st Hsh Hexec; cbn in Hexec.
      - injection Hexec as <-. exact Hsh.
      - destruct (UnixLoop.step a st) as [st1|] eqn:Es; [|discriminate].
        apply (IH st1); [|exact Hexec]. clear -Hsh Es.
        unfold UnixLoop.step in Es.
        destruct st as [os lk li dn rl dp sh lc rd ex]. cbn in *. subst sh.
        destruct ex; [discriminate|].
        destruct a; try discriminate;
          repeat match type of Es with
                 | match ?x with _ => _ end = _ => destruct x; try discriminate
                 end; injection Es as <-; reflexivity. }
    destruct (UnixLoop.exited st') eqn:Eex; [|reflexivity].
    rewrite (Hall _ _ Hrun') in Hsh'; [discriminate|]. rewrite Eex. discriminate.
Qed.

Lemma fatal_exit_only_before_shutdown_witness :
  exists st,
    UnixLoop.relay st = UnixLoop.Returned /\
    UnixLoop.exited st = None.
Proof.
  destruct sample_clean_run as (st & Hrun & Hpc & _).
  exists st. split; [exact Hpc|].
  assert (Hsh : UnixLoop.shutdown_closed st = true).
  { destruct Hrun as (d & w' & st0 & H1 & H2 & H3).
    vm_compute in H1. injection H1 as <- <-.
    vm_compute in H2. injection H2 as <-.
    vm_compute in H3. injection H3 as <-. reflexivity. }
  exact (proj2 (fatal_exit_only_before_shutdown _ _ _ _ st Hrun) Hsh [] st eq_refl).
Defined.

(** X9. A connection is accepted, and handed to a reader, only while the
    lock is held: in the state before and in the state after such a move the
    lock file is locked. *)
Theorem served_only_under_lock (s : Server) (addr : UnixAddr) (w : World)
    (acts : list UnixLoop.Action) (st st' : UnixLoop.Sys) (a : UnixLoop.Action) :
  unix_run_to s addr w acts st ->
  UnixLoop.step a st = Some st' ->
  accepted [a] <> [] \/ UnixLoop.readers st' <> UnixLoop.readers st ->
  lockname addr ∈ flocks (UnixLoop.os st) /\
  lockname addr ∈ flocks (UnixLoop.os st').
Proof.
  intros Hrun Hstep Hmove.
  destruct (unix_run_to_inv _ _ _ _ _ Hrun)
    as (d & w' & _ & _ & _ & _ & _ & _ & _ & _ & Hinv & _).
  destruct Hinv as (_ & _ & _ & _ & new & _ & Hpc).
  unfold UnixLoop.step in Hstep.
  destruct st as [os lk li dn rl dp sh lc rd ex]. cbn in *.
  destruct ex; [discriminate|].
  destruct a; cbn in Hmove.
  - destruct sh; [discriminate|]. injection Hstep as <-. cbn in Hmove.
    destruct Hmove; contradiction.
  - destruct rl; try discriminate. destruct lc; [discriminate|].
    injection Hstep as <-. cbn. tauto.
  - destruct rl; try discriminate.
    destruct sh; injection Hstep as <-; cbn in Hmove; destruct Hmove; contradiction.
  - destruct rl; try discriminate. destruct dp; try discriminate.
    injection Hstep as <-. cbn. tauto.
  - destruct dp; try discriminate. destruct sh; [|discriminate].
    injection Hstep as <-. cbn in Hmove. destruct Hmove; contradiction.
  - destruct rl; try discriminate. injection Hstep as <-. cbn in Hmove.
    destruct Hmove; contradiction.
  - destruct rl; try discriminate. injection Hstep as <-. cbn in Hmove.
    destruct Hmove; contradiction.
Qed.

Lemma served_only_under_lock_witness :
  exists st st',
    UnixLoop.step UnixLoop.HandOver st = Some st' /\
    UnixLoop.readers st' = [UnixLoop.mkConn 1] /\
    lockname unix0 ∈ flocks (UnixLoop.os st').
Proof.
  destruct sample_serving_run as (st & Hrun & Hpc).
  destruct (UnixLoop.step UnixLoop.HandOver st) as [st'|] eqn:E.
  - assert (Hrd : UnixLoop.readers st' = [UnixLoop.mkConn 1]).
    { destruct Hrun as (d & w' & st0 & H1 & H2 & H3).
      vm_compute in H1. injection H1 as <- <-.
      vm_compute in H2. injection H2 as <-.
      vm_compute in H3. injection H3 as <-.
      vm_compute in E. injection E as <-. reflexivity. }
    exists st, st'. split; [exact E|]. split; [exact Hrd|].
    refine (proj2 (served_only_under_lock _ _ _ _ st st' _ Hrun E _)).
    right. rewrite Hrd.
    destruct Hrun as (d & w' & st0 & H1 & H2 & H3).
    vm_compute in H1. injection H1 as <- <-.
    vm_compute in H2. injection H2 as <-.
    vm_compute in H3. injection H3 as <-. discriminate.
  - exfalso. destruct Hrun as (d & w' & st0 & H1 & H2 & H3).
    vm_compute in H1. injection H1 as <- <-.
    vm_compute in H2. injection H2 as <-.
    vm_compute in H3. injection H3 as <-. vm_compute in E. discriminate E.
Defined.

(** X10. [listener.Close()] is called at most once: it has been called
    exactly once when the dispatch task has returned, which is exactly when
    the listener is closed, and not at all before. *)
Theorem listener_closed_once (s : Server) (addr : UnixAddr) (w : World)
    (acts : list UnixLoop.Action) (st : UnixLoop.Sys) :
  unix_run_to s addr w acts st ->
  listener_closes (unix_name addr) (since w (UnixLoop.os st)) =
    (if UnixLoop.listener_closed st then 1 else 0) /\
  (UnixLoop.listener_closed st = true <->
   UnixLoop.dispatch st = UnixLoop.DispatchReturned).
Proof.
  intros Hrun.
  destruct (unix_run_to_inv _ _ _ _ _ Hrun)
    as (d & w' & _ & _ & _ & _ & _ & _ & _ & (r & Hsetup) & _ & Hinv2).
  destruct Hinv2 as (_ & _ & _ & _ & Hlcd & _ & _ & new & Hnew & Hcount).
  rewrite (loop_calls_since w w' _ new st Hsetup Hnew).
  unfold listener_closes in *. rewrite count_calls_app, Hcount, Hlcd.
  split; [reflexivity|].
  destruct (UnixLoop.dispatch st); cbn; split; congruence.
Qed.

Lemma listener_closed_once_witness :
  exists st,
    UnixLoop.dispatch st = UnixLoop.DispatchReturned /\
    listener_closes (unix_name unix0) (since world_stale (UnixLoop.os st)) = 1.
Proof.
  destruct sample_clean_run as (st & Hrun & _ & Hdp).
  exists st. split; [exact Hdp|].
  destruct (listener_closed_once _ _ _ _ st Hrun) as (Hcount & Hiff).
  rewrite Hcount, (proj2 Hiff Hdp). reflexivity.
Defined.

(** X11. A run that cannot move any more has ended in one of three ways:
    the process has exited; or both tasks have returned, with the listener
    closed, the lock free and [done] closed; or the dispatch task has
    returned and the accept-relay task is blocked for good in its send, with
    the listener closed, the lock still held and [done] open. In the last
    two [s.shutdown] is closed. *)
Theorem unix_run_ends (s : Server) (addr : UnixAddr) (w : World)
    (acts : list UnixLoop.Action) (st : UnixLoop.Sys) :
  unix_run_to s addr w acts st ->
  stuck st ->
  UnixLoop.exited st <> None \/
  (UnixLoop.shutdown_closed st = true /\ UnixLoop.listener_closed st = true /\
   UnixLoop.dispatch st = UnixLoop.DispatchReturned /\
   ((UnixLoop.relay st = UnixLoop.Returned /\
     (lockname addr ∉ flocks (UnixLoop.os st)) /\
     done_closes (mkDoneChan (next_chan w)) (since w (UnixLoop.os st)) = 1) \/
    ((exists c, UnixLoop.relay st = UnixLoop.Sending c) /\
     lockname addr ∈ flocks (UnixLoop.os st) /\
     done_closes (mkDoneChan (next_chan w)) (since w (UnixLoop.os st)) = 0))).
Proof.
  intros Hrun Hstuck.
  destruct (unix_run_to_inv _ _ _ _ _ Hrun)
    as (d & w' & _ & _ & _ & _ & _ & _ & Hd & (r & Hsetup) & Hinv & Hinv2).
  destruct Hinv as (_ & _ & _ & _ & new & Hnew & Hpc).
  destruct Hinv2 as (_ & _ & _ & _ & Hlcd & _).
  rewrite (loop_calls_since w w' _ new st Hsetup Hnew).
  unfold done_closes in *. rewrite count_calls_app. subst d.
  destruct (UnixLoop.exited st) as [code|] eqn:Eex; [left; discriminate|].
  right.
  pose proof (Hstuck UnixLoop.CloseShutdown) as H1.
  pose proof (Hstuck UnixLoop.ObserveShutdown) as H2.
  pose proof (Hstuck (UnixLoop.AcceptFails "")) as H3.
  pose proof (Hstuck UnixLoop.RunUnlock) as H4.
  pose proof (Hstuck UnixLoop.RunCloseDone) as H5.
  unfold UnixLoop.step in H1, H2, H3, H4, H5. rewrite Eex in H1, H2, H3, H4, H5.
  destruct (UnixLoop.shutdown_closed st) eqn:Esh; [|discriminate H1].
  destruct (UnixLoop.dispatch st) eqn:Edp; [discriminate H2|].
  cbn in Hlcd. split; [reflexivity|]. split; [exact Hlcd|]. split; [reflexivity|].
  destruct (UnixLoop.relay st) eqn:Erl; try discriminate.
  - right. destruct Hpc as (_ & Hdc & Hheld). split; [eauto|].
    split; [exact Hheld|]. cbn. exact Hdc.
  - left. destruct Hpc as (_ & Hdc & Hfree & _). split; [reflexivity|].
    split; [exact Hfree|]. cbn. exact Hdc.
Qed.

Lemma unix_run_ends_witness :
  exists st,
    stuck st /\ UnixLoop.relay st = UnixLoop.Returned /\
    (lockname unix0 ∉ flocks (UnixLoop.os st)).
Proof.
  destruct sample_clean_run as (st & Hrun & Hpc & Hdp).
  assert (Hstuck : stuck st).
  { destruct Hrun as (d & w' & st0 & H1 & H2 & H3).
    vm_compute in H1. injection H1 as <- <-.
    vm_compute in H2. injection H2 as <-.
    vm_compute in H3. injection H3 as <-.
    intros a. destruct a; reflexivity. }
  exists st. split; [exact Hstuck|]. split; [exact Hpc|].
  destruct (unix_run_ends _ _ _ _ st Hrun Hstuck)
    as [Hex|(_ & _ & _ & [(_ & Hfree & _)|((c & Hc) & _)])].
  - exfalso. apply Hex.
    destruct Hrun as (d & w' & st0 & H1 & H2 & H3).
    vm_compute in H1. injection H1 as <- <-.
    vm_compute in H2. injection H2 as <-.
    vm_compute in H3. injection H3 as <-. reflexivity.
  - exact Hfree.
  - rewrite Hpc in Hc. discriminate Hc.
Defined.

(** ** Set-up: what a failure leaves behind *)

(** X12. A socket that cannot be made shows differently on the two UDP
    intakes. [StartStatsd] on a UDP address returns whatever the environment
    does, having made no call and logged nothing itself: the failure shows
    in each worker, which ends by handing the panic to [ConsumePanic] with
    the server's host name and logs nothing. [StartSSF] on a UDP address
    panics in the caller and starts no goroutine. *)
Theorem udp_socket_failure (s : Server) (addr : UDPAddr) (w : World) :
  (exists w',
     Net.StartStatsd s (AddrUDP addr) w = Ok tt w' /\
     calls w' = calls w /\ logs w' = logs w) /\
  (forall e,
     socket_error (faults w) addr (negb (numReaders s =? 1)%Z) = Some e ->
     exists msg w',
       Net.statsdUDPWorker s addr w =
         Ok (Net.ConsumePanic (Hostname s) msg) w' /\
       logs w' = logs w /\ goroutines w' = goroutines w) /\
  (forall e,
     socket_error (faults w) addr (1 <? numReaders s)%Z = Some e ->
     exists msg w',
       Net.StartSSF s (AddrUDP addr) w = Panic msg w' /\
       logs w' = logs w /\ goroutines w' = goroutines w).
Proof.
  split; [|split].
  - cbn [Net.StartStatsd]. unfold Net.startStatsdUDP. rewrite for_range_go.
    eexists. split; [reflexivity|]. split; reflexivity.
  - intros e He. unfold Net.statsdUDPWorker, bind, NewSocket. rewrite He.
    eexists _, _. split; [reflexivity|]. split; reflexivity.
  - intros e He. unfold Net.StartSSF, Net.startSSFUDP, bind, NewSocket.
    rewrite He. eexists _, _. split; [reflexivity|]. split; reflexivity.
Qed.

Lemma udp_socket_failure_witness :
  exists msg w',
    Net.StartSSF (server_with 2 None) (AddrUDP udp0) world_nosocket
      = Panic msg w' /\
    goroutines w' = goroutines world_nosocket.
Proof.
  destruct (proj2 (proj2 (udp_socket_failure (server_with 2 None) udp0
                            world_nosocket)) "protocol not available" eq_refl)
    as (msg & w' & Hrun & _ & Hgs).
  exists msg, w'. split; [exact Hrun|exact Hgs].
Defined.

(** X13. With a reader count of zero or less, [StartStatsd] on a UDP address
    returns and has done nothing at all: no socket, no goroutine, no log
    entry, no panic. *)
Theorem statsd_udp_no_readers (s : Server) (addr : UDPAddr) (w : World) :
  (numReaders s <= 0)%Z ->
  Net.StartStatsd s (AddrUDP addr) w = Ok tt w.
Proof.
  intros HN. cbn [Net.StartStatsd]. unfold Net.startStatsdUDP.
  rewrite for_range_go. replace (Z.to_nat (numReaders s)) with 0 by lia.
  destruct w; cbn. rewrite app_nil_r. reflexivity.
Qed.

Lemma statsd_udp_no_readers_witness :
  Net.StartStatsd (server_with 0 None) (AddrUDP udp0) world0 = Ok tt world0.
Proof.
  apply (statsd_udp_no_readers (server_with 0 None) udp0 world0).
  cbn. lia.
Defined.

Lemma startSSFUnix_panic_quiet (s : Server) (addr : UnixAddr) (w : World) msg w' :
  Net.startSSFUnix s addr w = Panic msg w' ->
  goroutines w' = goroutines w /\ logs w' = logs w.
Proof.
  destruct w as [fs ls [f1 f2 f3 f4 f5 f6] nc gs lg cs].
  unfold Net.startSSFUnix, bind, make_chan, TryLock, Remove, ListenUnix, Chmod,
    go, ret, panic, add_call, set_flocks, set_files, bump_chan, add_goroutine.
  cbn.
  destruct (String.eqb (unix_net addr) "unix"); cbn.
  2: { intros [= <- <-]. split; reflexivity. }
  destruct f3 as [e|]; cbn.
  { intros [= <- <-]. split; reflexivity. }
  destruct (bool_decide_reflect (unix_name addr +:+ ".lock" ∈ ls)); cbn.
  { intros [= <- <-]. split; reflexivity. }
  destruct (abstract_name (unix_name addr)); cbn.
  all: repeat (split_setup; cbn in * );
    intros H; try discriminate H; injection H as <- <-; split; reflexivity.
Qed.

(** X14. A set-up that panics has started no goroutine and logged nothing:
    this holds of [StartStatsd] and of [StartSSF] on every address and in
    every environment. *)
Theorem panic_starts_nothing (s : Server) (a : Addr) (w : World) msg w' :
  Net.StartStatsd s a w = Panic msg w' \/ Net.StartSSF s a w = Panic msg w' ->
  goroutines w' = goroutines w /\ logs w' = logs w.
Proof.
  intros [H|H].
  - destruct a; cbn [Net.StartStatsd] in H;
      try (injection H as <- <-; split; reflexivity).
    + unfold Net.startStatsdUDP in H. rewrite for_range_go in H. discriminate H.
    + unfold Net.startStatsdTCP, bind, ListenTCP in H.
      destruct (listen_tcp_error (faults w)).
      * injection H as <- <-. split; reflexivity.
      * destruct (tlsConfig s); discriminate H.
  - unfold Net.StartSSF, bind in H. destruct a;
      try (injection H as <- <-; split; reflexivity).
    + unfold Net.startSSFUDP, bind, NewSocket in H.
      destruct (socket_error _ _ _).
      * injection H as <- <-. split; reflexivity.
      * discriminate H.
    + destruct (Net.startSSFUnix s a w) as [d w1|m w1] eqn:E.
      * discriminate H.
      * injection H as <- <-. eapply startSSFUnix_panic_quiet, E.
Qed.

Lemma panic_starts_nothing_witness :
  exists msg w',
    Net.StartSSF (server_with 1 None) (AddrUnix unix0) world_nobind
      = Panic msg w' /\
    goroutines w' = goroutines world_nobind /\ logs w' = logs world_nobind.
Proof.
  destruct (Net.StartSSF (server_with 1 None) (AddrUnix unix0) world_nobind)
    as [u w'|msg w'] eqn:E.
  - exfalso. vm_compute in E. discriminate E.
  - exists msg, w'. split; [reflexivity|].
    exact (panic_starts_nothing (server_with 1 None) (AddrUnix unix0)
             world_nobind msg w' (or_intror E)).
Defined.

(** X15. When [StartSSF] returns, it has started exactly one goroutine and
    logged exactly one entry, the last one, with the address and its
    network; the address was a UDP or a Unix-domain one. *)
Theorem StartSSF_returns (s : Server) (a : Addr) (w w' : World) :
  Net.StartSSF s a w = Ok tt w' ->
  (is_udp a = true \/ is_unix a = true) /\
  (exists g, goroutines w' = goroutines w ++ [g]) /\
  logs w' = logs w ++
    [mkLog Info [("address", addr_String a); ("network", addr_Network a)]
       "Listening for SSF traces"].
Proof.
  intros H. unfold Net.StartSSF, bind in H. destruct a; try discriminate H.
  - unfold Net.startSSFUDP, bind, NewSocket in H.
    destruct (socket_error _ _ _); [discriminate H|].
    cbn in H. injection H as <-. cbn.
    split; [left; reflexivity|]. split; [eexists; reflexivity|reflexivity].
  - destruct (Net.startSSFUnix s a w) as [d w1|m w1] eqn:E; [|discriminate H].
    cbn in H. injection H as <-. cbn.
    pose proof (startSSFUnix_ends s a w) as Hends. rewrite E in Hends.
    inversion Hends as [| | | | |w2 r Hnet Hfree Hferr Hcalls Hr Habs Henv Hfl Hfi Hfa Hlg Hgs];
      subst.
    split; [right; reflexivity|]. split; [eexists; exact Hgs|].
    rewrite Hlg. reflexivity.
Qed.

Lemma StartSSF_returns_witness :
  exists w',
    Net.StartSSF (server_with 1 None) (AddrUnix unix0) world_stale = Ok tt w' /\
    logs w' =
      [mkLog Info [("address", "/tmp/ssf.sock"); ("network", "unix")]
         "Listening for SSF traces"].
Proof.
  destruct (Net.StartSSF (server_with 1 None) (AddrUnix unix0) world_stale)
    as [[] w'|msg w'] eqn:E.
  - exists w'. split; [reflexivity|].
    exact (proj2 (proj2 (StartSSF_returns _ _ _ _ E))).
  - exfalso. vm_compute in E. discriminate E.
Defined.

(** ** When [StartStatsd] returns *)

(** X25. [StartStatsd] returns exactly when the address is a UDP one, or a
    TCP one whose listener can be bound. When the TCP listener cannot be
    bound, it panics after its one [ListenTCP] call, with a message that
    names the address and the error, whatever the TLS configuration, and
    has started and logged nothing. *)
Theorem StartStatsd_returns_iff (s : Server) (a : Addr) (w : World) :
  ((exists w', Net.StartStatsd s a w = Ok tt w') <->
   (is_udp a = true \/
    (is_tcp a = true /\ listen_tcp_error (faults w) = None))) /\
  (forall addr e,
     a = AddrTCP addr -> listen_tcp_error (faults w) = Some e ->
     exists w',
       Net.StartStatsd s a w =
         Panic ("couldn't listen on TCP socket " +:+ addr_String a
                +:+ ": " +:+ e) w' /\
       calls w' = calls w ++ [CallListenTCP addr false] /\
       goroutines w' = goroutines w /\ logs w' = logs w).
Proof.
  split.
  - destruct a as [u|t|x|ip|n repr]; cbn [Net.StartStatsd is_udp is_tcp].
    + split; [intros _; left; reflexivity|]. intros _.
      destruct (startStatsdUDP_spawns s u w) as (w' & H & _).
      exists w'. exact H.
    + unfold Net.startStatsdTCP, bind, ListenTCP.
      destruct (listen_tcp_error (faults w)) as [e|].
      * split; [intros (w' & H); discriminate H|].
        intros [H|[_ H]]; discriminate H.
      * split; [intros _; right; split; reflexivity|]. intros _.
        destruct (tlsConfig s) as [cfg|]; eexists; reflexivity.
    + split; [intros (w' & H); discriminate H|].
      intros [H|[H _]]; discriminate H.
    + split; [intros (w' & H); discriminate H|].
      intros [H|[H _]]; discriminate H.
    + split; [intros (w' & H); discriminate H|].
      intros [H|[H _]]; discriminate H.
  - intros addr e -> He. cbn [Net.StartStatsd].
    unfold Net.startStatsdTCP, bind, ListenTCP. rewrite He.
    eexists. split; [reflexivity|]. cbn. repeat split; reflexivity.
Qed.

(** * Further properties of the parser *)

(** ** [parseSoftnetRecord] *)

Lemma parseSoftnetRecord_from_first_failure (good : list string) (vals : list Z) :
  Forall2 Softnet.decodes good vals ->
  forall (bad : string) (rest : list string) (v : Z) (e : Strconv.NumError)
         (i : nat) (r : list Z),
    Strconv.ParseInt bad 16 64 = (v, Some e) ->
    Softnet.parseSoftnetRecord_from i (good ++ bad :: rest) r
    = ([], Some (Softnet.NumError e)).
Proof.
  induction 1 as [|c n good vals Hc _ IH]; intros bad rest v e i r Hbad.
  - cbn. rewrite Hbad. reflexivity.
  - cbn [app Softnet.parseSoftnetRecord_from]. unfold Softnet.decodes in Hc.
    rewrite Hc. eapply IH, Hbad.
Qed.

Lemma parseSoftnetRecord_from_success (cs : list string) : forall (done vals : list Z),
  Softnet.parseSoftnetRecord_from (length done) cs
    (done ++ replicate (length cs) 0%Z) = (vals, None) ->
  exists vs, vals = done ++ vs /\ Forall2 Softnet.decodes cs vs.
Proof.
  intros done vals H.
  destruct (row_decodes_or_fails cs) as [[vs Hvs]|Hfail].
  - rewrite (parseSoftnetRecord_from_ok cs vs Hvs done) in H.
    injection H as <-. exists vs. split; [reflexivity|exact Hvs].
  - destruct (parseSoftnetRecord_from_fails cs (length done)
                (done ++ replicate (length cs) 0%Z) Hfail) as (e & He).
    rewrite He in H. discriminate H.
Qed.

(** X16. [parseSoftnetRecord] succeeds with the values [vals] exactly when
    [vals] are the decodings of the fields, one for each field and in their
    order. *)
Theorem parseSoftnetRecord_decodes (row : list string) (vals : list Z) :
  Softnet.parseSoftnetRecord row = (vals, None) <->
  Forall2 Softnet.decodes row vals.
Proof.
  split.
  - intros H. destruct (parseSoftnetRecord_from_success row [] vals H)
      as (vs & -> & Hvs). exact Hvs.
  - apply parseSoftnetRecord_ok.
Qed.

(** X17. When a field fails to decode, [parseSoftnetRecord] returns no
    values and the error of the leftmost such field; the fields to its right
    are not looked at. *)
Theorem parseSoftnetRecord_first_error (good rest : list string) (bad : string)
    (vals : list Z) (v : Z) (e : Strconv.NumError) :
  Forall2 Softnet.decodes good vals ->
  Strconv.ParseInt bad 16 64 = (v, Some e) ->
  Softnet.parseSoftnetRecord (good ++ bad :: rest)
  = ([], Some (Softnet.NumError e)) /\
  Strconv.Num e = bad.
Proof.
  intros Hgood Hbad. split.
  - unfold Softnet.parseSoftnetRecord.
    eapply parseSoftnetRecord_from_first_failure; eassumption.
  - unfold Strconv.ParseInt in Hbad. destruct bad as [|c0 s1].
    + injection Hbad as _ <-. reflexivity.
    + destruct (if Ascii.eqb c0 "+" then _ else _) as [neg digits].
      destruct (Strconv.ParseUint digits 16 64) as [un err].
      destruct (match err with Some _ => _ | None => _ end).
      * injection Hbad as _ <-. reflexivity.
      * cbv zeta in Hbad.
        destruct (negb neg && _); [injection Hbad as _ <-; reflexivity|].
        destruct (neg && _); [injection Hbad as _ <-; reflexivity|].
        discriminate Hbad.
Qed.

Lemma parseSoftnetRecord_first_error_witness :
  Softnet.parseSoftnetRecord sample_bad
  = ([], Some (Softnet.NumError
                 (Strconv.mkNumError "ParseInt" "x3" Strconv.ErrSyntax))).
Proof.
  assert (Hgood : Forall2 Softnet.decodes ["1"; "2"] [1; 2]%Z)
    by (repeat constructor).
  exact (proj1 (parseSoftnetRecord_first_error ["1"; "2"] ["zz"] "x3"
                  [1; 2]%Z 0%Z _ Hgood eq_refl)).
Defined.

(** ** The range of a field *)

Lemma parseUintLoop_hex_wide (s : string) : forall n v,
  (0 <= n < 2 ^ 64)%Z -> Softnet.hexValue_from n s = Some v ->
  ((v < 2 ^ 64)%Z ->
   Strconv.parseUintLoop 16 (Strconv.maxUint64 / 16 + 1) (2 ^ 64 - 1) s n
   = (v, None)) /\
  ((2 ^ 64 <= v)%Z ->
   Strconv.parseUintLoop 16 (Strconv.maxUint64 / 16 + 1) (2 ^ 64 - 1) s n
   = ((2 ^ 64 - 1)%Z, Some Strconv.ErrRange)).
Proof.
  assert (H60 : (Strconv.maxUint64 / 16 + 1 = 1152921504606846976)%Z)
    by reflexivity.
  assert (H64 : (2 ^ 64 = 18446744073709551616)%Z) by reflexivity.
  induction s as [|c s IH]; intros n v Hn H; cbn in H.
  - injection H as <-. split; [reflexivity|lia].
  - destruct (Softnet.hexDigit c) as [d|] eqn:Ed; [|discriminate].
    apply hexDigit_digit in Ed as [Hdig Hd].
    assert (Hge : (16 * n + d <= v)%Z)
      by (apply (hexValue_from_ge s); [lia|exact H]).
    cbn [Strconv.parseUintLoop]. rewrite Hdig.
    destruct (Z.geb_spec d 16); [lia|].
    destruct (Z.geb_spec n (Strconv.maxUint64 / 16 + 1)).
    + split; [lia|reflexivity].
    + unfold Strconv.u64.
      rewrite (Z.mod_small (n * 16)) by lia.
      rewrite (Z.mod_small (n * 16 + d)) by lia.
      destruct (Z.ltb_spec (n * 16 + d) (n * 16)); [lia|].
      destruct (Z.gtb_spec (n * 16 + d) (2 ^ 64 - 1)); [lia|].
      cbn [orb]. apply IH; [lia|].
      replace (n * 16 + d)%Z with (16 * n + d)%Z by lia. exact H.
Qed.

(** A field of hexadecimal digits whose value is 2^63 or more is out of
    range. *)
Lemma hex_field_out_of_range (f : string) (v : Z) :
  Softnet.hexValue f = Some v -> (2 ^ 63 <= v)%Z ->
  Strconv.ParseInt f 16 64 =
  ((2 ^ 63 - 1)%Z, Some (Strconv.mkNumError "ParseInt" f Strconv.ErrRange)).
Proof.
  assert (H64 : (2 ^ 64 = 18446744073709551616)%Z) by reflexivity.
  assert (H63 : (2 ^ 63 = 9223372036854775808)%Z) by reflexivity.
  unfold Softnet.hexValue. intros H Hv.
  destruct f as [|c0 s1]; [discriminate|].
  destruct (parseUintLoop_hex_wide (String c0 s1) 0 v ltac:(lia) H) as [Hsmall Hbig].
  assert (Hc0 : exists d, Softnet.hexDigit c0 = Some d).
  { cbn in H. destruct (Softnet.hexDigit c0); [eauto|discriminate]. }
  destruct Hc0 as (d & Hd).
  unfold Strconv.ParseInt.
  destruct (Ascii.eqb_spec c0 "+") as [->|_]; [discriminate Hd|].
  destruct (Ascii.eqb_spec c0 "-") as [->|_]; [discriminate Hd|].
  rewrite ParseUint_16_64 by discriminate.
  change (2 ^ (64 - 1))%Z with (2 ^ 63)%Z.
  destruct (Z.lt_ge_cases v (2 ^ 64)) as [Hlt|Hge].
  - rewrite (Hsmall Hlt). cbn [negb andb].
    destruct (Z.geb_spec v (2 ^ 63)); [reflexivity|lia].
  - rewrite (Hbig Hge). cbn [Strconv.Why negb andb]. reflexivity.
Qed.

(** X18. On fields of hexadecimal digits, [parseSoftnetRecord] returns their
    values when all values are below 2^63, and otherwise returns no values
    and a range error: a counter does not wrap and is not cut to 63 bits. *)
Theorem parseSoftnetRecord_hex_range (row : list string) (vals : list Z) :
  Forall2 (fun f v => Softnet.hexValue f = Some v) row vals ->
  (Forall (fun v => (v < 2 ^ 63)%Z) vals ->
   Softnet.parseSoftnetRecord row = (vals, None)) /\
  (Exists (fun v => (2 ^ 63 <= v)%Z) vals ->
   exists e,
     Softnet.parseSoftnetRecord row = ([], Some (Softnet.NumError e)) /\
     Strconv.Why e = Strconv.ErrRange).
Proof.
  intros Hhex. split.
  - intros Hsmall. apply parseSoftnetRecord_ok.
    induction Hhex as [|f v row vals Hf _ IH]; constructor.
    + apply hex_field_decodes; [exact Hf|]. apply Forall_inv in Hsmall. exact Hsmall.
    + apply IH. apply Forall_inv_tail in Hsmall. exact Hsmall.
  - intros Hbig. unfold Softnet.parseSoftnetRecord.
    generalize (replicate (length row) 0%Z) as r. generalize 0 as i.
    induction Hhex as [|f v row vals Hf _ IH]; intros i r.
    + inversion Hbig.
    + cbn [Softnet.parseSoftnetRecord_from].
      destruct (Z.lt_ge_cases v (2 ^ 63)) as [Hlt|Hge].
      * pose proof (hex_field_decodes f v Hf Hlt) as Hdec.
        unfold Softnet.decodes in Hdec. rewrite Hdec. apply IH.
        inversion Hbig; subst; [lia|assumption].
      * rewrite (hex_field_out_of_range f v Hf Hge).
        eexists. split; reflexivity.
Qed.

Lemma parseSoftnetRecord_hex_range_witness :
  exists e,
    Softnet.parseSoftnetRecord sample_big = ([], Some (Softnet.NumError e)) /\
    Strconv.Why e = Strconv.ErrRange.
Proof.
  assert (Hhex : Forall2 (fun f v => Softnet.hexValue f = Some v) sample_big
                   [9223372036854775807; 9223372036854775808]%Z)
    by (repeat constructor).
  refine (proj2 (parseSoftnetRecord_hex_range _ _ Hhex) _).
  apply Exists_cons_tl, Exists_cons_hd. vm_compute. discriminate.
Defined.

(** ** Line ends and blank lines *)

Lemma rawLines_terminator (b : bool) (rest : string) :
  Csv.rawLines (terminator b +:+ rest) = terminator b :: Csv.rawLines rest.
Proof. destruct b; reflexivity. Qed.

Lemma readLines_blank_lines (bs : list bool) (rest : string) :
  Csv.readLines (blank_lines bs +:+ rest) =
  replicate (length bs) (String LF EmptyString) ++ Csv.readLines rest.
Proof.
  unfold Csv.readLines. induction bs as [|b bs IH]; [reflexivity|].
  cbn [blank_lines length replicate app]. rewrite append_assoc.
  rewrite rawLines_terminator, fmap_cons, IH. f_equal.
  destruct b; reflexivity.
Qed.

Lemma normLine_crlf (a : string) :
  hasByte CR a = false ->
  Csv.normLine (a +:+ terminator true) = a +:+ String LF EmptyString.
Proof.
  induction a as [|c a IH]; intros H; [reflexivity|].
  cbn in H. apply orb_false_elim in H as [Hc Ha]. rewrite !append_cons.
  cbn [Csv.normLine]. rewrite Hc, (IH Ha). reflexivity.
Qed.

Lemma readLines_row (row : list string) (b : bool) (rest : string) :
  Forall Softnet.plain row ->
  Csv.readLines (join SP row +:+ terminator b +:+ rest) =
  Softnet.row_text row :: Csv.readLines rest.
Proof.
  intros Hrow. destruct (plain_join row Hrow) as [Hlf Hcr].
  unfold Csv.readLines. destruct b.
  - change (terminator true +:+ rest)
      with (String CR EmptyString +:+ String LF rest).
    rewrite <- append_assoc.
    rewrite rawLines_line by (rewrite hasByte_append, Hlf; reflexivity).
    rewrite fmap_cons. f_equal. rewrite append_assoc.
    exact (normLine_crlf (join SP row) Hcr).
  - change (terminator false +:+ rest) with (String LF rest).
    rewrite rawLines_line by exact Hlf. rewrite fmap_cons. f_equal.
    exact (normLine_row row Hrow).
Qed.

Lemma readLines_loose (rows : list (list string * (bool * list bool))) :
  Forall (Forall Softnet.plain) (fst <$> rows) ->
  Csv.readLines (loose_text rows) = loose_lines rows.
Proof.
  induction rows as [|[row [b bs]] rows IH]; intros H; [reflexivity|].
  rewrite fmap_cons in H. cbn [fst] in H.
  cbn [loose_text loose_lines flat_map fst snd app].
  rewrite readLines_row by (apply Forall_inv in H; exact H).
  rewrite readLines_blank_lines.
  rewrite IH by (apply Forall_inv_tail in H; exact H). reflexivity.
Qed.

Lemma loose_lines_length (rows : list (list string * (bool * list bool))) :
  length rows <= length (loose_lines rows).
Proof.
  induction rows as [|[row [b bs]] rows IH]; [reflexivity|].
  cbn [loose_lines flat_map fst snd app length].
  rewrite length_app. fold (loose_lines rows). lia.
Qed.

Lemma skipEmpty_blanks (k : nat) (lines : list string) :
  Csv.skipEmpty (replicate k (String LF EmptyString) ++ lines)
  = Csv.skipEmpty lines.
Proof. induction k as [|k IH]; [reflexivity|exact IH]. Qed.

Lemma readAllLoop_blanks (fuel : nat) (c : ascii) (fpr : Z) (k : nat)
    (lines : list string) (acc : list (list string)) :
  Csv.readAllLoop fuel c fpr (replicate k (String LF EmptyString) ++ lines) acc
  = Csv.readAllLoop fuel c fpr lines acc.
Proof.
  destruct fuel; [reflexivity|]. cbn [Csv.readAllLoop]. unfold Csv.readRecord.
  rewrite skipEmpty_blanks. reflexivity.
Qed.

Lemma readAllLoop_loose (rows : list (list string * (bool * list bool))) :
  forall (fuel : nat) (more : list string) (acc : list (list string)),
  Forall (Forall Softnet.plain) (fst <$> rows) ->
  Forall Softnet.nonblank (fst <$> rows) ->
  Csv.readAllLoop (length rows + fuel) SP (-1) (loose_lines rows ++ more) acc
  = Csv.readAllLoop fuel SP (-1) more (acc ++ (fst <$> rows)).
Proof.
  induction rows as [|[row [b bs]] rows IH]; intros fuel more acc Hp Hn.
  - cbn. rewrite app_nil_r. reflexivity.
  - rewrite fmap_cons in Hp, Hn. cbn [fst] in Hp, Hn.
    cbn [loose_lines flat_map fst snd length Nat.add app].
    fold (loose_lines rows). rewrite <- app_assoc.
    cbn [Csv.readAllLoop]. unfold Softnet.row_text at 1.
    rewrite readRecord_row;
      [|apply Forall_inv in Hp; exact Hp
       |apply Forall_inv in Hn; exact Hn|left; reflexivity].
    change (0 <? -1)%Z with false. change (-1 =? 0)%Z with false. cbv iota.
    rewrite readAllLoop_blanks.
    rewrite IH;
      [|apply Forall_inv_tail in Hp; exact Hp
       |apply Forall_inv_tail in Hn; exact Hn].
    rewrite fmap_cons, <- app_assoc. reflexivity.
Qed.

Lemma rows_of_loose (bs0 : list bool)
    (rows : list (list string * (bool * list bool))) :
  Forall (Forall Softnet.plain) (fst <$> rows) ->
  Forall Softnet.nonblank (fst <$> rows) ->
  rows_of (blank_lines bs0 +:+ loose_text rows) = inl (fst <$> rows).
Proof.
  intros Hp Hn. unfold rows_of. rewrite ReadAll_unfold.
  rewrite readLines_blank_lines, readLines_loose by exact Hp.
  rewrite readAllLoop_blanks.
  pose proof (loose_lines_length rows) as Hlen.
  set (n := length (replicate (length bs0) (String LF EmptyString)
                    ++ loose_lines rows)).
  assert (Hn' : length rows <= n) by (subst n; rewrite length_app; lia).
  replace (S n) with (length rows + S (n - length rows)) by lia.
  rewrite <- (app_nil_r (loose_lines rows)).
  rewrite readAllLoop_loose by assumption. reflexivity.
Qed.

(** What [parseSoftnet] answers depends on the input through its rows
    only. *)
Lemma parseSoftnet_same_rows (r1 r2 : string) (rows : list (list string)) :
  rows_of r1 = inl rows -> rows_of r2 = inl rows ->
  Softnet.parseSoftnet r1 = Softnet.parseSoftnet r2.
Proof.
  intros H1 H2. rewrite !parseSoftnet_unfold.
  pose proof (ReadAll_checked r1) as A. pose proof (ReadAll_checked r2) as B.
  rewrite H1 in A. rewrite H2 in B. rewrite A, B. reflexivity.
Qed.

(** X19. A report may end its rows with "\n" or "\r\n", each row by itself,
    and may have blank lines before, between and after its rows:
    [parseSoftnet] answers as on the same rows written with "\n" and no
    blank lines, whether that is a result or an error. *)
Theorem parseSoftnet_line_ends (bs0 : list bool)
    (rows : list (list string * (bool * list bool))) :
  Forall (Forall Softnet.plain) (fst <$> rows) ->
  Forall Softnet.nonblank (fst <$> rows) ->
  Softnet.parseSoftnet (blank_lines bs0 +:+ loose_text rows)
  = Softnet.parseSoftnet (Softnet.report_text (fst <$> rows)).
Proof.
  intros Hp Hn. apply (parseSoftnet_same_rows _ _ (fst <$> rows)).
  - apply rows_of_loose; assumption.
  - apply rows_of_report; assumption.
Qed.

Lemma sample_rows_plain :
  Forall (Forall Softnet.plain) [sample_row1; sample_row2] /\
  Forall Softnet.nonblank [sample_row1; sample_row2].
Proof.
  split.
  - repeat constructor.
  - repeat constructor; discriminate.
Qed.

Lemma parseSoftnet_line_ends_witness :
  Softnet.parseSoftnet (blank_lines [true] +:+ loose_text sample_loose)
  = Softnet.parseSoftnet (Softnet.report_text [sample_row1; sample_row2]).
Proof.
  exact (parseSoftnet_line_ends [true] sample_loose
           (proj1 sample_rows_plain) (proj2 sample_rows_plain)).
Defined.

(** ** What a result says about the input *)

Lemma parseSoftnet_success_rows (r : string) (sd : Softnet.SoftnetData) :
  Softnet.parseSoftnet r = Softnet.Returns (sd, None) ->
  exists rows valss,
    rows_of r = inl rows /\
    Forall (fun row => length row = 11) rows /\
    Forall2 (Forall2 Softnet.decodes) rows valss /\
    Forall2 (fun vals rec => Softnet.record_of vals = Some rec) valss
      (Softnet.Processors sd).
Proof.
  intros H. rewrite parseSoftnet_unfold in H.
  pose proof (ReadAll_checked r) as Hread.
  destruct (rows_of r) as [rows|e].
  - destruct (decide (Forall (fun row => length row = 11) rows)) as [Hall|Hall].
    + rewrite bool_decide_eq_true_2 in Hread by exact Hall. rewrite Hread in H.
      destruct (parseSoftnet_from_total rows 0
                  {| Softnet.Processors :=
                       replicate (length rows) Softnet.zeroProcessor |} Hall)
        as [(sd' & _ & valss & Hdec)|(e & He & _)].
      * destruct (decoded_rows_records rows valss Hdec Hall) as (recs & Hrecs).
        pose proof (parseSoftnet_from_ok rows valss recs Hdec Hrecs []) as Hok.
        cbn [length app] in Hok. rewrite Hok in H.
        assert (Hsd : sd = {| Softnet.Processors := recs |}) by congruence.
        subst sd. exists rows, valss. repeat split; assumption.
      * rewrite He in H. discriminate H.
    + rewrite bool_decide_eq_false_2 in Hread by exact Hall.
      rewrite Hread in H. discriminate H.
  - destruct Hread as (e' & Hread). rewrite Hread in H. discriminate H.
Qed.

(** X20. A result without an error says everything about the input: the
    reader split it into rows of 11 fields each, every field of every row
    decoded, and the result has one record for each row, in their order,
    made of that row's values. No row is skipped and none is made up. *)
Theorem parseSoftnet_success_complete (r : string) (sd : Softnet.SoftnetData) :
  Softnet.parseSoftnet r = Softnet.Returns (sd, None) ->
  exists rows valss,
    rows_of r = inl rows /\
    Forall (fun row => length row = 11) rows /\
    Forall2 (Forall2 Softnet.decodes) rows valss /\
    Forall2 (fun vals rec => Softnet.record_of vals = Some rec) valss
      (Softnet.Processors sd) /\
    length (Softnet.Processors sd) = length rows.
Proof.
  intros H.
  destruct (parseSoftnet_success_rows r sd H) as (rows & valss & Hr & Hl & Hd & Hrec).
  exists rows, valss. repeat split; try assumption.
  apply Forall2_length in Hd, Hrec. congruence.
Qed.

Lemma parseSoftnet_success_complete_witness :
  exists rows valss,
    rows_of (Softnet.report_text [sample_row1; sample_row2]) = inl rows /\
    Forall (fun row => length row = 11) rows /\
    Forall2 (Forall2 Softnet.decodes) rows valss /\
    Forall2 (fun vals rec => Softnet.record_of vals = Some rec) valss
      [Softnet.mkProcessor 1 2 3 4 5 6;
       Softnet.mkProcessor 41394 15 16 1 2 2147483647] /\
    2 = length rows.
Proof.
  exact (parseSoftnet_success_complete
           (Softnet.report_text [sample_row1; sample_row2])
           {| Softnet.Processors :=
                [Softnet.mkProcessor 1 2 3 4 5 6;
                 Softnet.mkProcessor 41394 15 16 1 2 2147483647] |}
           eq_refl).
Defined.

Lemma report_text_app (rows1 rows2 : list (list string)) :
  Softnet.report_text (rows1 ++ rows2)
  = Softnet.report_text rows1 +:+ Softnet.report_text rows2.
Proof.
  induction rows1 as [|row rows1 IH]; [reflexivity|].
  cbn [app Softnet.report_text]. rewrite IH, append_assoc. reflexivity.
Qed.

(** X21. Rows are parsed one by one: when two reports each parse without an
    error, the one followed by the other parses without an error, to the
    records of the first followed by the records of the second. *)
Theorem parseSoftnet_concat (rows1 rows2 : list (list string))
    (recs1 recs2 : list Softnet.SoftnetDataProcessor) :
  Forall (Forall Softnet.plain) (rows1 ++ rows2) ->
  Forall Softnet.nonblank (rows1 ++ rows2) ->
  Softnet.parseSoftnet (Softnet.report_text rows1)
    = Softnet.Returns ({| Softnet.Processors := recs1 |}, None) ->
  Softnet.parseSoftnet (Softnet.report_text rows2)
    = Softnet.Returns ({| Softnet.Processors := recs2 |}, None) ->
  Softnet.parseSoftnet (Softnet.report_text rows1 +:+ Softnet.report_text rows2)
    = Softnet.Returns ({| Softnet.Processors := recs1 ++ recs2 |}, None).
Proof.
  intros Hp Hn H1 H2.
  apply Forall_app in Hp as [Hp1 Hp2]. apply Forall_app in Hn as [Hn1 Hn2].
  destruct (parseSoftnet_success_rows _ _ H1) as (r1 & v1 & Hr1 & Hl1 & Hd1 & Hc1).
  destruct (parseSoftnet_success_rows _ _ H2) as (r2 & v2 & Hr2 & Hl2 & Hd2 & Hc2).
  rewrite rows_of_report in Hr1 by assumption.
  rewrite rows_of_report in Hr2 by assumption.
  injection Hr1 as <-. injection Hr2 as <-. cbn [Softnet.Processors] in Hc1, Hc2.
  rewrite <- report_text_app.
  apply (parseSoftnet_rows _ (rows1 ++ rows2) (v1 ++ v2)).
  - apply rows_of_report; apply Forall_app; split; assumption.
  - apply Forall_app; split; assumption.
  - apply Forall2_app; assumption.
  - apply Forall2_app; assumption.
Qed.

Lemma parseSoftnet_concat_witness :
  Softnet.parseSoftnet
    (Softnet.report_text [sample_row1] +:+ Softnet.report_text [sample_row2])
  = Softnet.Returns
      ({| Softnet.Processors :=
            [Softnet.mkProcessor 1 2 3 4 5 6] ++
            [Softnet.mkProcessor 41394 15 16 1 2 2147483647] |}, None).
Proof.
  exact (parseSoftnet_concat [sample_row1] [sample_row2] _ _
           (proj1 sample_rows_plain) (proj2 sample_rows_plain) eq_refl eq_refl).
Defined.

(** ** Which error is reported *)

Lemma parseSoftnet_from_first_failure (goodrows : list (list string))
    (valss : list (list Z)) :
  Forall2 (Forall2 Softnet.decodes) goodrows valss ->
  Forall (fun row => length row = 11) goodrows ->
  forall (badrow : list string) (more : list (list string))
         (err : Softnet.error) (i : nat) (sd : Softnet.SoftnetData),
    Softnet.parseSoftnetRecord badrow = ([], Some err) ->
    Softnet.parseSoftnet_from i (goodrows ++ badrow :: more) sd
    = Softnet.Returns (Softnet.emptyData, Some err).
Proof.
  induction 1 as [|row vals rows valss Hrow _ IH];
    intros Hlen badrow more err i sd Hbad.
  - cbn. rewrite Hbad. reflexivity.
  - assert (Hvals : length vals = 11).
    { apply Forall_inv in Hlen. apply Forall2_length in Hrow. congruence. }
    destruct (record_of_11 vals Hvals) as (rec & Hrec & _).
    cbn [app]. rewrite (parseSoftnet_from_step i row vals rec _ sd Hrow Hrec).
    apply IH; [apply Forall_inv_tail in Hlen; exact Hlen|exact Hbad].
Qed.

(** X22. When every row has 11 fields and some field does not decode, the
    error returned is that of the first such field in reading order: the
    leftmost one of the first row that has one. Later fields and later
    rows, good or bad, do not change it. *)
Theorem parseSoftnet_first_error (r : string) (goodrows more : list (list string))
    (valss : list (list Z)) (good rest : list string) (vals : list Z)
    (bad : string) (v : Z) (e : Strconv.NumError) :
  rows_of r = inl (goodrows ++ (good ++ bad :: rest) :: more) ->
  Forall (fun row => length row = 11)
    (goodrows ++ (good ++ bad :: rest) :: more) ->
  Forall2 (Forall2 Softnet.decodes) goodrows valss ->
  Forall2 Softnet.decodes good vals ->
  Strconv.ParseInt bad 16 64 = (v, Some e) ->
  Softnet.parseSoftnet r
  = Softnet.Returns (Softnet.emptyData, Some (Softnet.NumError e)).
Proof.
  intros Hrows Hlen Hgood Hrow Hbad.
  rewrite parseSoftnet_unfold. pose proof (ReadAll_checked r) as Hread.
  rewrite Hrows in Hread. rewrite bool_decide_eq_true_2 in Hread by exact Hlen.
  rewrite Hread.
  apply (parseSoftnet_from_first_failure goodrows valss Hgood).
  - apply Forall_app in Hlen as [Hlen _]. exact Hlen.
  - unfold Softnet.parseSoftnetRecord.
    eapply parseSoftnetRecord_from_first_failure; eassumption.
Qed.

Lemma parseSoftnet_first_error_witness :
  Softnet.parseSoftnet sample_bad_report
  = Softnet.Returns
      (Softnet.emptyData,
       Some (Softnet.NumError
               (Strconv.mkNumError "ParseInt" "x3" Strconv.ErrSyntax))).
Proof.
  assert (Hgood : Forall2 (Forall2 Softnet.decodes) [sample_row1] [sample_vals1])
    by (repeat constructor).
  assert (Hrow : Forall2 Softnet.decodes ["1"; "2"] [1; 2]%Z)
    by (repeat constructor).
  refine (parseSoftnet_first_error sample_bad_report [sample_row1]
            [["1"; "2"; "3"; "0"; "0"; "0"; "0"; "0"; "4"; "5"; "yy"]]
            [sample_vals1] ["1"; "2"] ["0"; "0"; "0"; "0"; "0"; "4"; "5"; "zz"]
            [1; 2]%Z "x3" 0%Z _ eq_refl _ Hgood Hrow eq_refl).
  repeat constructor.
Defined.

(** ** The unused fields *)

(** X23. The five fields between the third and the ninth are decoded and
    then dropped: two inputs whose rows have 11 decodable fields each give
    the same result as soon as their rows agree on the six values that are
    kept. *)
Theorem parseSoftnet_unused_fields (r1 r2 : string)
    (rows1 rows2 : list (list string)) (valss1 valss2 : list (list Z)) :
  rows_of r1 = inl rows1 -> rows_of r2 = inl rows2 ->
  Forall (fun row => length row = 11) rows1 ->
  Forall (fun row => length row = 11) rows2 ->
  Forall2 (Forall2 Softnet.decodes) rows1 valss1 ->
  Forall2 (Forall2 Softnet.decodes) rows2 valss2 ->
  Forall2 (fun v1 v2 => Softnet.record_of v1 = Softnet.record_of v2)
    valss1 valss2 ->
  Softnet.parseSoftnet r1 = Softnet.parseSoftnet r2.
Proof.
  intros Hr1 Hr2 Hl1 Hl2 Hd1 Hd2 Hsame.
  destruct (decoded_rows_records rows1 valss1 Hd1 Hl1) as (recs & Hrecs).
  assert (Hrecs2 : Forall2 (fun vals rec => Softnet.record_of vals = Some rec)
                     valss2 recs).
  { clear -Hsame Hrecs. revert recs Hrecs.
    induction Hsame as [|v1 v2 l1 l2 Hv _ IH]; intros recs Hrecs.
    - inversion Hrecs. constructor.
    - inversion Hrecs as [|? rec ? recs' Hrec Htl]; subst. constructor.
      + rewrite <- Hv. exact Hrec.
      + apply IH. exact Htl. }
  rewrite (parseSoftnet_rows r1 rows1 valss1 recs) by assumption.
  rewrite (parseSoftnet_rows r2 rows2 valss2 recs) by assumption.
  reflexivity.
Qed.

Lemma parseSoftnet_unused_fields_witness :
  Softnet.parseSoftnet (Softnet.row_text sample_row1)
  = Softnet.parseSoftnet (Softnet.row_text sample_row1').
Proof.
  assert (Hd1 : Forall2 (Forall2 Softnet.decodes) [sample_row1] [sample_vals1])
    by (repeat constructor).
  assert (Hd2 : Forall2 (Forall2 Softnet.decodes) [sample_row1']
                  [[1; 2; 3; 10; 11; 12; 13; 14; 4; 5; 6]%Z])
    by (repeat constructor).
  refine (parseSoftnet_unused_fields (Softnet.row_text sample_row1)
            (Softnet.row_text sample_row1') [sample_row1] [sample_row1'] _ _
            eq_refl eq_refl _ _ Hd1 Hd2 _); repeat constructor.
Defined.

(** ** [SoftnetStat] *)

Lemma parseSoftnet_answers (r : string) :
  (exists sd, Softnet.parseSoftnet r = Softnet.Returns (sd, None)) \/
  (exists e, Softnet.parseSoftnet r
             = Softnet.Returns (Softnet.emptyData, Some (Softnet.CsvError e))) \/
  (exists e, Softnet.parseSoftnet r
             = Softnet.Returns (Softnet.emptyData, Some (Softnet.NumError e))).
Proof.
  rewrite parseSoftnet_unfold. pose proof (ReadAll_checked r) as Hread.
  destruct (Csv.ReadAll (softnet_reader r)) as [records|e] eqn:Eread.
  - assert (Hlen : Forall (fun row => length row = 11) records).
    { destruct (rows_of r) as [rows|e].
      - destruct (decide (Forall (fun row => length row = 11) rows)) as [H|H].
        + rewrite bool_decide_eq_true_2 in Hread by exact H. congruence.
        + rewrite bool_decide_eq_false_2 in Hread by exact H. discriminate.
      - destruct Hread as [e' ?]. discriminate. }
    destruct (parseSoftnet_from_total records 0
                {| Softnet.Processors :=
                     replicate (length records) Softnet.zeroProcessor |} Hlen)
      as [(sd' & -> & _)|(e & -> & _)].
    + left. exists sd'. reflexivity.
    + right. right. exists e. reflexivity.
  - right. left. exists e. reflexivity.
Qed.

(** X24. [SoftnetStat] always returns, and never data together with an
    error. Its error is the one of opening the file exactly when opening
    failed, and then nothing is parsed; when the file opens, it answers as
    [parseSoftnet] does on the file's bytes. *)
Theorem SoftnetStat_outcomes (f : string + string) :
  exists sd err,
    Softnet.SoftnetStat f = Softnet.Returns (sd, err) /\
    (err <> None -> sd = Softnet.emptyData) /\
    (forall msg, err = Some (Softnet.PathError msg) <-> f = inr msg) /\
    (forall r, f = inl r -> Softnet.parseSoftnet r = Softnet.Returns (sd, err)).
Proof.
  destruct f as [r|msg0]; cbn [Softnet.SoftnetStat].
  - destruct (parseSoftnet_answers r) as [(sd & H)|[(e & H)|(e & H)]];
      rewrite H.
    + exists sd, None. split; [reflexivity|]. split; [contradiction|].
      split; [split; discriminate|]. intros r' [= <-]. exact H.
    + eexists _, _. split; [reflexivity|]. split; [reflexivity|].
      split; [split; discriminate|]. intros r' [= <-]. exact H.
    + eexists _, _. split; [reflexivity|]. split; [reflexivity|].
      split; [split; discriminate|]. intros r' [= <-]. exact H.
  - eexists _, _. split; [reflexivity|]. split; [reflexivity|].
    split; [|discriminate]. intros msg. split; congruence.
Qed.
